(** * webview-rpc: message correlation and dispatch

    A shallow embedding of the two RPC clients of the repository
    ([packages/web/src/client.ts] and the native client) together with the
    parts of [packages/core] they rely on (error classes, message types,
    the default JSON transport, the generation of correlation ids and the
    marking of procedure schemas), and the properties of the protocol that
    are established about them.

    Conventions of the embedding.
    - A JavaScript [Map] is an insertion-ordered association list with
      unique keys ([JsMap]); a JavaScript [Set] of functions is an
      insertion-ordered list of function identities without duplicates
      ([JsSet]).  [Set] objects live in a store and are referred to by
      reference, because the unregister closures of the clients keep the
      [Set] they were created with.
    - A promise created by a call and the timer armed for it share one
      fresh handle.  The effects of the clients (strings handed to the
      transport, calls of [onError], calls of [resolve] and [reject],
      handler invocations) are recorded in logs kept in the state.
    - Host callbacks ([onError], the transport's [postMessage]) return
      normally; user handlers are functions from the payload to an
      outcome and do not call back into the client. *)

From Stdlib Require Import String Ascii List ZArith Lia Bool Arith.
From Stdlib Require Import Decimal DecimalString DecimalZ DecimalFacts.
From Stdlib Require QArith Qround HexadecimalString.
Import ListNotations.

Local Open Scope string_scope.
Local Open Scope list_scope.

(* ================================================================== *)
(** ** JavaScript containers *)

(** [Map<K, V>]: entries in insertion order, keys unique. *)
Module JsMap.
Section Ops.
Context {K V : Type}.
Variable eqb : K -> K -> bool.

Fixpoint get (k : K) (m : list (K * V)) : option V :=
  match m with
  | [] => None
  | (k', v) :: r => if eqb k k' then Some v else get k r
  end.

(** [m.set(k, v)]: an existing key keeps its position. *)
Fixpoint set (k : K) (v : V) (m : list (K * V)) : list (K * V) :=
  match m with
  | [] => [(k, v)]
  | (k', v') :: r => if eqb k k' then (k, v) :: r else (k', v') :: set k v r
  end.

Fixpoint delete (k : K) (m : list (K * V)) : list (K * V) :=
  match m with
  | [] => []
  | (k', v') :: r => if eqb k k' then delete k r else (k', v') :: delete k r
  end.
End Ops.
End JsMap.

(** [Set<T>] of values compared by identity, in insertion order. *)
Module JsSet.
Section Ops.
Context {T : Type}.
Variable eqb : T -> T -> bool.

Fixpoint mem (x : T) (s : list T) : bool :=
  match s with
  | [] => false
  | y :: r => if eqb x y then true else mem x r
  end.

Definition add (x : T) (s : list T) : list T :=
  if mem x s then s else s ++ [x].

Fixpoint delete (x : T) (s : list T) : list T :=
  match s with
  | [] => []
  | y :: r => if eqb x y then delete x r else y :: delete x r
  end.
End Ops.
End JsSet.

(* ================================================================== *)
(** ** JavaScript values and the JSON built-in *)

(** The values that payloads range over.  Numbers are the integer-valued
    ones, with [JNaN] standing for the non-finite numbers; strings are
    sequences of code units below 256. *)
#[local] Unset Elimination Schemes.
Inductive JSValue : Type :=
| JUndefined
| JNull
| JBool (b : bool)
| JNum (n : Z)
| JNaN
| JStr (s : string)
| JArr (xs : list JSValue)
| JObj (ms : list (string * JSValue)).
#[local] Set Elimination Schemes.

Module Json.
#[local] Open Scope string_scope.

Definition dquote : ascii := "034".
Definition bslash : ascii := "092".

(** Property read [o.k]: [undefined] when [o] has no such own property
    (and for the primitive values that can be read from). *)
Definition getProp (k : string) (o : JSValue) : JSValue :=
  match o with
  | JObj ms => match JsMap.get String.eqb k ms with Some v => v | None => JUndefined end
  | _ => JUndefined
  end.

(** *** [JSON.stringify] *)

Definition hexDigit (n : nat) : ascii :=
  nth n ["0"; "1"; "2"; "3"; "4"; "5"; "6"; "7"; "8"; "9";
         "a"; "b"; "c"; "d"; "e"; "f"]%char "0"%char.

(** One code unit of [QuoteJSONString]. *)
Definition escapeChar (c : ascii) : string :=
  let n := nat_of_ascii c in
  if (c =? dquote)%char then String bslash (String dquote "")
  else if (c =? bslash)%char then String bslash (String bslash "")
  else if (n =? 8)%nat then String bslash "b"
  else if (n =? 9)%nat then String bslash "t"
  else if (n =? 10)%nat then String bslash "n"
  else if (n =? 12)%nat then String bslash "f"
  else if (n =? 13)%nat then String bslash "r"
  else if (n <? 32)%nat then
    String bslash (String "u" (String "0" (String "0"
      (String (hexDigit (n / 16)) (String (hexDigit (n mod 16)) "")))))
  else String c "".

Fixpoint escape (s : string) : string :=
  match s with
  | EmptyString => EmptyString
  | String c r => escapeChar c ++ escape r
  end.

Definition quote (s : string) : string :=
  String dquote (escape s ++ String dquote "").

(** [Number::toString] on the integers. *)
Definition showZ (n : Z) : string := NilEmpty.string_of_int (Z.to_int n).

(** [SerializeJSONProperty]: [None] is the [undefined] result. *)
Fixpoint stringify (v : JSValue) : option string :=
  match v with
  | JUndefined => None
  | JNull => Some "null"
  | JBool true => Some "true"
  | JBool false => Some "false"
  | JNum n => Some (showZ n)
  | JNaN => Some "null"
  | JStr s => Some (quote s)
  | JArr xs =>
      Some ("[" ++ String.concat ","
              (map (fun x => match stringify x with
                             | Some t => t
                             | None => "null"
                             end) xs) ++ "]")
  | JObj ms =>
      Some ("{" ++ String.concat ","
              (flat_map (fun kv => match kv with
                                   | (k, x) =>
                                       match stringify x with
                                       | Some t => [quote k ++ ":" ++ t]
                                       | None => []
                                       end
                                   end) ms) ++ "}")
  end.

(** The text of an array element and the texts of an object member, as
    [stringify] forms them. *)
Definition elementText (x : JSValue) : string :=
  match stringify x with
  | Some t => t
  | None => "null"
  end.

Definition memberTexts (kv : string * JSValue) : list string :=
  match kv with
  | (k, x) =>
      match stringify x with
      | Some t => [quote k ++ ":" ++ t]
      | None => []
      end
  end.

(** *** [JSON.parse] *)

Definition isWs (c : ascii) : bool :=
  let n := nat_of_ascii c in
  ((n =? 32) || (n =? 9) || (n =? 10) || (n =? 13))%nat.

Fixpoint skipWs (s : string) : string :=
  match s with
  | String c r => if isWs c then skipWs r else s
  | EmptyString => EmptyString
  end.

Definition hexVal (c : ascii) : option nat :=
  let n := nat_of_ascii c in
  if ((48 <=? n) && (n <=? 57))%nat then Some (n - 48)
  else if ((97 <=? n) && (n <=? 102))%nat then Some (n - 87)
  else if ((65 <=? n) && (n <=? 70))%nat then Some (n - 55)
  else None.

Definition unescape (e : ascii) : option ascii :=
  if (e =? dquote)%char then Some dquote
  else if (e =? bslash)%char then Some bslash
  else if (e =? "/")%char then Some "/"%char
  else if (e =? "b")%char then Some (ascii_of_nat 8)
  else if (e =? "t")%char then Some (ascii_of_nat 9)
  else if (e =? "n")%char then Some (ascii_of_nat 10)
  else if (e =? "f")%char then Some (ascii_of_nat 12)
  else if (e =? "r")%char then Some (ascii_of_nat 13)
  else None.

Definition consChar (c : ascii) (r : option (string * string))
  : option (string * string) :=
  match r with
  | Some (s, rest) => Some (String c s, rest)
  | None => None
  end.

(** The characters of a string literal after its opening quote, up to and
    including the closing quote.  A [\uXXXX] escape of a code unit above
    255 is outside the modelled strings and is refused. *)
Fixpoint parseChars (s : string) : option (string * string) :=
  match s with
  | EmptyString => None
  | String c r =>
      if (c =? dquote)%char then Some (EmptyString, r)
      else if (c =? bslash)%char then
        match r with
        | String e r1 =>
            if (e =? "u")%char then
              match r1 with
              | String h1 (String h2 (String h3 (String h4 r2))) =>
                  match hexVal h1, hexVal h2, hexVal h3, hexVal h4 with
                  | Some a, Some b, Some c', Some d =>
                      let n := ((a * 16 + b) * 16 + c') * 16 + d in
                      if (n <? 256)%nat then consChar (ascii_of_nat n) (parseChars r2)
                      else None
                  | _, _, _, _ => None
                  end
              | _ => None
              end
            else
              match unescape e with
              | Some c' => consChar c' (parseChars r1)
              | None => None
              end
        | EmptyString => None
        end
      else if (nat_of_ascii c <? 32)%nat then None
      else consChar c (parseChars r)
  end.

Definition digitOf (c : ascii) : option (uint -> uint) :=
  if (c =? "0")%char then Some D0
  else if (c =? "1")%char then Some D1
  else if (c =? "2")%char then Some D2
  else if (c =? "3")%char then Some D3
  else if (c =? "4")%char then Some D4
  else if (c =? "5")%char then Some D5
  else if (c =? "6")%char then Some D6
  else if (c =? "7")%char then Some D7
  else if (c =? "8")%char then Some D8
  else if (c =? "9")%char then Some D9
  else None.

Fixpoint parseDigits (s : string) : uint * string :=
  match s with
  | EmptyString => (Nil, EmptyString)
  | String c r =>
      match digitOf c with
      | Some d => let (u, rest) := parseDigits r in (d u, rest)
      | None => (Nil, s)
      end
  end.

(** A JSON integer part is [0] or starts with a non-zero digit. *)
Definition noLeadingZero (d : uint) : bool :=
  match d with
  | Nil => false
  | D0 Nil => true
  | D0 _ => false
  | _ => true
  end.

(** A fraction or an exponent would follow. *)
Definition continuesNumber (s : string) : bool :=
  match s with
  | String c _ => (c =? ".")%char || (c =? "e")%char || (c =? "E")%char
  | EmptyString => false
  end.

(** Number literals: the integers ([-0] reads as [0]).  Literals with a
    fraction or an exponent denote numbers outside [JSValue] and are
    refused. *)
Definition parseNumber (s : string) : option (JSValue * string) :=
  let (neg, body) :=
    match s with
    | String c r => if (c =? "-")%char then (true, r) else (false, s)
    | EmptyString => (false, s)
    end in
  let (d, rest) := parseDigits body in
  if noLeadingZero d && negb (continuesNumber rest)
  then Some (JNum (Z.of_int (if neg then Neg d else Pos d)), rest)
  else None.

Fixpoint expect (word : string) (s : string) : option string :=
  match word with
  | EmptyString => Some s
  | String w word' =>
      match s with
      | String c r => if (c =? w)%char then expect word' r else None
      | EmptyString => None
      end
  end.

Definition literal (word : string) (v : JSValue) (s : string)
  : option (JSValue * string) :=
  match expect word s with
  | Some r => Some (v, r)
  | None => None
  end.

(** Recursive descent over the text; [fuel] bounds the nesting of calls. *)
Fixpoint parseValue (fuel : nat) (s : string) : option (JSValue * string) :=
  match fuel with
  | O => None
  | S fuel' =>
      match skipWs s with
      | EmptyString => None
      | String c r =>
          if (c =? "n")%char then literal "ull" JNull r
          else if (c =? "t")%char then literal "rue" (JBool true) r
          else if (c =? "f")%char then literal "alse" (JBool false) r
          else if (c =? dquote)%char then
            match parseChars r with
            | Some (str, r') => Some (JStr str, r')
            | None => None
            end
          else if (c =? "[")%char then
            match skipWs r with
            | String c' r' =>
                if (c' =? "]")%char then Some (JArr [], r')
                else
                  match parseElements fuel' r with
                  | Some (xs, r'') => Some (JArr xs, r'')
                  | None => None
                  end
            | EmptyString => None
            end
          else if (c =? "{")%char then
            match skipWs r with
            | String c' r' =>
                if (c' =? "}")%char then Some (JObj [], r')
                else
                  match parseMembers fuel' r with
                  | Some (ms, r'') =>
                      Some (JObj (fold_left
                                    (fun acc kv => JsMap.set String.eqb (fst kv) (snd kv) acc)
                                    ms []), r'')
                  | None => None
                  end
            | EmptyString => None
            end
          else parseNumber (String c r)
      end
  end

with parseElements (fuel : nat) (s : string) : option (list JSValue * string) :=
  match fuel with
  | O => None
  | S fuel' =>
      match parseValue fuel' s with
      | None => None
      | Some (v, r) =>
          match skipWs r with
          | String c r' =>
              if (c =? ",")%char then
                match parseElements fuel' r' with
                | Some (vs, r'') => Some (v :: vs, r'')
                | None => None
                end
              else if (c =? "]")%char then Some ([v], r')
              else None
          | EmptyString => None
          end
      end
  end

with parseMembers (fuel : nat) (s : string)
  : option (list (string * JSValue) * string) :=
  match fuel with
  | O => None
  | S fuel' =>
      match skipWs s with
      | String q r =>
          if (q =? dquote)%char then
            match parseChars r with
            | Some (k, r1) =>
                match skipWs r1 with
                | String c1 r2 =>
                    if (c1 =? ":")%char then
                      match parseValue fuel' r2 with
                      | Some (v, r3) =>
                          match skipWs r3 with
                          | String c3 r4 =>
                              if (c3 =? ",")%char then
                                match parseMembers fuel' r4 with
                                | Some (ms, r5) => Some ((k, v) :: ms, r5)
                                | None => None
                                end
                              else if (c3 =? "}")%char then Some ([(k, v)], r4)
                              else None
                          | EmptyString => None
                          end
                      | None => None
                      end
                    else None
                | EmptyString => None
                end
            | None => None
            end
          else None
      | EmptyString => None
      end
  end.

(** [JSON.parse]: [None] is a thrown [SyntaxError]. *)
Definition parse (s : string) : option JSValue :=
  match parseValue (2 * String.length s + 2) s with
  | Some (v, r) =>
      match skipWs r with
      | EmptyString => Some v
      | String _ _ => None
      end
  | None => None
  end.

(** *** The values that [JSON] represents exactly *)

Definition maxSafeInteger : Z := 9007199254740991.

Fixpoint uniqueKeys (ks : list string) : bool :=
  match ks with
  | [] => true
  | k :: r => negb (existsb (String.eqb k) r) && uniqueKeys r
  end.

(** No [undefined], no non-finite number, only safe integers, and the keys
    of an object pairwise distinct (as they are in a JavaScript object). *)
Fixpoint jsonSafe (v : JSValue) : bool :=
  match v with
  | JUndefined | JNaN => false
  | JNull | JBool _ | JStr _ => true
  | JNum n => (Z.abs n <=? maxSafeInteger)%Z
  | JArr xs => forallb jsonSafe xs
  | JObj ms =>
      uniqueKeys (map fst ms) && forallb (fun kv => jsonSafe (snd kv)) ms
  end.


(** Calls of the parser nested while it reads the text of a value. *)
Fixpoint need (v : JSValue) : nat :=
  match v with
  | JArr xs => S (fold_right (fun x acc => S (Nat.max (need x) acc)) 0 xs)
  | JObj ms => S (fold_right (fun kv acc => S (Nat.max (need (snd kv)) acc)) 0 ms)
  | _ => 1
  end.

(** What may follow the text of a value. *)
Definition delimited (s : string) : bool :=
  match s with
  | EmptyString => true
  | String c _ => (c =? ",")%char || (c =? "]")%char || (c =? "}")%char
  end.

End Json.


(* ================================================================== *)
(** ** packages/core *)

(** Thrown values: instances of [Error] and of its subclasses in
    [errors.ts].  [code] and [timeout] are the fields the subclasses add. *)
Module JSError.
Record t : Type := make
  { name : string;
    message : string;
    code : option string;
    timeout : option Z }.
End JSError.

(** The [error] member of a response. *)
Module ErrorInfo.
Record t : Type := make
  { message : string;
    code : string }.
End ErrorInfo.

Module Core.

(** *** errors.ts *)

(** [new Error(message)] *)
Definition Error (message : string) : JSError.t :=
  JSError.make "Error" message None None.

(** [new WebViewRPCError(message, code)] *)
Definition WebViewRPCError (message code : string) : JSError.t :=
  JSError.make "WebViewRPCError" message (Some code) None.

(** [new WebViewRPCTimeoutError(message, timeout)]: the code is fixed by
    the call [super(message, 'TIMEOUT')]. *)
Definition WebViewRPCTimeoutError (message : string) (timeout : Z) : JSError.t :=
  JSError.make "WebViewRPCTimeoutError" message (Some "TIMEOUT") (Some timeout).

(** Errors raised by the JavaScript engine itself.  The wording of their
    messages is the engine's. *)
Definition TypeError (message : string) : JSError.t :=
  JSError.make "TypeError" message None None.

Definition SyntaxError (message : string) : JSError.t :=
  JSError.make "SyntaxError" message None None.

(** *** types.ts *)

(** [Message = RequestMessage | ResponseMessage | EventMessage].  An
    optional member that is absent reads as [undefined] ([JUndefined] for
    [data], [None] for [error] and [timestamp]). *)
Inductive Message : Type :=
| RequestMessage (id : string) (procedure : string) (data : JSValue)
    (timestamp : option Z)
| ResponseMessage (id : string) (data : JSValue) (error : option ErrorInfo.t)
    (timestamp : option Z)
| EventMessage (id : string) (event : string) (data : JSValue)
    (timestamp : option Z).

Definition messageId (m : Message) : string :=
  match m with
  | RequestMessage id _ _ _ => id
  | ResponseMessage id _ _ _ => id
  | EventMessage id _ _ _ => id
  end.



Definition messageData (m : Message) : JSValue :=
  match m with
  | RequestMessage _ _ data _ => data
  | ResponseMessage _ data _ _ => data
  | EventMessage _ _ data _ => data
  end.

Definition messageTimestamp (m : Message) : option Z :=
  match m with
  | RequestMessage _ _ _ ts => ts
  | ResponseMessage _ _ _ ts => ts
  | EventMessage _ _ _ ts => ts
  end.

Definition optionalMember {A : Type} (k : string) (f : A -> JSValue) (o : option A)
  : list (string * JSValue) :=
  match o with
  | Some a => [(k, f a)]
  | None => []
  end.

Definition errorObject (e : ErrorInfo.t) : JSValue :=
  JObj [("message", JStr (ErrorInfo.message e)); ("code", JStr (ErrorInfo.code e))].

(** The object a message is at run time, members in the order of the
    object literals of the clients. *)
Definition toObject (m : Message) : JSValue :=
  match m with
  | RequestMessage id procedure data ts =>
      JObj ([("id", JStr id); ("type", JStr "request");
             ("procedure", JStr procedure); ("data", data)]
            ++ optionalMember "timestamp" JNum ts)
  | ResponseMessage id data error ts =>
      JObj ([("id", JStr id); ("type", JStr "response"); ("data", data)]
            ++ optionalMember "error" errorObject error
            ++ optionalMember "timestamp" JNum ts)
  | EventMessage id event data ts =>
      JObj ([("id", JStr id); ("type", JStr "event");
             ("event", JStr event); ("data", data)]
            ++ optionalMember "timestamp" JNum ts)
  end.

(** What [deserializer(raw) as Message] is to the code that then reads
    its members. *)
Inductive Cast : Type :=
| IsMessage (m : Message)
| NullOrUndefined      (* reading [.type] throws a [TypeError] *)
| NoMessage.           (* [.type] is none of the three kinds *)

(** Truthiness of [message.error], and the members read from it. *)
Definition readError (v : JSValue) : option (option ErrorInfo.t) :=
  match v with
  | JUndefined | JNull | JBool false | JNaN => Some None
  | JNum n => if (n =? 0)%Z then Some None else None
  | JStr s => match s with EmptyString => Some None | _ => None end
  | JObj _ =>
      match Json.getProp "message" v, Json.getProp "code" v with
      | JStr m, JStr c => Some (Some (ErrorInfo.make m c))
      | _, _ => None
      end
  | _ => None
  end.

Definition readTimestamp (v : JSValue) : option Z :=
  match v with
  | JNum n => Some n
  | _ => None
  end.

(** The unchecked cast [as Message], read through the declared interfaces.
    A response whose [id] is no string, or an event whose [event] is no
    string, finds nothing in the maps of the clients and is dropped like a
    value of no kind; the [id] of an event is never read, and one that is
    no string is taken to be empty.  A value that announces a kind and does
    not inhabit its interface otherwise is outside the typed model; it is
    dropped too. *)
Definition asMessage (v : JSValue) : Cast :=
  match v with
  | JUndefined | JNull => NullOrUndefined
  | JObj _ =>
      match Json.getProp "type" v with
      | JStr ty =>
          if (ty =? "response")%string then
            match Json.getProp "id" v, readError (Json.getProp "error" v) with
            | JStr id, Some error =>
                IsMessage (ResponseMessage id (Json.getProp "data" v) error
                             (readTimestamp (Json.getProp "timestamp" v)))
            | _, _ => NoMessage
            end
          else if (ty =? "event")%string then
            match Json.getProp "event" v with
            | JStr event =>
                IsMessage (EventMessage
                             (match Json.getProp "id" v with
                              | JStr id => id
                              | _ => EmptyString
                              end)
                             event (Json.getProp "data" v)
                             (readTimestamp (Json.getProp "timestamp" v)))
            | _ => NoMessage
            end
          else if (ty =? "request")%string then
            match Json.getProp "id" v, Json.getProp "procedure" v with
            | JStr id, JStr procedure =>
                IsMessage (RequestMessage id procedure (Json.getProp "data" v)
                             (readTimestamp (Json.getProp "timestamp" v)))
            | _, _ => NoMessage
            end
          else NoMessage
      | _ => NoMessage
      end
  | _ => NoMessage
  end.

(** *** transport.ts *)

(** [Serializer = (data: unknown) => string]; the result is [None] where
    the function returns [undefined]. *)
Inductive SerResult : Type :=
| Serialized (s : option string)
| SerThrows (e : JSError.t).

(** [Deserializer = (data: string) => unknown] *)
Inductive DeserResult : Type :=
| Deserialized (v : JSValue)
| DeserThrows (e : JSError.t).

(** [defaultSerializer = (data) => JSON.stringify(data)] *)
Definition defaultSerializer (data : JSValue) : SerResult :=
  Serialized (Json.stringify data).

(** [defaultDeserializer = (data) => JSON.parse(data)] *)
Definition defaultDeserializer (data : string) : DeserResult :=
  match Json.parse data with
  | Some v => Deserialized v
  | None => DeserThrows (SyntaxError "Unexpected token in JSON")
  end.

(** *** Handlers *)

(** A registered function, known by its identity. *)
Definition Handler : Type := nat.

(** How a call of a handler ends: with a value (returned, or the value its
    promise is fulfilled with), with an error (thrown, or the reason its
    promise is rejected with), or never, for a promise that stays
    pending. *)
Inductive Outcome : Type :=
| Returns (v : JSValue)
| Throws (e : JSError.t)
| NeverSettles.

(** Calls of [resolve] and [reject] of a promise. *)
Inductive Settlement : Type :=
| Resolved (v : JSValue)
| Rejected (e : JSError.t).




End Core.

(* ================================================================== *)
(** ** Pending requests and timers *)

(** Both clients keep the same two kinds of records. *)
Module Correlation.

(** An entry of [pendingRequests]: [settles] is the promise whose
    [resolve] and [reject] the entry holds. *)
Record PendingRequest : Type :=
  { settles : nat;
    timeoutId : nat }.

(** The callback of an armed timer deletes [expires] from
    [pendingRequests] and rejects the promise [rejects]. *)
Record Timer : Type :=
  { expires : string;
    rejects : nat }.

(** The armed timers are known by distinct handles; each rejects the
    promise that shares its handle, which was created earlier and has not
    been settled.  No promise was settled twice. *)
Record TimersOk (timers : list (nat * Timer))
    (settled : list (nat * Core.Settlement)) (next : nat) : Prop :=
  { timers_keys : NoDup (map fst timers);
    timers_own : forall t timer, In (t, timer) timers ->
                   rejects timer = t /\ t < next /\ ~ In t (map fst settled);
    settled_once : NoDup (map fst settled);
    settled_old : forall h, In h (map fst settled) -> h < next }.

(** The entries have distinct ids, and the timer of each is armed to
    expire that id. *)
Record EntriesOk (pending : list (string * PendingRequest))
    (timers : list (nat * Timer)) : Prop :=
  { pending_keys : NoDup (map fst pending);
    pending_armed : forall id p, In (id, p) pending ->
                      settles p = timeoutId p /\
                      In (timeoutId p, {| expires := id; rejects := timeoutId p |})
                         timers }.

(** A [Set] holds no function twice. *)
Definition SetsOk (sets : list (nat * list Core.Handler)) : Prop :=
  forall r hs, JsMap.get Nat.eqb r sets = Some hs -> NoDup hs.

End Correlation.

(* ================================================================== *)
(** ** packages/web/src/client.ts *)

Module Web.
Import Core Correlation.

(** [WebClientOptions] with the defaults of [createWebClient] filled in.
    [onError] tells whether an error callback was given. *)
Record Config : Type :=
  { serializer : JSValue -> SerResult;
    deserializer : string -> DeserResult;
    timeout : Z;
    onError : bool }.

Definition defaultConfig : Config :=
  {| serializer := defaultSerializer;
     deserializer := defaultDeserializer;
     timeout := 5000;
     onError := false |}.

(** What the client is created with: its configuration, the environment
    ([typeof window !== 'undefined'], and [isWebView], which the client
    computes once), and the behaviour of the functions that get
    registered. *)
Record Client : Type :=
  { config : Config;
    windowDefined : bool;
    isWebView : bool;
    behaviour : Handler -> JSValue -> Outcome }.

Record State : Type :=
  { pendingRequests : list (string * PendingRequest);
    eventHandlers : list (string * nat);      (* name to [Set] reference *)
    procedureHandlers : list (string * Handler);
    sets : list (nat * list Handler);         (* the [Set] objects *)
    timers : list (nat * Timer);              (* the armed timers *)
    listening : bool;                         (* [handleMessage] is attached *)
    next : nat;                               (* next fresh handle *)
    posted : list (option string);            (* [ReactNativeWebView.postMessage] *)
    errors : list JSError.t;                  (* calls of [onError] *)
    settled : list (nat * Settlement);        (* calls of [resolve]/[reject] *)
    invoked : list (Handler * JSValue) }.     (* calls of handlers *)

(** The state [createWebClient] leaves. *)
Definition create (c : Client) : State :=
  {| pendingRequests := []; eventHandlers := []; procedureHandlers := [];
     sets := []; timers := []; listening := windowDefined c; next := 0;
     posted := []; errors := []; settled := []; invoked := [] |}.

Definition withPending (s : State) (p : list (string * PendingRequest)) : State :=
  {| pendingRequests := p; eventHandlers := eventHandlers s;
     procedureHandlers := procedureHandlers s; sets := sets s;
     timers := timers s; listening := listening s; next := next s;
     posted := posted s; errors := errors s; settled := settled s;
     invoked := invoked s |}.

Definition withEventHandlers (s : State) (m : list (string * nat)) : State :=
  {| pendingRequests := pendingRequests s; eventHandlers := m;
     procedureHandlers := procedureHandlers s; sets := sets s;
     timers := timers s; listening := listening s; next := next s;
     posted := posted s; errors := errors s; settled := settled s;
     invoked := invoked s |}.

Definition withProcedureHandlers (s : State) (m : list (string * Handler)) : State :=
  {| pendingRequests := pendingRequests s; eventHandlers := eventHandlers s;
     procedureHandlers := m; sets := sets s;
     timers := timers s; listening := listening s; next := next s;
     posted := posted s; errors := errors s; settled := settled s;
     invoked := invoked s |}.

Definition withSets (s : State) (h : list (nat * list Handler)) : State :=
  {| pendingRequests := pendingRequests s; eventHandlers := eventHandlers s;
     procedureHandlers := procedureHandlers s; sets := h;
     timers := timers s; listening := listening s; next := next s;
     posted := posted s; errors := errors s; settled := settled s;
     invoked := invoked s |}.

Definition withTimers (s : State) (t : list (nat * Timer)) : State :=
  {| pendingRequests := pendingRequests s; eventHandlers := eventHandlers s;
     procedureHandlers := procedureHandlers s; sets := sets s;
     timers := t; listening := listening s; next := next s;
     posted := posted s; errors := errors s; settled := settled s;
     invoked := invoked s |}.

Definition withListening (s : State) (b : bool) : State :=
  {| pendingRequests := pendingRequests s; eventHandlers := eventHandlers s;
     procedureHandlers := procedureHandlers s; sets := sets s;
     timers := timers s; listening := b; next := next s;
     posted := posted s; errors := errors s; settled := settled s;
     invoked := invoked s |}.

Definition withNext (s : State) (n : nat) : State :=
  {| pendingRequests := pendingRequests s; eventHandlers := eventHandlers s;
     procedureHandlers := procedureHandlers s; sets := sets s;
     timers := timers s; listening := listening s; next := n;
     posted := posted s; errors := errors s; settled := settled s;
     invoked := invoked s |}.

(** [window.ReactNativeWebView.postMessage(serialized)] *)
Definition transportPost (s : State) (serialized : option string) : State :=
  {| pendingRequests := pendingRequests s; eventHandlers := eventHandlers s;
     procedureHandlers := procedureHandlers s; sets := sets s;
     timers := timers s; listening := listening s; next := next s;
     posted := posted s ++ [serialized]; errors := errors s;
     settled := settled s; invoked := invoked s |}.

(** [config.onError?.(error)] *)
Definition reportError (c : Client) (s : State) (error : JSError.t) : State :=
  if onError (config c) then
    {| pendingRequests := pendingRequests s; eventHandlers := eventHandlers s;
       procedureHandlers := procedureHandlers s; sets := sets s;
       timers := timers s; listening := listening s; next := next s;
       posted := posted s; errors := errors s ++ [error];
       settled := settled s; invoked := invoked s |}
  else s.

(** [resolve(value)] or [reject(error)] of the promise [p] *)
Definition settle (s : State) (p : nat) (how : Settlement) : State :=
  {| pendingRequests := pendingRequests s; eventHandlers := eventHandlers s;
     procedureHandlers := procedureHandlers s; sets := sets s;
     timers := timers s; listening := listening s; next := next s;
     posted := posted s; errors := errors s;
     settled := settled s ++ [(p, how)]; invoked := invoked s |}.

(** [handler(data)] is entered. *)
Definition recordCall (s : State) (h : Handler) (data : JSValue) : State :=
  {| pendingRequests := pendingRequests s; eventHandlers := eventHandlers s;
     procedureHandlers := procedureHandlers s; sets := sets s;
     timers := timers s; listening := listening s; next := next s;
     posted := posted s; errors := errors s; settled := settled s;
     invoked := invoked s ++ [(h, data)] |}.

Definition clearTimeout (s : State) (t : nat) : State :=
  withTimers s (JsMap.delete Nat.eqb t (timers s)).

(** The [Set] behind a reference. *)
Definition deref (s : State) (r : nat) : list Handler :=
  match JsMap.get Nat.eqb r (sets s) with
  | Some hs => hs
  | None => []
  end.

(** The functions [eventHandlers] holds for [event], in the order of the
    iteration of their [Set]. *)
Definition listeners (s : State) (event : string) : list Handler :=
  match JsMap.get String.eqb event (eventHandlers s) with
  | Some r => deref s r
  | None => []
  end.

Definition postToNative (c : Client) (s : State) (message : Message) : State :=
  if negb (isWebView c) then s
  else
    match serializer (config c) (toObject message) with
    | Serialized serialized => transportPost s serialized
    | SerThrows error => reportError c s error
    end.

Definition handleResponse (s : State) (id : string) (data : JSValue)
    (error : option ErrorInfo.t) : State :=
  match JsMap.get String.eqb id (pendingRequests s) with
  | None => s
  | Some pending =>
      let s1 := clearTimeout s (timeoutId pending) in
      let s2 := withPending s1 (JsMap.delete String.eqb id (pendingRequests s1)) in
      match error with
      | Some e =>
          settle s2 (settles pending)
            (Rejected (WebViewRPCError (ErrorInfo.message e) (ErrorInfo.code e)))
      | None => settle s2 (settles pending) (Resolved data)
      end
  end.

(** A response for [id] changes nothing: it settles no promise, reaches
    no callback and leaves the maps as they are. *)
Definition dropsResponse (s : State) (id : string) : Prop :=
  forall data error, handleResponse s id data error = s.

(** The body of [for (const handler of handlers)]. *)
Definition callListener (c : Client) (data : JSValue) (s : State) (handler : Handler)
  : State :=
  let s1 := recordCall s handler data in
  match behaviour c handler data with
  | Throws error => reportError c s1 error
  | _ => s1
  end.

Definition handleEvent (c : Client) (s : State) (event : string) (data : JSValue)
  : State :=
  match JsMap.get String.eqb event (eventHandlers s) with
  | None => s
  | Some r => fold_left (callListener c data) (deref s r) s
  end.

(** The errors the functions [hs] throw when called with [data], in the
    order of [hs]. *)
Definition thrownBy (c : Client) (data : JSValue) (hs : list Handler)
  : list JSError.t :=
  flat_map (fun h => match behaviour c h data with
                     | Throws error => [error]
                     | _ => []
                     end) hs.

(** A call of [handleRequest] suspended at its [await]: the request it
    answers and how the call of the handler ends. *)
Record Task : Type :=
  { requestId : string;
    outcome : Outcome }.

Definition noHandlerMessage (procedure : string) : string :=
  ("No handler registered for procedure: " ++ procedure)%string.

(** [handleRequest] up to [await handler(message.data)]. *)
Definition handleRequest (c : Client) (s : State) (id procedure : string)
    (data : JSValue) : State * option Task :=
  match JsMap.get String.eqb procedure (procedureHandlers s) with
  | None =>
      (postToNative c s
         (ResponseMessage id JUndefined
            (Some (ErrorInfo.make (noHandlerMessage procedure) "NO_HANDLER")) None),
       None)
  | Some handler =>
      (recordCall s handler data,
       Some {| requestId := id; outcome := behaviour c handler data |})
  end.

(** [handleRequest] from the [await] on, once the handler has settled. *)
Definition resume (c : Client) (s : State) (task : Task) : State :=
  match outcome task with
  | Returns result =>
      postToNative c s (ResponseMessage (requestId task) result None None)
  | Throws error =>
      postToNative c (reportError c s error)
        (ResponseMessage (requestId task) JUndefined
           (Some (ErrorInfo.make (JSError.message error) "HANDLER_ERROR")) None)
  | NeverSettles => s
  end.

Definition handleMessage (c : Client) (s : State) (raw : string)
  : State * option Task :=
  match deserializer (config c) raw with
  | DeserThrows error => (reportError c s error, None)
  | Deserialized v =>
      match asMessage v with
      | NullOrUndefined =>
          (reportError c s
             (TypeError "Cannot read properties of null (reading 'type')"), None)
      | NoMessage => (s, None)
      | IsMessage (ResponseMessage id data error _) =>
          (handleResponse s id data error, None)
      | IsMessage (EventMessage _ event data _) =>
          (handleEvent c s event data, None)
      | IsMessage (RequestMessage id procedure data _) =>
          handleRequest c s id procedure data
      end
  end.

(** A [message] event of the window. *)
Definition receive (c : Client) (s : State) (raw : string) : State * option Task :=
  if listening s then handleMessage c s raw else (s, None).

(** A message handled with its handler settling before anything else
    happens. *)
Definition deliver (c : Client) (s : State) (raw : string) : State :=
  match receive c s raw with
  | (s', Some task) => resume c s' task
  | (s', None) => s'
  end.

Definition timeoutMessage (ms : Z) : string :=
  ("Request timed out after " ++ Json.showZ ms ++ "ms")%string.

(** [call(procedure, data)], with [id] the result of
    [generateCorrelationId()].  The second component is the promise that
    is returned. *)
Definition call (c : Client) (s : State) (id procedure : string) (data : JSValue)
  : State * nat :=
  let h := next s in
  let s0 := withNext s (S h) in
  if negb (isWebView c) then
    (settle s0 h (Rejected (WebViewRPCError "Not running in WebView" "NOT_IN_WEBVIEW")), h)
  else
    let s1 := withTimers s0
                (JsMap.set Nat.eqb h {| expires := id; rejects := h |} (timers s0)) in
    let s2 := withPending s1
                (JsMap.set String.eqb id {| settles := h; timeoutId := h |}
                   (pendingRequests s1)) in
    (postToNative c s2 (RequestMessage id procedure data None), h).

(** The callback given to [setTimeout] runs: the timer [t] expires. *)
Definition fireTimeout (c : Client) (s : State) (t : nat) : State :=
  match JsMap.get Nat.eqb t (timers s) with
  | None => s
  | Some timer =>
      let s1 := clearTimeout s t in
      let s2 := withPending s1
                  (JsMap.delete String.eqb (expires timer) (pendingRequests s1)) in
      settle s2 (rejects timer)
        (Rejected (WebViewRPCTimeoutError (timeoutMessage (timeout (config c)))
                     (timeout (config c))))
  end.

(** The function a registration returns. *)
Inductive Unregister : Type :=
| UnregisterListener (handlers : nat) (handler : Handler) (eventName : string)
| UnregisterProcedure (procedureName : string).

Definition handleNativeEvent (s : State) (event : string) (handler : Handler)
  : State * Unregister :=
  let (s1, r) :=
    match JsMap.get String.eqb event (eventHandlers s) with
    | Some r => (s, r)
    | None =>
        let r := next s in
        (withEventHandlers
           (withSets (withNext s (S r)) (JsMap.set Nat.eqb r [] (sets s)))
           (JsMap.set String.eqb event r (eventHandlers s)), r)
    end in
  (withSets s1 (JsMap.set Nat.eqb r (JsSet.add Nat.eqb handler (deref s1 r)) (sets s1)),
   UnregisterListener r handler event).

Definition handleWebProcedure (s : State) (procedure : string) (handler : Handler)
  : State * Unregister :=
  (withProcedureHandlers s (JsMap.set String.eqb procedure handler (procedureHandlers s)),
   UnregisterProcedure procedure).

Definition unregister (s : State) (u : Unregister) : State :=
  match u with
  | UnregisterListener r handler eventName =>
      let s1 := withSets s (JsMap.set Nat.eqb r (JsSet.delete Nat.eqb handler (deref s r))
                              (sets s)) in
      match deref s1 r with
      | [] => withEventHandlers s1 (JsMap.delete String.eqb eventName (eventHandlers s1))
      | _ :: _ => s1
      end
  | UnregisterProcedure procedureName =>
      withProcedureHandlers s
        (JsMap.delete String.eqb procedureName (procedureHandlers s))
  end.

(** [emit(event, data)], with [id] the result of
    [generateCorrelationId()]. *)
Definition emit (c : Client) (s : State) (id event : string) (data : JSValue) : State :=
  if negb (isWebView c) then s
  else postToNative c s (EventMessage id event data None).

(** The callback of [pendingRequests.forEach]. *)
Definition cancel (s : State) (entry : string * PendingRequest) : State :=
  settle (clearTimeout s (timeoutId (snd entry))) (settles (snd entry))
    (Rejected (WebViewRPCError "Client cleanup" "CLEANUP")).

Definition cleanup (c : Client) (s : State) : State :=
  let s1 := fold_left cancel (pendingRequests s) s in
  let s2 := withPending s1 [] in
  let s3 := withEventHandlers s2 [] in
  let s4 := withProcedureHandlers s3 [] in
  if windowDefined c then withListening s4 false else s4.

(** *** Executions *)

(** What the application, the peer and the clock do to a client.  A task
    that is resumed and a closure that is run need not stem from the
    history of the client; this only adds executions. *)
Inductive Action : Type :=
| Call (id procedure : string) (data : JSValue)
| Emit (id event : string) (data : JSValue)
| HandleNativeEvent (event : string) (handler : Handler)
| HandleWebProcedure (procedure : string) (handler : Handler)
| Unregistered (u : Unregister)
| Received (raw : string)
| Resumed (task : Task)
| TimedOut (t : nat)
| CleanedUp.

Definition step (c : Client) (s : State) (a : Action) : State :=
  match a with
  | Call id procedure data => fst (call c s id procedure data)
  | Emit id event data => emit c s id event data
  | HandleNativeEvent event handler => fst (handleNativeEvent s event handler)
  | HandleWebProcedure procedure handler => fst (handleWebProcedure s procedure handler)
  | Unregistered u => unregister s u
  | Received raw => fst (receive c s raw)
  | Resumed task => resume c s task
  | TimedOut t => fireTimeout c s t
  | CleanedUp => cleanup c s
  end.

Definition run (c : Client) (s : State) (actions : list Action) : State :=
  fold_left (step c) actions s.

Definition Invariant (s : State) : Prop :=
  TimersOk (timers s) (settled s) (next s) /\
  EntriesOk (pendingRequests s) (timers s) /\
  SetsOk (sets s).

(** [raw] decodes to a value that announces a response and bears the id
    [id], well-formed or not. *)
Definition isResponseFor (c : Client) (id : string) (raw : string) : bool :=
  match deserializer (config c) raw with
  | Deserialized v =>
      match Json.getProp "type" v, Json.getProp "id" v with
      | JStr ty, JStr id' => String.eqb ty "response" && String.eqb id' id
      | _, _ => false
      end
  | DeserThrows _ => false
  end.

(** The actions under which the call with id [id] and timer [h] stays
    unanswered: no response for [id] is received, the client is not
    cleaned up, and the timer [h] does not expire. *)
Definition leavesPending (c : Client) (id : string) (h : nat) (a : Action) : bool :=
  match a with
  | Received raw => negb (isResponseFor c id raw)
  | TimedOut t => negb (t =? h)%nat
  | CleanedUp => false
  | _ => true
  end.

End Web.

(* ================================================================== *)
(** ** packages/native/src/client.ts *)

Module Native.
Import Core Correlation.

(** [NativeClientOptions] with the defaults of [createNativeClient]. *)
Record Config : Type :=
  { serializer : JSValue -> SerResult;
    deserializer : string -> DeserResult;
    timeout : Z;
    onError : bool }.

Definition defaultConfig : Config :=
  {| serializer := defaultSerializer;
     deserializer := defaultDeserializer;
     timeout := 5000;
     onError := false |}.

Record Client : Type :=
  { config : Config;
    behaviour : Handler -> JSValue -> Outcome }.

Record State : Type :=
  { pendingRequests : list (string * PendingRequest);
    nativeHandlers : list (string * nat);     (* name to [Set] reference *)
    sets : list (nat * list Handler);         (* the [Set] objects *)
    timers : list (nat * Timer);              (* the armed timers *)
    webView : bool;                           (* [webViewRef.current] is set *)
    next : nat;                               (* next fresh handle *)
    posted : list (option string);            (* [webView.postMessage] *)
    errors : list JSError.t;                  (* calls of [onError] *)
    settled : list (nat * Settlement);        (* calls of [resolve]/[reject] *)
    invoked : list (Handler * JSValue);       (* calls of handlers *)
    unhandled : list JSError.t }.             (* rejections nobody awaits *)

(** The state [createNativeClient] leaves, for a given [webViewRef]. *)
Definition create (attached : bool) : State :=
  {| pendingRequests := []; nativeHandlers := []; sets := []; timers := [];
     webView := attached; next := 0; posted := []; errors := [];
     settled := []; invoked := []; unhandled := [] |}.

Definition withPending (s : State) (p : list (string * PendingRequest)) : State :=
  {| pendingRequests := p; nativeHandlers := nativeHandlers s; sets := sets s;
     timers := timers s; webView := webView s; next := next s;
     posted := posted s; errors := errors s; settled := settled s;
     invoked := invoked s; unhandled := unhandled s |}.

Definition withHandlers (s : State) (m : list (string * nat)) : State :=
  {| pendingRequests := pendingRequests s; nativeHandlers := m; sets := sets s;
     timers := timers s; webView := webView s; next := next s;
     posted := posted s; errors := errors s; settled := settled s;
     invoked := invoked s; unhandled := unhandled s |}.

Definition withSets (s : State) (h : list (nat * list Handler)) : State :=
  {| pendingRequests := pendingRequests s; nativeHandlers := nativeHandlers s;
     sets := h; timers := timers s; webView := webView s; next := next s;
     posted := posted s; errors := errors s; settled := settled s;
     invoked := invoked s; unhandled := unhandled s |}.

Definition withTimers (s : State) (t : list (nat * Timer)) : State :=
  {| pendingRequests := pendingRequests s; nativeHandlers := nativeHandlers s;
     sets := sets s; timers := t; webView := webView s; next := next s;
     posted := posted s; errors := errors s; settled := settled s;
     invoked := invoked s; unhandled := unhandled s |}.

(** The host sets or clears [webViewRef.current]. *)
Definition withWebView (s : State) (attached : bool) : State :=
  {| pendingRequests := pendingRequests s; nativeHandlers := nativeHandlers s;
     sets := sets s; timers := timers s; webView := attached; next := next s;
     posted := posted s; errors := errors s; settled := settled s;
     invoked := invoked s; unhandled := unhandled s |}.

Definition withNext (s : State) (n : nat) : State :=
  {| pendingRequests := pendingRequests s; nativeHandlers := nativeHandlers s;
     sets := sets s; timers := timers s; webView := webView s; next := n;
     posted := posted s; errors := errors s; settled := settled s;
     invoked := invoked s; unhandled := unhandled s |}.

(** [webView.postMessage(serialized)] *)
Definition transportPost (s : State) (serialized : option string) : State :=
  {| pendingRequests := pendingRequests s; nativeHandlers := nativeHandlers s;
     sets := sets s; timers := timers s; webView := webView s; next := next s;
     posted := posted s ++ [serialized]; errors := errors s;
     settled := settled s; invoked := invoked s; unhandled := unhandled s |}.

(** [onError?.(error)] *)
Definition reportError (c : Client) (s : State) (error : JSError.t) : State :=
  if onError (config c) then
    {| pendingRequests := pendingRequests s; nativeHandlers := nativeHandlers s;
       sets := sets s; timers := timers s; webView := webView s; next := next s;
       posted := posted s; errors := errors s ++ [error];
       settled := settled s; invoked := invoked s; unhandled := unhandled s |}
  else s.

Definition settle (s : State) (p : nat) (how : Settlement) : State :=
  {| pendingRequests := pendingRequests s; nativeHandlers := nativeHandlers s;
     sets := sets s; timers := timers s; webView := webView s; next := next s;
     posted := posted s; errors := errors s;
     settled := settled s ++ [(p, how)]; invoked := invoked s;
     unhandled := unhandled s |}.

Definition recordCall (s : State) (h : Handler) (data : JSValue) : State :=
  {| pendingRequests := pendingRequests s; nativeHandlers := nativeHandlers s;
     sets := sets s; timers := timers s; webView := webView s; next := next s;
     posted := posted s; errors := errors s; settled := settled s;
     invoked := invoked s ++ [(h, data)]; unhandled := unhandled s |}.

(** The promise of an [async] call nobody awaits is rejected. *)
Definition recordUnhandled (s : State) (error : JSError.t) : State :=
  {| pendingRequests := pendingRequests s; nativeHandlers := nativeHandlers s;
     sets := sets s; timers := timers s; webView := webView s; next := next s;
     posted := posted s; errors := errors s; settled := settled s;
     invoked := invoked s; unhandled := unhandled s ++ [error] |}.

Definition clearTimeout (s : State) (t : nat) : State :=
  withTimers s (JsMap.delete Nat.eqb t (timers s)).

Definition deref (s : State) (r : nat) : list Handler :=
  match JsMap.get Nat.eqb r (sets s) with
  | Some hs => hs
  | None => []
  end.

(** The functions [nativeHandlers] holds for [name], in the order of the
    iteration of their [Set]. *)
Definition registered (s : State) (name : string) : list Handler :=
  match JsMap.get String.eqb name (nativeHandlers s) with
  | Some r => deref s r
  | None => []
  end.

(** How a statement completes: normally, or by throwing. *)
Inductive Completion : Type :=
| Normal (s : State)
| Abrupt (s : State) (thrown : JSError.t).

(** [pendingRequests.get(message.id)!] followed by the clearing, the
    deletion and the rejection that both failure paths of [postMessage]
    share.  With no entry for [id], reading [timeoutId] of [undefined]
    throws. *)
Definition failPending (s : State) (id : string) (reason : JSError.t) : Completion :=
  match JsMap.get String.eqb id (pendingRequests s) with
  | Some pending =>
      let s1 := clearTimeout s (timeoutId pending) in
      let s2 := withPending s1 (JsMap.delete String.eqb id (pendingRequests s1)) in
      Normal (settle s2 (settles pending) (Rejected reason))
  | None =>
      Abrupt s (TypeError "Cannot read properties of undefined (reading 'timeoutId')")
  end.

Definition isEvent (m : Message) : bool :=
  match m with EventMessage _ _ _ _ => true | _ => false end.

Definition isRequest (m : Message) : bool :=
  match m with RequestMessage _ _ _ _ => true | _ => false end.

Definition postMessage (c : Client) (s : State) (message : Message) : Completion :=
  if negb (webView s) then
    if isEvent message then Normal s
    else failPending s (messageId message)
           (WebViewRPCError "WebView ref is null" "WEBVIEW_NULL")
  else
    match serializer (config c) (toObject message) with
    | Serialized serialized => Normal (transportPost s serialized)
    | SerThrows error =>
        let s1 := reportError c s error in
        if isRequest message then failPending s1 (messageId message) error
        else Normal s1
    end.

Definition handleResponse (s : State) (id : string) (data : JSValue)
    (error : option ErrorInfo.t) : State :=
  match JsMap.get String.eqb id (pendingRequests s) with
  | None => s
  | Some pending =>
      let s1 := clearTimeout s (timeoutId pending) in
      let s2 := withPending s1 (JsMap.delete String.eqb id (pendingRequests s1)) in
      match error with
      | Some e =>
          settle s2 (settles pending)
            (Rejected (WebViewRPCError (ErrorInfo.message e) (ErrorInfo.code e)))
      | None => settle s2 (settles pending) (Resolved data)
      end
  end.

Definition dropsResponse (s : State) (id : string) : Prop :=
  forall data error, handleResponse s id data error = s.

Definition callListener (c : Client) (data : JSValue) (s : State) (handler : Handler)
  : State :=
  let s1 := recordCall s handler data in
  match behaviour c handler data with
  | Throws error => reportError c s1 error
  | _ => s1
  end.

Definition handleEvent (c : Client) (s : State) (event : string) (data : JSValue)
  : State :=
  match JsMap.get String.eqb event (nativeHandlers s) with
  | None => s
  | Some r => fold_left (callListener c data) (deref s r) s
  end.

Definition thrownBy (c : Client) (data : JSValue) (hs : list Handler)
  : list JSError.t :=
  flat_map (fun h => match behaviour c h data with
                     | Throws error => [error]
                     | _ => []
                     end) hs.

Record Task : Type :=
  { requestId : string;
    outcome : Outcome }.

Definition noHandlerMessage (procedure : string) : string :=
  ("No handler registered for procedure: " ++ procedure)%string.

(** The end of an [async] function: a throw rejects its promise. *)
Definition finish (k : Completion) : State :=
  match k with
  | Normal s => s
  | Abrupt s thrown => recordUnhandled s thrown
  end.

(** [handleRequest] up to [await handler(message.data)]; [now] is the
    value of [Date.now()].  The handler that runs is
    [Array.from(handlers)[0]]. *)
Definition handleRequest (c : Client) (s : State) (now : Z) (id procedure : string)
    (data : JSValue) : State * option Task :=
  match registered s procedure with
  | [] =>
      (finish (postMessage c s
                 (ResponseMessage id JUndefined
                    (Some (ErrorInfo.make (noHandlerMessage procedure) "NO_HANDLER"))
                    (Some now))),
       None)
  | handler :: _ =>
      (recordCall s handler data,
       Some {| requestId := id; outcome := behaviour c handler data |})
  end.

(** The [catch] block of [handleRequest]. *)
Definition respondError (c : Client) (s : State) (now : Z) (id : string)
    (error : JSError.t) : State :=
  match postMessage c s
          (ResponseMessage id JUndefined
             (Some (ErrorInfo.make (JSError.message error) "HANDLER_ERROR"))
             (Some now)) with
  | Normal s1 => reportError c s1 error
  | Abrupt s1 thrown => recordUnhandled s1 thrown
  end.

(** [handleRequest] from the [await] on; [now] is the value of
    [Date.now()] then. *)
Definition resume (c : Client) (s : State) (now : Z) (task : Task) : State :=
  match outcome task with
  | Returns result =>
      match postMessage c s (ResponseMessage (requestId task) result None (Some now)) with
      | Normal s1 => s1
      | Abrupt s1 thrown => respondError c s1 now (requestId task) thrown
      end
  | Throws error => respondError c s now (requestId task) error
  | NeverSettles => s
  end.

Definition handleMessage (c : Client) (s : State) (now : Z) (raw : string)
  : State * option Task :=
  match deserializer (config c) raw with
  | DeserThrows error => (reportError c s error, None)
  | Deserialized v =>
      match asMessage v with
      | NullOrUndefined =>
          (reportError c s
             (TypeError "Cannot read properties of null (reading 'type')"), None)
      | NoMessage => (s, None)
      | IsMessage (ResponseMessage id data error _) =>
          (handleResponse s id data error, None)
      | IsMessage (RequestMessage id procedure data _) =>
          handleRequest c s now id procedure data
      | IsMessage (EventMessage _ event data _) =>
          (handleEvent c s event data, None)
      end
  end.

(** A message handled with its handler settling before anything else
    happens. *)
Definition deliver (c : Client) (s : State) (now : Z) (raw : string) : State :=
  match handleMessage c s now raw with
  | (s', Some task) => resume c s' now task
  | (s', None) => s'
  end.

Definition timeoutMessage (ms : Z) : string :=
  ("Request timed out after " ++ Json.showZ ms ++ "ms")%string.

(** [callWeb(procedure, data)], with [id] the result of
    [generateCorrelationId()] and [now] that of [Date.now()].  A throw
    inside the executor of the promise rejects the promise. *)
Definition callWeb (c : Client) (s : State) (now : Z) (id procedure : string)
    (data : JSValue) : State * nat :=
  let h := next s in
  let s0 := withNext s (S h) in
  let s1 := withTimers s0
              (JsMap.set Nat.eqb h {| expires := id; rejects := h |} (timers s0)) in
  let s2 := withPending s1
              (JsMap.set String.eqb id {| settles := h; timeoutId := h |}
                 (pendingRequests s1)) in
  match postMessage c s2 (RequestMessage id procedure data (Some now)) with
  | Normal s3 => (s3, h)
  | Abrupt s3 thrown => (settle s3 h (Rejected thrown), h)
  end.

Definition fireTimeout (c : Client) (s : State) (t : nat) : State :=
  match JsMap.get Nat.eqb t (timers s) with
  | None => s
  | Some timer =>
      let s1 := clearTimeout s t in
      let s2 := withPending s1
                  (JsMap.delete String.eqb (expires timer) (pendingRequests s1)) in
      settle s2 (rejects timer)
        (Rejected (WebViewRPCTimeoutError (timeoutMessage (timeout (config c)))
                     (timeout (config c))))
  end.

(** [emitWeb] and [emitNative] have the same body. *)
Definition emitWeb (c : Client) (s : State) (now : Z) (id event : string)
    (data : JSValue) : Completion :=
  postMessage c s (EventMessage id event data (Some now)).

Definition emitNative (c : Client) (s : State) (now : Z) (id event : string)
    (data : JSValue) : Completion :=
  postMessage c s (EventMessage id event data (Some now)).

(** The function a registration returns. *)
Record Unregister : Type :=
  { handlers : nat;
    handler : Handler;
    nameStr : string }.

(** [registerWebHandler] and [registerNativeHandler] have the same
    body. *)
Definition registerNativeHandler (s : State) (name : string) (fn : Handler)
  : State * Unregister :=
  let (s1, r) :=
    match JsMap.get String.eqb name (nativeHandlers s) with
    | Some r => (s, r)
    | None =>
        let r := next s in
        (withHandlers
           (withSets (withNext s (S r)) (JsMap.set Nat.eqb r [] (sets s)))
           (JsMap.set String.eqb name r (nativeHandlers s)), r)
    end in
  (withSets s1 (JsMap.set Nat.eqb r (JsSet.add Nat.eqb fn (deref s1 r)) (sets s1)),
   {| handlers := r; handler := fn; nameStr := name |}).

Definition registerWebHandler (s : State) (name : string) (fn : Handler)
  : State * Unregister :=
  registerNativeHandler s name fn.

Definition unregister (s : State) (u : Unregister) : State :=
  let s1 := withSets s (JsMap.set Nat.eqb (handlers u)
                          (JsSet.delete Nat.eqb (handler u) (deref s (handlers u)))
                          (sets s)) in
  match deref s1 (handlers u) with
  | [] => withHandlers s1 (JsMap.delete String.eqb (nameStr u) (nativeHandlers s1))
  | _ :: _ => s1
  end.

(** The body of [for (const [, pending] of pendingRequests)]. *)
Definition cancel (s : State) (entry : string * PendingRequest) : State :=
  settle (clearTimeout s (timeoutId (snd entry))) (settles (snd entry))
    (Rejected (Error "Client cleanup called")).

Definition cleanup (s : State) : State :=
  let s1 := fold_left cancel (pendingRequests s) s in
  let s2 := withPending s1 [] in
  withHandlers s2 [].

(** *** Executions *)

Inductive Action : Type :=
| CallWeb (now : Z) (id procedure : string) (data : JSValue)
| EmitWeb (now : Z) (id event : string) (data : JSValue)
| EmitNative (now : Z) (id event : string) (data : JSValue)
| RegisterWebHandler (name : string) (fn : Handler)
| RegisterNativeHandler (name : string) (fn : Handler)
| Unregistered (u : Unregister)
| HandleMessage (now : Z) (raw : string)
| Resumed (now : Z) (task : Task)
| TimedOut (t : nat)
| CleanedUp
| WebViewRef (attached : bool).

(** An exception that leaves an [emit] reaches the application; the state
    is the one it was thrown in. *)
Definition afterwards (k : Completion) : State :=
  match k with
  | Normal s => s
  | Abrupt s _ => s
  end.

Definition step (c : Client) (s : State) (a : Action) : State :=
  match a with
  | CallWeb now id procedure data => fst (callWeb c s now id procedure data)
  | EmitWeb now id event data => afterwards (emitWeb c s now id event data)
  | EmitNative now id event data => afterwards (emitNative c s now id event data)
  | RegisterWebHandler name fn => fst (registerWebHandler s name fn)
  | RegisterNativeHandler name fn => fst (registerNativeHandler s name fn)
  | Unregistered u => unregister s u
  | HandleMessage now raw => fst (handleMessage c s now raw)
  | Resumed now task => resume c s now task
  | TimedOut t => fireTimeout c s t
  | CleanedUp => cleanup s
  | WebViewRef attached => withWebView s attached
  end.

Definition run (c : Client) (s : State) (actions : list Action) : State :=
  fold_left (step c) actions s.

Definition Invariant (s : State) : Prop :=
  TimersOk (timers s) (settled s) (next s) /\
  EntriesOk (pendingRequests s) (timers s) /\
  SetsOk (sets s).

(** [raw] decodes to a value that announces a response or a request and
    bears the id [id], well-formed or not. *)
Definition carriesId (c : Client) (id : string) (raw : string) : bool :=
  match deserializer (config c) raw with
  | Deserialized v =>
      match Json.getProp "type" v, Json.getProp "id" v with
      | JStr ty, JStr id' =>
          (String.eqb ty "response" || String.eqb ty "request") && String.eqb id' id
      | _, _ => false
      end
  | DeserThrows _ => false
  end.

(** The actions under which the call with id [id] and timer [h] stays
    unanswered.  Besides a response for [id], the answer to a request of
    the peer that bears the same id is excluded: without a WebView,
    [postMessage] fails the pending entry of that id. *)
Definition leavesPending (c : Client) (id : string) (h : nat) (a : Action) : bool :=
  match a with
  | HandleMessage _ raw => negb (carriesId c id raw)
  | Resumed _ task => negb (String.eqb (requestId task) id)
  | TimedOut t => negb (t =? h)%nat
  | CleanedUp => false
  | _ => true
  end.

End Native.

(* ================================================================== *)
(** ** packages/core: message.ts *)

Module CorrelationId.

(** The values of [Math.random()] are rational numbers.  [ToInt32], which
    [| 0] applies: truncation towards zero, then reduction modulo 2^32
    into the signed range. *)
Definition truncate (x : QArith_base.Q) : Z :=
  if QArith_base.Qle_bool (QArith_base.inject_Z 0) x
  then Qround.Qfloor x
  else Qround.Qceiling x.

Definition toInt32 (x : QArith_base.Q) : Z :=
  ((truncate x + 2 ^ 31) mod 2 ^ 32 - 2 ^ 31)%Z.

(** [Number.prototype.toString(16)] on the integers. *)
Definition toString16 (v : Z) : string :=
  HexadecimalString.NilEmpty.string_of_int (Z.to_hex_int v).

(** [(Math.random() * 16) | 0] *)
Definition nibble (random : QArith_base.Q) : Z :=
  toInt32 (QArith_base.Qmult random (QArith_base.inject_Z 16)).

(** The callback given to [replace]; [random] is the value of
    [Math.random()]. *)
Definition replacement (random : QArith_base.Q) (c : ascii) : string :=
  let r := nibble random in
  let v := if (c =? "x")%char then r else Z.lor (Z.land r 3) 8 in
  toString16 v.

(** [template.replace(/[xy]/g, callback)]; [calls] counts the calls of
    [Math.random()] made so far, [random k] is the value of call [k]. *)
Fixpoint replaceXY (template : string) (random : nat -> QArith_base.Q) (calls : nat)
  : string :=
  match template with
  | EmptyString => EmptyString
  | String c rest =>
      if ((c =? "x") || (c =? "y"))%char
      then replacement (random calls) c ++ replaceXY rest random (S calls)
      else String c (replaceXY rest random calls)
  end.

Definition template : string := "xxxxxxxx-xxxx-4xxx-yxxx-xxxxxxxxxxxx".

Definition generateCorrelationId (random : nat -> QArith_base.Q) : string :=
  replaceXY template random 0.

(** The pattern [/^[0-9a-f]{8}-[0-9a-f]{4}-4[0-9a-f]{3}-[89ab][0-9a-f]{3}-[0-9a-f]{12}$/]
    read off the template: [x] stands for a hexadecimal digit, [y] for one
    of [8], [9], [a], [b], any other character for itself. *)
Definition isHexDigit (c : ascii) : bool :=
  existsb (Ascii.eqb c)
    ["0"; "1"; "2"; "3"; "4"; "5"; "6"; "7"; "8"; "9"; "a"; "b"; "c"; "d"; "e"; "f"]%char.

Definition isVariant (c : ascii) : bool :=
  existsb (Ascii.eqb c) ["8"; "9"; "a"; "b"]%char.

Fixpoint matchesTemplate (pattern id : string) : bool :=
  match pattern, id with
  | EmptyString, EmptyString => true
  | String p ps, String c cs =>
      (if (p =? "x")%char then isHexDigit c
       else if (p =? "y")%char then isVariant c
       else (c =? p)%char)
      && matchesTemplate ps cs
  | _, _ => false
  end.

(** The characters of the template that are replaced. *)
Fixpoint marks (template : string) : list ascii :=
  match template with
  | EmptyString => []
  | String c rest =>
      if ((c =? "x") || (c =? "y"))%char then c :: marks rest else marks rest
  end.

(** The values [Math.random()] returns: from 0 (included) to 1
    (excluded). *)
Definition inUnitInterval (x : QArith_base.Q) : Prop :=
  QArith_base.Qle (QArith_base.inject_Z 0) x /\
  QArith_base.Qlt x (QArith_base.inject_Z 1).

End CorrelationId.

(* ================================================================== *)
(** ** packages/core: procedure.ts and [isProcedure] of types.ts *)

Module Schema.

(** What a property of a schema object holds: plain data, a reference to
    another object, a function (known by its identity), or the closure
    [returns] that [procedure(schema)] creates, which keeps [schema]. *)
Inductive Value : Type :=
| Plain (v : JSValue)
| Object (r : nat)
| Function (f : nat)
| Returns (schema : nat).

(** The objects, by reference; an object that was never written to has no
    own property. *)
Definition Heap : Type := list (nat * list (string * Value)).

Definition properties (h : Heap) (o : nat) : list (string * Value) :=
  match JsMap.get Nat.eqb o h with
  | Some ps => ps
  | None => []
  end.

(** [o[k]] *)
Definition getProperty (h : Heap) (o : nat) (k : string) : option Value :=
  JsMap.get String.eqb k (properties h o).

(** [o[k] = v] *)
Definition setProperty (h : Heap) (o : nat) (k : string) (v : Value) : Heap :=
  JsMap.set Nat.eqb o (JsMap.set String.eqb k v (properties h o)) h.

(** [procedure(inputSchema)]: the object that is returned is
    [inputSchema] itself. *)
Definition procedure (h : Heap) (inputSchema : nat) : Heap * nat :=
  (setProperty h inputSchema "returns" (Returns inputSchema), inputSchema).

(** The body of the closure [schema.returns]. *)
Definition returns (h : Heap) (schema returnSchema : nat) : Heap * nat :=
  (setProperty h schema "_returnSchema" (Object returnSchema), schema).

(** The method call [o.returns(returnSchema)]; [None] when [o.returns] is
    not the closure of [procedure] (the call then throws, or runs a
    function the model does not know). *)
Definition callReturns (h : Heap) (o returnSchema : nat) : option (Heap * nat) :=
  match getProperty h o "returns" with
  | Some (Returns schema) => Some (returns h schema returnSchema)
  | _ => None
  end.

(** [isProcedure(schema)]:
    ['returns' in schema && typeof schema.returns === 'function'] *)
Definition isProcedure (h : Heap) (schema : nat) : bool :=
  match getProperty h schema "returns" with
  | Some (Function _) | Some (Returns _) => true
  | _ => false
  end.

End Schema.

(* ================================================================== *)
(** ** What the default transport preserves *)

Module Lossy.

(** What [JSON.stringify] makes of a value: a member that is [undefined]
    is left out, [undefined] inside an array becomes [null], and so does
    a non-finite number wherever it stands. *)
Fixpoint normalize (v : JSValue) : JSValue :=
  match v with
  | JUndefined | JNaN => JNull
  | JArr xs => JArr (map normalize xs)
  | JObj ms =>
      JObj (flat_map (fun kv => match kv with
                                | (k, x) =>
                                    match x with
                                    | JUndefined => []
                                    | _ => [(k, normalize x)]
                                    end
                                end) ms)
  | _ => v
  end.

(** The members [JSON.stringify] keeps of an object, normalized. *)
Definition keep (kv : string * JSValue) : list (string * JSValue) :=
  match kv with
  | (k, x) =>
      match x with
      | JUndefined => []
      | _ => [(k, normalize x)]
      end
  end.

(** The values of the model that are JavaScript values JSON can print
    faithfully up to [normalize]: integers in the safe range, objects with
    pairwise distinct keys. *)
Fixpoint printable (v : JSValue) : bool :=
  match v with
  | JNum n => (Z.abs n <=? Json.maxSafeInteger)%Z
  | JArr xs => forallb printable xs
  | JObj ms =>
      Json.uniqueKeys (map fst ms) && forallb (fun kv => printable (snd kv)) ms
  | _ => true
  end.

(** The payload of a message after the default transport: an absent
    payload stays absent. *)
Definition sent (v : JSValue) : JSValue :=
  match v with
  | JUndefined => JUndefined
  | _ => normalize v
  end.

Definition transported (m : Core.Message) : Core.Message :=
  match m with
  | Core.RequestMessage id procedure data ts =>
      Core.RequestMessage id procedure (sent data) ts
  | Core.ResponseMessage id data error ts =>
      Core.ResponseMessage id (sent data) error ts
  | Core.EventMessage id event data ts =>
      Core.EventMessage id event (sent data) ts
  end.

Definition printableMessage (m : Core.Message) : bool :=
  printable (Core.messageData m)
  && match Core.messageTimestamp m with
     | Some ts => (Z.abs ts <=? Json.maxSafeInteger)%Z
     | None => true
     end.

End Lossy.

(* ================================================================== *)
(** ** Steps of the native client *)

Module NativeSteps.
Import Core Correlation Native.

(** From [s] to [s'] no promise was created or resolved and no entry was
    added to [pendingRequests]. *)
Definition quiet (s s' : State) : Prop :=
  next s' = next s /\
  (forall id p, In (id, p) (pendingRequests s') -> In (id, p) (pendingRequests s)) /\
  exists added,
    settled s' = settled s ++ added /\
    forall h v, ~ In (h, Resolved v) added.

End NativeSteps.

Module NativeGuards.
Import Core Correlation Native.

(** From [s] to [s'] every armed timer stays armed or the promise of its
    handle is settled, and what was settled stays settled. *)
Definition guarded (s s' : State) : Prop :=
  (forall h timer, In (h, timer) (timers s) ->
     In (h, timer) (timers s') \/ In h (map fst (settled s'))) /\
  (forall x, In x (settled s) -> In x (settled s')).

End NativeGuards.

(* ================================================================== *)
(** ** Sample clients *)

Module Sample.
Import Core.

(** Handler 1 throws [Error("boom")]; every other handler returns its
    argument. *)
Definition behaviour (h : Handler) (data : JSValue) : Outcome :=
  if (h =? 1)%nat then Throws (Error "boom") else Returns data.

(** The text of a message under the default serializer. *)
Definition encode (m : Message) : string :=
  match defaultSerializer (toObject m) with
  | Serialized (Some raw) => raw
  | _ => EmptyString
  end.

Definition reporting : Web.Config :=
  {| Web.serializer := defaultSerializer;
     Web.deserializer := defaultDeserializer;
     Web.timeout := 100;
     Web.onError := true |}.

(** A web client inside a WebView. *)
Definition web : Web.Client :=
  {| Web.config := reporting; Web.windowDefined := true; Web.isWebView := true;
     Web.behaviour := behaviour |}.

(** A web client whose serializer throws. *)
Definition webBadSerializer : Web.Client :=
  {| Web.config :=
       {| Web.serializer := fun _ => SerThrows (Error "Serialization failed");
          Web.deserializer := defaultDeserializer;
          Web.timeout := 5000;
          Web.onError := true |};
     Web.windowDefined := true; Web.isWebView := true;
     Web.behaviour := behaviour |}.

Definition native : Native.Client :=
  {| Native.config :=
       {| Native.serializer := defaultSerializer;
          Native.deserializer := defaultDeserializer;
          Native.timeout := 100;
          Native.onError := true |};
     Native.behaviour := behaviour |}.

Definition nativeBadSerializer : Native.Client :=
  {| Native.config :=
       {| Native.serializer := fun _ => SerThrows (Error "Serialization error");
          Native.deserializer := defaultDeserializer;
          Native.timeout := 5000;
          Native.onError := true |};
     Native.behaviour := behaviour |}.

End Sample.

(* ================================================================== *)
(** * Properties *)

(** ** Containers *)

Module JsMapFacts.
Section Laws.
Context {K V : Type}.
Variable eqb : K -> K -> bool.
Hypothesis eqb_spec : forall a b, eqb a b = true <-> a = b.

Lemma key_eqb_refl k : eqb k k = true.
Proof. now apply eqb_spec. Qed.

Lemma key_eqb_neq a b : a <> b -> eqb a b = false.
Proof.
  intros N. destruct (eqb a b) eqn:E; [ | reflexivity ].
  now apply eqb_spec in E.
Qed.

Lemma key_eqb_sym a b : eqb a b = eqb b a.
Proof.
  destruct (eqb b a) eqn:E.
  - apply eqb_spec in E. subst. apply key_eqb_refl.
  - apply key_eqb_neq. intros ->. now rewrite key_eqb_refl in E.
Qed.

Lemma get_set_eq k (v : V) m : JsMap.get eqb k (JsMap.set eqb k v m) = Some v.
Proof.
  induction m as [ | [k' v'] m IH ]; simpl.
  - now rewrite key_eqb_refl.
  - destruct (eqb k k') eqn:E; simpl; rewrite ?key_eqb_refl, ?E; auto.
Qed.

Lemma get_set_neq k k' (v : V) m :
  k <> k' -> JsMap.get eqb k' (JsMap.set eqb k v m) = JsMap.get eqb k' m.
Proof.
  intros N. induction m as [ | [k0 v0] m IH ]; simpl.
  - rewrite key_eqb_neq; auto.
  - destruct (eqb k k0) eqn:E; simpl.
    + apply eqb_spec in E. subst k0. rewrite (key_eqb_neq k' k); auto.
    + destruct (eqb k' k0); auto.
Qed.

Lemma get_delete_eq k (m : list (K * V)) :
  JsMap.get eqb k (JsMap.delete eqb k m) = None.
Proof.
  induction m as [ | [k' v'] m IH ]; simpl; [ reflexivity | ].
  destruct (eqb k k') eqn:E; simpl; rewrite ?E; auto.
Qed.

Lemma get_delete_neq k k' (m : list (K * V)) :
  k <> k' -> JsMap.get eqb k' (JsMap.delete eqb k m) = JsMap.get eqb k' m.
Proof.
  intros N. induction m as [ | [k0 v0] m IH ]; simpl; [ reflexivity | ].
  destruct (eqb k k0) eqn:E; simpl.
  - apply eqb_spec in E. subst k0. rewrite (key_eqb_neq k' k); auto.
  - destruct (eqb k' k0); auto.
Qed.

Lemma delete_absent k (m : list (K * V)) :
  JsMap.get eqb k m = None -> JsMap.delete eqb k m = m.
Proof.
  induction m as [ | [k' v'] m IH ]; simpl; [ reflexivity | ].
  destruct (eqb k k'); [ discriminate | ]. intros H. now rewrite IH.
Qed.

Lemma get_in k (v : V) m : JsMap.get eqb k m = Some v -> In (k, v) m.
Proof.
  induction m as [ | [k' v'] m IH ]; simpl; [ discriminate | ].
  destruct (eqb k k') eqn:E.
  - intros [= ->]. apply eqb_spec in E. subst. now left.
  - intros H. right. auto.
Qed.

Lemma In_delete k k' (v : V) m :
  In (k', v) (JsMap.delete eqb k m) <-> In (k', v) m /\ k' <> k.
Proof.
  induction m as [ | [k0 v0] m IH ]; simpl; [ tauto | ].
  destruct (eqb k k0) eqn:E.
  - apply eqb_spec in E. subst k0. rewrite IH.
    split; [ tauto | ]. intros [[H | H] N]; [ | tauto ].
    injection H as -> ->. congruence.
  - simpl. rewrite IH.
    assert (Nk : k <> k0) by (intros ->; rewrite key_eqb_refl in E; discriminate).
    split; [ | tauto ].
    intros [H | H]; [ | tauto ]. injection H as -> ->. split; auto.
Qed.

Lemma keys_delete k k' (m : list (K * V)) :
  In k' (map fst (JsMap.delete eqb k m)) -> In k' (map fst m).
Proof.
  induction m as [ | [k0 v0] m IH ]; simpl; [ tauto | ].
  destruct (eqb k k0); simpl; tauto.
Qed.

Lemma NoDup_delete k (m : list (K * V)) :
  NoDup (map fst m) -> NoDup (map fst (JsMap.delete eqb k m)).
Proof.
  induction m as [ | [k0 v0] m IH ]; simpl; intros N; [ exact N | ].
  inversion N as [ | ? ? Hn Hm ]; subst.
  destruct (eqb k k0); simpl; auto.
  constructor; auto. intros H. apply Hn. eapply keys_delete; eauto.
Qed.

Lemma delete_notin k (m : list (K * V)) :
  ~ In k (map fst m) -> JsMap.delete eqb k m = m.
Proof.
  induction m as [ | [k0 v0] m IH ]; simpl; intros N; [ reflexivity | ].
  rewrite key_eqb_neq by (intros ->; tauto). rewrite IH; tauto.
Qed.

Lemma keys_set k k' (v : V) m :
  In k' (map fst (JsMap.set eqb k v m)) <-> In k' (map fst m) \/ k' = k.
Proof.
  induction m as [ | [k0 v0] m IH ]; simpl.
  - intuition congruence.
  - destruct (eqb k k0) eqn:E; simpl.
    + apply eqb_spec in E. subst k0. intuition congruence.
    + rewrite IH. tauto.
Qed.

Lemma NoDup_set k (v : V) m :
  NoDup (map fst m) -> NoDup (map fst (JsMap.set eqb k v m)).
Proof.
  induction m as [ | [k0 v0] m IH ]; simpl; intros N.
  - repeat constructor. simpl. tauto.
  - inversion N as [ | ? ? Hn Hm ]; subst.
    destruct (eqb k k0) eqn:E; simpl.
    + apply eqb_spec in E. subst k0. constructor; auto.
    + constructor; auto. rewrite keys_set. intros [H | ->]; [ tauto | ].
      rewrite key_eqb_refl in E. discriminate.
Qed.

Lemma In_set k k' (v v' : V) m :
  NoDup (map fst m) ->
  In (k', v') (JsMap.set eqb k v m) ->
  (k' = k /\ v' = v) \/ (k' <> k /\ In (k', v') m).
Proof.
  induction m as [ | [k0 v0] m IH ]; simpl; intros N H.
  - destruct H as [H | []]. injection H as -> ->. auto.
  - inversion N as [ | ? ? Hn Hm ]; subst.
    destruct (eqb k k0) eqn:E; simpl in H.
    + apply eqb_spec in E. subst k0.
      destruct H as [H | H]; [ injection H as -> ->; auto | ].
      right. split; [ | auto ].
      intros ->. apply Hn. change k with (fst (k, v')). now apply in_map.
    + destruct H as [H | H].
      * injection H as -> ->. right. split; [ | auto ].
        intros ->. rewrite key_eqb_refl in E. discriminate.
      * destruct (IH Hm H) as [ ? | [? ?] ]; auto.
Qed.

Lemma In_set_same k (v : V) m : In (k, v) (JsMap.set eqb k v m).
Proof.
  induction m as [ | [k0 v0] m IH ]; simpl; [ auto | ].
  destruct (eqb k k0); simpl; auto.
Qed.

Lemma In_set_other k k' (v v' : V) m :
  k' <> k -> In (k', v') m -> In (k', v') (JsMap.set eqb k v m).
Proof.
  intros N. induction m as [ | [k0 v0] m IH ]; simpl; [ tauto | ].
  intros [H | H].
  - injection H as -> ->. rewrite key_eqb_neq by congruence. now left.
  - destruct (eqb k k0); simpl; auto.
Qed.

Lemma In_get k (v : V) (m : list (K * V)) :
  NoDup (map fst m) -> In (k, v) m -> JsMap.get eqb k m = Some v.
Proof.
  induction m as [ | [k0 v0] m IH ]; simpl; intros N H; [ tauto | ].
  inversion N as [ | ? ? Hn Hm ]; subst.
  destruct H as [H | H].
  - injection H as -> ->. now rewrite key_eqb_refl.
  - rewrite key_eqb_neq; auto.
    intros ->. apply Hn. change k0 with (fst (k0, v)). now apply in_map.
Qed.

Lemma In_functional k (v v' : V) (m : list (K * V)) :
  NoDup (map fst m) -> In (k, v) m -> In (k, v') m -> v = v'.
Proof.
  intros N H H'. apply (In_get _ _ _ N) in H. apply (In_get _ _ _ N) in H'.
  congruence.
Qed.
End Laws.
End JsMapFacts.

Module JsSetFacts.
Section Laws.
Context {T : Type}.
Variable eqb : T -> T -> bool.
Hypothesis eqb_spec : forall a b, eqb a b = true <-> a = b.

Lemma mem_In x (s : list T) : JsSet.mem eqb x s = true <-> In x s.
Proof.
  induction s as [ | y s IH ]; simpl.
  - split; [ discriminate | tauto ].
  - destruct (eqb x y) eqn:E.
    + apply eqb_spec in E. subst. tauto.
    + rewrite IH. split; [ tauto | ].
      intros [ <- | H ]; [ | exact H ].
      assert (eqb y y = true) by now apply eqb_spec. congruence.
Qed.

Lemma add_NoDup x (s : list T) : NoDup s -> NoDup (JsSet.add eqb x s).
Proof.
  intros N. unfold JsSet.add. destruct (JsSet.mem eqb x s) eqn:E; [ exact N | ].
  apply NoDup_app; [ exact N | repeat constructor; simpl; tauto | ].
  intros y Hy [ <- | [] ]. apply mem_In in Hy. congruence.
Qed.

Lemma member_delete x y (s : list T) :
  In y (JsSet.delete eqb x s) <-> In y s /\ y <> x.
Proof.
  induction s as [ | z s IH ]; simpl; [ tauto | ].
  destruct (eqb x z) eqn:E.
  - apply eqb_spec in E. subst z. rewrite IH. intuition congruence.
  - simpl. rewrite IH.
    assert (x <> z) by (intros ->; assert (eqb z z = true) by (now apply eqb_spec);
                        congruence).
    intuition congruence.
Qed.

Lemma member_add x y (s : list T) : In y (JsSet.add eqb x s) <-> In y s \/ y = x.
Proof.
  unfold JsSet.add. destruct (JsSet.mem eqb x s) eqn:E.
  - apply mem_In in E. intuition congruence.
  - rewrite in_app_iff. simpl. intuition congruence.
Qed.

Lemma delete_NoDup x (s : list T) : NoDup s -> NoDup (JsSet.delete eqb x s).
Proof.
  induction s as [ | y s IH ]; simpl; intros N; [ exact N | ].
  inversion N as [ | ? ? Hn Hs ]; subst.
  destruct (eqb x y); auto.
  constructor; auto. rewrite member_delete. tauto.
Qed.
End Laws.
End JsSetFacts.

(** ** The JSON built-in *)

Module JsonFacts.
Import Json.
#[local] Open Scope string_scope.

Lemma JSValue_ind (P : JSValue -> Prop)
  (HUndef : P JUndefined) (HNull : P JNull)
  (HBool : forall b, P (JBool b)) (HNum : forall n, P (JNum n))
  (HNaN : P JNaN) (HStr : forall s, P (JStr s))
  (HArr : forall xs, Forall P xs -> P (JArr xs))
  (HObj : forall ms, Forall (fun kv => P (snd kv)) ms -> P (JObj ms)) :
  forall v, P v.
Proof.
  fix IH 1. intros [ | | b | n | | s | xs | ms ].
  - exact HUndef.
  - exact HNull.
  - apply HBool.
  - apply HNum.
  - exact HNaN.
  - apply HStr.
  - apply HArr. induction xs as [ | x xs IHxs ]; constructor.
    + apply IH.
    + exact IHxs.
  - apply HObj. induction ms as [ | [k x] ms IHms ]; constructor.
    + apply IH.
    + exact IHms.
Qed.

Lemma length_append (a b : string) :
  String.length (a ++ b) = String.length a + String.length b.
Proof. induction a; simpl; auto. Qed.

Lemma append_assoc (a b c : string) : (a ++ b) ++ c = a ++ (b ++ c).
Proof. induction a; simpl; congruence. Qed.

Lemma skipWs_head c s : isWs c = false -> skipWs (String c s) = String c s.
Proof. intros H. simpl. now rewrite H. Qed.

(** **** Strings *)

Lemma parseChars_escapeChar c tail :
  parseChars (escapeChar c ++ tail) = consChar c (parseChars tail).
Proof.
  destruct c as [[] [] [] [] [] [] [] []]; reflexivity.
Qed.

Lemma parseChars_escape s rest :
  parseChars (escape s ++ String dquote rest) = Some (s, rest).
Proof.
  induction s as [ | c s IH ]; simpl.
  - reflexivity.
  - now rewrite append_assoc, parseChars_escapeChar, IH.
Qed.

(** **** Numbers *)

Lemma delimited_cases rest :
  delimited rest = true ->
  rest = "" \/ exists r, rest = String "," r \/ rest = String "]" r \/ rest = String "}" r.
Proof.
  destruct rest as [ | c r ]; [ now left | ].
  simpl. intros H. right. exists r.
  destruct (Ascii.eqb_spec c ","); [ subst; auto | ].
  destruct (Ascii.eqb_spec c "]"); [ subst; auto | ].
  destruct (Ascii.eqb_spec c "}"); [ subst; auto | discriminate ].
Qed.

Ltac by_delimiter H :=
  destruct (delimited_cases _ H) as [ -> | [? [ -> | [ -> | -> ] ] ] ].

Lemma parseDigits_uint d rest :
  delimited rest = true ->
  parseDigits (NilEmpty.string_of_uint d ++ rest) = (d, rest).
Proof.
  intros H. induction d; simpl; rewrite ?IHd; try reflexivity.
  by_delimiter H; reflexivity.
Qed.

Lemma noLeadingZero_unorm d : noLeadingZero (unorm d) = true.
Proof.
  unfold unorm. destruct (nzhead d) eqn:E; try reflexivity.
  exfalso. exact (nzhead_nonzero _ _ E).
Qed.

Lemma noLeadingZero_to_uint p : noLeadingZero (Pos.to_uint p) = true.
Proof.
  assert (E : Z.to_int (Z.pos p) = norm (Z.to_int (Z.pos p))).
  { rewrite <- DecimalZ.to_of, DecimalZ.of_to. reflexivity. }
  simpl in E. injection E as E. rewrite E. apply noLeadingZero_unorm.
Qed.

Lemma continuesNumber_delimited rest :
  delimited rest = true -> continuesNumber rest = false.
Proof. intros H. by_delimiter H; reflexivity. Qed.

Lemma parseNumber_uint d rest :
  noLeadingZero d = true -> delimited rest = true ->
  parseNumber (NilEmpty.string_of_uint d ++ rest) = Some (JNum (Z.of_int (Pos d)), rest).
Proof.
  intros Hd Hr. pose proof (parseDigits_uint d rest Hr) as E.
  pose proof (continuesNumber_delimited rest Hr) as C.
  unfold parseNumber.
  destruct d; try discriminate;
    simpl NilEmpty.string_of_uint in *; simpl append in *; cbv iota beta;
    (match goal with
     | |- context [ Ascii.eqb ?c "-" ] =>
         change (Ascii.eqb c "-") with false; cbv iota
     end);
    rewrite E, Hd, C; reflexivity.
Qed.

Lemma parseNumber_neg d rest :
  noLeadingZero d = true -> delimited rest = true ->
  parseNumber (String "-" (NilEmpty.string_of_uint d ++ rest))
  = Some (JNum (Z.of_int (Neg d)), rest).
Proof.
  intros Hd Hr. unfold parseNumber.
  change (Ascii.eqb "-" "-") with true. cbv iota.
  rewrite (parseDigits_uint d rest Hr), Hd, (continuesNumber_delimited rest Hr).
  reflexivity.
Qed.

Lemma parseNumber_showZ n rest :
  delimited rest = true ->
  parseNumber (showZ n ++ rest) = Some (JNum n, rest).
Proof.
  intros Hr. unfold showZ.
  rewrite <- (DecimalZ.of_to n) at 2.
  destruct n as [ | p | p ]; simpl Z.to_int; simpl NilEmpty.string_of_int.
  - apply (parseNumber_uint (D0 Nil)); auto.
  - apply parseNumber_uint; auto using noLeadingZero_to_uint.
  - apply parseNumber_neg; auto using noLeadingZero_to_uint.
Qed.

Lemma parseValue_numberStart fuel c r :
  match digitOf c with Some _ => true | None => (c =? "-")%char end = true ->
  parseValue (S fuel) (String c r) = parseNumber (String c r).
Proof.
  destruct c as [[] [] [] [] [] [] [] []]; simpl; intros H;
    try discriminate H; reflexivity.
Qed.

Lemma showZ_head n rest :
  exists c r, showZ n ++ rest = String c r /\
    match digitOf c with Some _ => true | None => (c =? "-")%char end = true.
Proof.
  unfold showZ. destruct n as [ | p | p ]; simpl.
  - eauto.
  - pose proof (noLeadingZero_to_uint p) as H.
    destruct (Pos.to_uint p); try discriminate; simpl; eauto.
  - eauto.
Qed.

Lemma parseValue_showZ fuel n rest :
  delimited rest = true ->
  parseValue (S fuel) (showZ n ++ rest) = Some (JNum n, rest).
Proof.
  intros Hr. destruct (showZ_head n rest) as (c & r & E & Hc).
  rewrite <- (parseNumber_showZ n rest Hr), E.
  now apply parseValue_numberStart.
Qed.

(** **** Values *)

Lemma stringify_arr xs :
  stringify (JArr xs) = Some ("[" ++ String.concat "," (map elementText xs) ++ "]").
Proof. reflexivity. Qed.

Lemma stringify_obj ms :
  stringify (JObj ms) = Some ("{" ++ String.concat "," (flat_map memberTexts ms) ++ "}").
Proof. reflexivity. Qed.

Lemma stringify_safe v : jsonSafe v = true -> stringify v = Some (elementText v).
Proof.
  destruct v as [ | | [] | | | | | ]; simpl; intros H; try discriminate; reflexivity.
Qed.

Lemma elementText_head v rest :
  jsonSafe v = true ->
  exists c r, elementText v ++ rest = String c r /\
              isWs c = false /\ (c =? "]")%char = false.
Proof.
  destruct v as [ | | [] | n | | s | xs | ms ]; simpl; intros H;
    try discriminate; try (do 2 eexists; split; [ reflexivity | split; reflexivity ]).
  destruct (showZ_head n rest) as (c & r & E & Hc).
  unfold elementText. simpl. exists c, r. split; [ exact E | ].
  destruct c as [[] [] [] [] [] [] [] []]; try discriminate Hc; split; reflexivity.
Qed.

Lemma parseElements_eq fuel s :
  parseElements (S fuel) s =
  match parseValue fuel s with
  | None => None
  | Some (v, r) =>
      match skipWs r with
      | String c r' =>
          if (c =? ",")%char then
            match parseElements fuel r' with
            | Some (vs, r'') => Some (v :: vs, r'')
            | None => None
            end
          else if (c =? "]")%char then Some ([v], r')
          else None
      | EmptyString => None
      end
  end.
Proof. reflexivity. Qed.

Lemma parseMembers_eq fuel k r :
  parseMembers (S fuel) (quote k ++ r) =
  match skipWs r with
  | String c1 r2 =>
      if (c1 =? ":")%char then
        match parseValue fuel r2 with
        | Some (v, r3) =>
            match skipWs r3 with
            | String c3 r4 =>
                if (c3 =? ",")%char then
                  match parseMembers fuel r4 with
                  | Some (ms, r5) => Some ((k, v) :: ms, r5)
                  | None => None
                  end
                else if (c3 =? "}")%char then Some ([(k, v)], r4)
                else None
            | EmptyString => None
            end
        | None => None
        end
      else None
  | EmptyString => None
  end.
Proof.
  unfold quote. simpl append. rewrite append_assoc. simpl append.
  change (parseMembers (S fuel) (String dquote (escape k ++ String dquote r)))
    with (match parseChars (escape k ++ String dquote r) with
          | Some (k, r1) =>
              match skipWs r1 with
              | String c1 r2 =>
                  if (c1 =? ":")%char then
                    match parseValue fuel r2 with
                    | Some (v, r3) =>
                        match skipWs r3 with
                        | String c3 r4 =>
                            if (c3 =? ",")%char then
                              match parseMembers fuel r4 with
                              | Some (ms, r5) => Some ((k, v) :: ms, r5)
                              | None => None
                              end
                            else if (c3 =? "}")%char then Some ([(k, v)], r4)
                            else None
                        | EmptyString => None
                        end
                    | None => None
                    end
                  else None
              | EmptyString => None
              end
          | None => None
          end).
  now rewrite parseChars_escape.
Qed.

Lemma parseValue_arr fuel r :
  parseValue (S fuel) (String "[" r) =
  match skipWs r with
  | String c' r' =>
      if (c' =? "]")%char then Some (JArr [], r')
      else
        match parseElements fuel r with
        | Some (xs, r'') => Some (JArr xs, r'')
        | None => None
        end
  | EmptyString => None
  end.
Proof. reflexivity. Qed.

Lemma parseValue_obj fuel r :
  parseValue (S fuel) (String "{" r) =
  match skipWs r with
  | String c' r' =>
      if (c' =? "}")%char then Some (JObj [], r')
      else
        match parseMembers fuel r with
        | Some (ms, r'') =>
            Some (JObj (fold_left
                          (fun acc kv => JsMap.set String.eqb (fst kv) (snd kv) acc)
                          ms []), r'')
        | None => None
        end
  | EmptyString => None
  end.
Proof. reflexivity. Qed.

(** The statement proved by induction on the value: its text, followed by
    a delimiter, is read back as the value and leaves what follows. *)
Abbreviation reads v :=
  (jsonSafe v = true ->
   forall fuel rest, need v <= fuel -> delimited rest = true ->
     parseValue fuel (elementText v ++ rest) = Some (v, rest)).

Lemma parseElements_texts xs :
  Forall (fun v => reads v) xs ->
  forallb jsonSafe xs = true -> xs <> [] ->
  forall fuel rest,
    fold_right (fun x acc => S (Nat.max (need x) acc)) 0 xs <= fuel ->
    parseElements fuel (String.concat "," (map elementText xs) ++ String "]" rest)
    = Some (xs, rest).
Proof.
  induction 1 as [ | x xs Hx Hxs IH ]; intros Hs Hne fuel rest Hf; [ congruence | ].
  simpl in Hs. apply andb_prop in Hs as [Sx Sxs].
  simpl in Hf. destruct fuel as [ | f ]; [ lia | ].
  rewrite parseElements_eq.
  destruct xs as [ | y ys ].
  - simpl map. simpl String.concat.
    rewrite (Hx Sx f (String "]" rest)); [ reflexivity | lia | reflexivity ].
  - change (String.concat "," (map elementText (x :: y :: ys)))
      with (elementText x ++ "," ++ String.concat "," (map elementText (y :: ys))).
    rewrite !append_assoc.
    rewrite (Hx Sx f); [ | lia | reflexivity ].
    simpl skipWs. change (Ascii.eqb "," ",") with true. cbv iota.
    rewrite (IH Sxs); [ reflexivity | discriminate | lia ].
Qed.

Lemma flat_map_memberTexts ms :
  forallb (fun kv => jsonSafe (snd kv)) ms = true ->
  flat_map memberTexts ms
  = map (fun kv => quote (fst kv) ++ ":" ++ elementText (snd kv)) ms.
Proof.
  induction ms as [ | [k x] ms IH ]; simpl; [ reflexivity | ].
  intros H. apply andb_prop in H as [Sx Sms].
  rewrite (IH Sms). unfold elementText.
  rewrite (stringify_safe x Sx). unfold elementText.
  destruct (stringify x); reflexivity.
Qed.

Lemma parseMembers_texts ms :
  Forall (fun kv => reads (snd kv)) ms ->
  forallb (fun kv => jsonSafe (snd kv)) ms = true -> ms <> [] ->
  forall fuel rest,
    fold_right (fun kv acc => S (Nat.max (need (snd kv)) acc)) 0 ms <= fuel ->
    parseMembers fuel
      (String.concat ","
         (map (fun kv => quote (fst kv) ++ ":" ++ elementText (snd kv)) ms)
       ++ String "}" rest)
    = Some (ms, rest).
Proof.
  induction 1 as [ | [k x] ms Hx Hms IH ]; intros Hs Hne fuel rest Hf; [ congruence | ].
  simpl in Hs, Hx. apply andb_prop in Hs as [Sx Sms].
  simpl in Hf. destruct fuel as [ | f ]; [ lia | ].
  destruct ms as [ | [k' y] ms' ].
  - cbn [map String.concat fst snd]. rewrite !append_assoc.
    rewrite parseMembers_eq. simpl append. simpl skipWs.
    change (Ascii.eqb ":" ":") with true. cbv iota.
    rewrite (Hx Sx f (String "}" rest)); [ reflexivity | lia | reflexivity ].
  - change (String.concat ","
              (map (fun kv => quote (fst kv) ++ ":" ++ elementText (snd kv))
                 ((k, x) :: (k', y) :: ms')))
      with ((quote k ++ ":" ++ elementText x) ++ "," ++
            String.concat ","
              (map (fun kv => quote (fst kv) ++ ":" ++ elementText (snd kv))
                 ((k', y) :: ms'))).
    cbn [fst snd]. rewrite !append_assoc.
    rewrite parseMembers_eq. simpl append. simpl skipWs.
    change (Ascii.eqb ":" ":") with true. cbv iota.
    rewrite (Hx Sx f); [ | lia | reflexivity ].
    simpl skipWs. change (Ascii.eqb "," ",") with true. cbv iota.
    rewrite (IH Sms); [ reflexivity | discriminate | lia ].
Qed.

Lemma set_fresh (k : string) (v : JSValue) (acc : list (string * JSValue)) :
  existsb (String.eqb k) (map fst acc) = false ->
  JsMap.set String.eqb k v acc = (acc ++ [(k, v)])%list.
Proof.
  induction acc as [ | [k' v'] acc IH ]; simpl; [ reflexivity | ].
  intros H. apply orb_false_elim in H as [H1 H2].
  rewrite H1, (IH H2). reflexivity.
Qed.

Lemma fold_set_unique (ms : list (string * JSValue)) : forall acc,
  uniqueKeys (map fst ms) = true ->
  (forall k, In k (map fst ms) -> existsb (String.eqb k) (map fst acc) = false) ->
  fold_left (fun acc kv => JsMap.set String.eqb (fst kv) (snd kv) acc) ms acc
  = (acc ++ ms)%list.
Proof.
  induction ms as [ | [k v] ms IH ]; intros acc U D; simpl.
  - now rewrite List.app_nil_r.
  - simpl in U. apply andb_prop in U as [Uk Ums].
    rewrite set_fresh by (apply D; now left).
    rewrite IH; [ now rewrite <- List.app_assoc | exact Ums | ].
    intros k' Hk'. rewrite map_app, existsb_app, (D k') by now right.
    simpl. rewrite orb_false_r.
    destruct (String.eqb_spec k' k) as [ -> | ]; [ | reflexivity ].
    exfalso. apply negb_true_iff in Uk.
    assert (E : existsb (String.eqb k) (map fst ms) = true).
    { apply existsb_exists. exists k. split; [ exact Hk' | apply String.eqb_refl ]. }
    congruence.
Qed.

Lemma parseValue_elementText v : reads v.
Proof.
  induction v as [ | | b | n | | s | xs IH | ms IH ] using JSValue_ind;
    intros Hs fuel rest Hf Hr; try discriminate Hs;
    (destruct fuel as [ | f ]; [ simpl in Hf; lia | ]).
  - reflexivity.
  - destruct b; reflexivity.
  - now apply parseValue_showZ.
  - unfold elementText, stringify, quote. simpl append. rewrite append_assoc.
    simpl append.
    change (parseValue (S f) (String dquote (escape s ++ String dquote rest)))
      with (match parseChars (escape s ++ String dquote rest) with
            | Some (str, r') => Some (JStr str, r')
            | None => None
            end).
    now rewrite parseChars_escape.
  - unfold elementText. rewrite stringify_arr. simpl append.
    rewrite append_assoc, parseValue_arr.
    destruct xs as [ | x xs ]; [ reflexivity | ].
    assert (Sx : jsonSafe x = true).
    { simpl in Hs. now apply andb_prop in Hs as [Sx _]. }
    destruct (elementText_head x
                (match xs with
                 | [] => ""
                 | _ => "," ++ String.concat "," (map elementText xs)
                 end ++ String "]" rest) Sx) as (c & r & E & W & B).
    assert (E' : String.concat "," (map elementText (x :: xs)) ++ "]" ++ rest
                 = String c r).
    { rewrite <- E. destruct xs; cbn [map String.concat];
        rewrite ?append_assoc; reflexivity. }
    rewrite E', (skipWs_head c r W), B, <- E'.
    change ("]" ++ rest) with (String "]" rest).
    rewrite (parseElements_texts (x :: xs) IH Hs); [ reflexivity | discriminate | ].
    simpl in Hf. simpl. lia.
  - unfold elementText. rewrite stringify_obj. simpl append.
    rewrite append_assoc, parseValue_obj.
    destruct ms as [ | [k x] ms ]; [ reflexivity | ].
    change (uniqueKeys (map fst ((k, x) :: ms))
            && forallb (fun kv => jsonSafe (snd kv)) ((k, x) :: ms) = true) in Hs.
    apply andb_prop in Hs as [U Hs].
    rewrite (flat_map_memberTexts _ Hs).
    assert (E : exists r,
               String.concat ","
                 (map (fun kv => quote (fst kv) ++ ":" ++ elementText (snd kv))
                    ((k, x) :: ms)) ++ "}" ++ rest
               = String dquote r).
    { destruct ms; cbn [map String.concat fst]; unfold quote; simpl append; eauto. }
    destruct E as [r E]. rewrite E.
    rewrite (skipWs_head dquote r eq_refl).
    change (Ascii.eqb dquote "}") with false. cbv iota. rewrite <- E.
    change ("}" ++ rest) with (String "}" rest).
    rewrite (parseMembers_texts ((k, x) :: ms) IH Hs); [ | discriminate | ].
    + rewrite (fold_set_unique ((k, x) :: ms) [] U); [ reflexivity | reflexivity ].
    + simpl in Hf. simpl. lia.
Qed.

Lemma concat_cons2 sep a b l :
  String.concat sep (a :: b :: l) = a ++ sep ++ String.concat sep (b :: l).
Proof. reflexivity. Qed.

(** The nesting of calls is bounded by the length of the text. *)
Lemma need_elements xs :
  Forall (fun v => need v <= 2 * String.length (elementText v) + 1) xs ->
  fold_right (fun x acc => S (Nat.max (need x) acc)) 0 xs
  <= 2 * String.length (String.concat "," (map elementText xs)) + 2.
Proof.
  induction 1 as [ | x xs Hx Hxs IH ]; [ simpl; lia | ].
  destruct xs as [ | y ys ].
  - cbn [fold_right map String.concat]. lia.
  - cbn [fold_right map] in *. rewrite concat_cons2, !length_append.
    cbn [String.length]. lia.
Qed.

Lemma need_members ms :
  Forall (fun kv => need (snd kv) <= 2 * String.length (elementText (snd kv)) + 1) ms ->
  fold_right (fun kv acc => S (Nat.max (need (snd kv)) acc)) 0 ms
  <= 2 * String.length
         (String.concat ","
            (map (fun kv => quote (fst kv) ++ ":" ++ elementText (snd kv)) ms)) + 2.
Proof.
  induction 1 as [ | [k x] ms Hx Hms IH ]; [ simpl; lia | ].
  destruct ms as [ | [k' y] ms' ].
  - cbn [fold_right map String.concat fst snd] in *. rewrite !length_append. lia.
  - cbn [fold_right map fst snd] in *. rewrite concat_cons2, !length_append.
    cbn [String.length]. lia.
Qed.

Lemma need_le_length v :
  jsonSafe v = true -> need v <= 2 * String.length (elementText v) + 1.
Proof.
  induction v as [ | | b | n | | s | xs IH | ms IH ] using JSValue_ind;
    intros Hs; try (simpl; lia).
  - unfold elementText. rewrite stringify_arr. rewrite !length_append.
    assert (H : Forall (fun v => need v <= 2 * String.length (elementText v) + 1) xs).
    { simpl in Hs. rewrite forallb_forall in Hs. rewrite Forall_forall in *.
      intros x Hx. apply IH; auto. }
    pose proof (need_elements xs H). simpl in *. lia.
  - unfold elementText. rewrite stringify_obj. rewrite !length_append.
    simpl in Hs. apply andb_prop in Hs as [_ Hs].
    rewrite (flat_map_memberTexts _ Hs).
    assert (H : Forall (fun kv => need (snd kv)
                                  <= 2 * String.length (elementText (snd kv)) + 1) ms).
    { rewrite forallb_forall in Hs. rewrite Forall_forall in *.
      intros x Hx. apply IH; auto. }
    pose proof (need_members ms H). simpl in *. lia.
Qed.

(** [JSON.parse (JSON.stringify v)] is [v] for the values [JSON]
    represents exactly. *)
Lemma parse_stringify v t :
  jsonSafe v = true -> stringify v = Some t -> parse t = Some v.
Proof.
  intros Hs E. rewrite (stringify_safe v Hs) in E. injection E as <-.
  unfold parse.
  pose proof (parseValue_elementText v Hs
                (2 * String.length (elementText v) + 2) "") as P.
  assert (A : elementText v ++ "" = elementText v).
  { generalize (elementText v). intros a. induction a; simpl; congruence. }
  rewrite A in P. rewrite P; [ reflexivity | | reflexivity ].
  pose proof (need_le_length v Hs). lia.
Qed.


End JsonFacts.

(** ** The default transport *)

Module CoreFacts.
Import Core.

(** The object of a message, without the members that are [undefined]. *)
Lemma toObject_members m : exists ms, toObject m = JObj ms.
Proof. destruct m; simpl; eauto. Qed.


Lemma asMessage_response v id data error ts :
  asMessage v = IsMessage (ResponseMessage id data error ts) ->
  Json.getProp "type" v = JStr "response" /\ Json.getProp "id" v = JStr id.
Proof.
  unfold asMessage. destruct v; try discriminate.
  destruct (Json.getProp "type" (JObj ms)) as [ | | | | | ty | | ]; try discriminate.
  destruct (String.eqb_spec ty "response") as [ -> | _ ].
  - destruct (Json.getProp "id" (JObj ms)); try discriminate.
    destruct (readError _); [ | discriminate ]. intros [= -> _ _ _]. auto.
  - destruct (ty =? "event")%string.
    + destruct (Json.getProp "event" (JObj ms)); discriminate.
    + destruct (ty =? "request")%string; [ | discriminate ].
      destruct (Json.getProp "id" (JObj ms)); try discriminate.
      destruct (Json.getProp "procedure" (JObj ms)); discriminate.
Qed.

Lemma asMessage_request v id procedure data ts :
  asMessage v = IsMessage (RequestMessage id procedure data ts) ->
  Json.getProp "type" v = JStr "request" /\ Json.getProp "id" v = JStr id.
Proof.
  unfold asMessage. destruct v; try discriminate.
  destruct (Json.getProp "type" (JObj ms)) as [ | | | | | ty | | ]; try discriminate.
  destruct (ty =? "response")%string.
  - destruct (Json.getProp "id" (JObj ms)); try discriminate.
    destruct (readError _); discriminate.
  - destruct (ty =? "event")%string.
    + destruct (Json.getProp "event" (JObj ms)); discriminate.
    + destruct (String.eqb_spec ty "request") as [ -> | _ ]; [ | discriminate ].
      destruct (Json.getProp "id" (JObj ms)); try discriminate.
      destruct (Json.getProp "procedure" (JObj ms)); try discriminate.
      intros [= -> _ _ _]. auto.
Qed.

End CoreFacts.

(** ** Timers and pending entries *)

Module CorrelationFacts.
Import Core Correlation.

Lemma timersOk_later timers settled n n' :
  n <= n' -> TimersOk timers settled n -> TimersOk timers settled n'.
Proof.
  intros L [K O S1 S2]. constructor; auto.
  - intros t timer H. destruct (O t timer H) as (? & ? & ?). repeat split; auto. lia.
  - intros h H. specialize (S2 h H). lia.
Qed.

Lemma map_fst_snoc {A B} (l : list (A * B)) (x : A * B) :
  map fst (l ++ [x]) = map fst l ++ [fst x].
Proof. now rewrite map_app. Qed.

Lemma NoDup_snoc {A} (l : list A) (x : A) :
  NoDup l -> ~ In x l -> NoDup (l ++ [x]).
Proof.
  intros N H. apply NoDup_app; auto.
  - repeat constructor. simpl. tauto.
  - intros y Hy [ <- | [] ]. tauto.
Qed.

(** A promise that has just been created is settled. *)
Lemma timersOk_settle_fresh timers settled n how :
  TimersOk timers settled n ->
  TimersOk timers (settled ++ [(n, how)]) (S n).
Proof.
  intros [K O S1 S2]. constructor; auto.
  - intros t timer H. destruct (O t timer H) as (? & ? & ?).
    repeat split; auto. rewrite map_fst_snoc, in_app_iff. simpl.
    intros [ ? | [ ? | [] ] ]; [ tauto | lia ].
  - rewrite map_fst_snoc. apply NoDup_snoc; auto.
    intros H. specialize (S2 _ H). simpl in S2. lia.
  - intros h. rewrite map_fst_snoc, in_app_iff. simpl.
    intros [ H | [ <- | [] ] ]; [ specialize (S2 _ H) | ]; lia.
Qed.

(** A call arms a timer and stores an entry under a fresh handle. *)
Lemma register_ok pending timers settled n id :
  TimersOk timers settled n -> EntriesOk pending timers ->
  TimersOk (JsMap.set Nat.eqb n {| expires := id; rejects := n |} timers) settled (S n)
  /\ EntriesOk (JsMap.set String.eqb id {| settles := n; timeoutId := n |} pending)
       (JsMap.set Nat.eqb n {| expires := id; rejects := n |} timers).
Proof.
  intros [K O S1 S2] [PK PA]. split; constructor.
  - now apply (JsMapFacts.NoDup_set Nat.eqb Nat.eqb_eq).
  - intros t timer H.
    apply (JsMapFacts.In_set Nat.eqb Nat.eqb_eq) in H; auto.
    destruct H as [ [-> ->] | [N H] ].
    + simpl. repeat split; auto. intros H. specialize (S2 _ H). lia.
    + destruct (O t timer H) as (? & ? & ?). repeat split; auto.
  - exact S1.
  - intros h H. specialize (S2 h H). lia.
  - now apply (JsMapFacts.NoDup_set String.eqb String.eqb_eq).
  - intros id' p H.
    apply (JsMapFacts.In_set String.eqb String.eqb_eq) in H; auto.
    destruct H as [ [-> ->] | [N H] ].
    + simpl. split; auto. apply JsMapFacts.In_set_same.
    + destruct (PA id' p H) as (E & A). split; auto.
      apply (JsMapFacts.In_set_other Nat.eqb Nat.eqb_eq); auto.
      destruct (O _ _ A) as (_ & Lt & _). lia.
Qed.

(** An armed timer is disarmed, its promise settled, and the entry it
    expires deleted: by a response, by the expiry of the timer, or by a
    failure to send. *)
Lemma disarm_ok pending timers settled n t timer how :
  TimersOk timers settled n -> EntriesOk pending timers ->
  In (t, timer) timers ->
  TimersOk (JsMap.delete Nat.eqb t timers) (settled ++ [(t, how)]) n
  /\ EntriesOk (JsMap.delete String.eqb (expires timer) pending)
       (JsMap.delete Nat.eqb t timers).
Proof.
  intros [K O S1 S2] [PK PA] H. destruct (O t timer H) as (R & Lt & U).
  split; constructor.
  - now apply JsMapFacts.NoDup_delete.
  - intros t' timer' H'.
    apply (JsMapFacts.In_delete Nat.eqb Nat.eqb_eq) in H' as [H' N].
    destruct (O t' timer' H') as (? & ? & ?). repeat split; auto.
    rewrite map_fst_snoc, in_app_iff. simpl. intros [ ? | [ ? | [] ] ]; auto.
  - rewrite map_fst_snoc. now apply NoDup_snoc.
  - intros h. rewrite map_fst_snoc, in_app_iff. simpl.
    intros [ Hh | [ <- | [] ] ]; auto.
  - now apply JsMapFacts.NoDup_delete.
  - intros id p Hp.
    apply (JsMapFacts.In_delete String.eqb String.eqb_eq) in Hp as [Hp N].
    destruct (PA id p Hp) as (E & A). split; auto.
    apply (JsMapFacts.In_delete Nat.eqb Nat.eqb_eq). split; auto.
    intros Et. rewrite Et in A.
    pose proof (JsMapFacts.In_functional Nat.eqb Nat.eqb_eq _ _ _ _ K H A) as F.
    apply N. rewrite F. reflexivity.
Qed.

(** The same, stated for the entry. *)
Lemma entry_ok pending timers settled n id p how :
  TimersOk timers settled n -> EntriesOk pending timers ->
  In (id, p) pending ->
  TimersOk (JsMap.delete Nat.eqb (timeoutId p) timers)
    (settled ++ [(settles p, how)]) n
  /\ EntriesOk (JsMap.delete String.eqb id pending)
       (JsMap.delete Nat.eqb (timeoutId p) timers).
Proof.
  intros T P H. destruct (pending_armed _ _ P id p H) as (E & A).
  rewrite E.
  exact (disarm_ok pending timers settled n (timeoutId p)
           {| expires := id; rejects := timeoutId p |} how T P A).
Qed.

Lemma setsOk_set sets r hs :
  SetsOk sets -> NoDup hs -> SetsOk (JsMap.set Nat.eqb r hs sets).
Proof.
  intros S N r' hs'. destruct (Nat.eq_dec r r') as [ <- | D ].
  - rewrite (JsMapFacts.get_set_eq Nat.eqb Nat.eqb_eq). now intros [= <-].
  - rewrite (JsMapFacts.get_set_neq Nat.eqb Nat.eqb_eq) by exact D. apply S.
Qed.

(** The timer of a call is not the timer of an entry with another id. *)
Lemma other_entry_timer pending timers settled n id h id' p :
  TimersOk timers settled n -> EntriesOk pending timers ->
  In (h, {| expires := id; rejects := h |}) timers ->
  JsMap.get String.eqb id' pending = Some p -> id' <> id ->
  timeoutId p <> h.
Proof.
  intros T P H E N Eh.
  apply (JsMapFacts.get_in String.eqb String.eqb_eq) in E.
  destruct (pending_armed _ _ P id' p E) as (_ & A). rewrite Eh in A.
  pose proof (JsMapFacts.In_functional Nat.eqb Nat.eqb_eq _ _ _ _
                (timers_keys _ _ _ T) H A) as F.
  injection F as F. congruence.
Qed.

End CorrelationFacts.

(** ** Settling pending requests *)

Module WebFacts.
Import Core Correlation Web.

Lemma web_handleResponse_unknown s id data error :
  JsMap.get String.eqb id (pendingRequests s) = None ->
  handleResponse s id data error = s.
Proof. unfold handleResponse. now intros ->. Qed.

Lemma web_handleResponse_removes s id data error :
  JsMap.get String.eqb id (pendingRequests (handleResponse s id data error)) = None.
Proof.
  unfold handleResponse.
  destruct (JsMap.get String.eqb id (pendingRequests s)) as [ p | ] eqn:E.
  - destruct error; simpl; apply JsMapFacts.get_delete_eq.
  - exact E.
Qed.

Lemma web_handleResponse_settled s id p data error :
  JsMap.get String.eqb id (pendingRequests s) = Some p ->
  settled (handleResponse s id data error)
  = settled s ++
    [(settles p,
      match error with
      | Some e => Rejected (WebViewRPCError (ErrorInfo.message e) (ErrorInfo.code e))
      | None => Resolved data
      end)].
Proof. unfold handleResponse. intros ->. destruct error; reflexivity. Qed.

Lemma web_handleResponse_disarms s id p data error :
  JsMap.get String.eqb id (pendingRequests s) = Some p ->
  JsMap.get Nat.eqb (timeoutId p) (timers (handleResponse s id data error)) = None.
Proof.
  unfold handleResponse. intros ->.
  destruct error; simpl; apply JsMapFacts.get_delete_eq.
Qed.

Lemma web_fireTimeout_unarmed c s t :
  JsMap.get Nat.eqb t (timers s) = None -> fireTimeout c s t = s.
Proof. unfold fireTimeout. now intros ->. Qed.

Lemma web_fireTimeout_removes c s t timer :
  JsMap.get Nat.eqb t (timers s) = Some timer ->
  JsMap.get String.eqb (expires timer) (pendingRequests (fireTimeout c s t)) = None.
Proof.
  unfold fireTimeout. intros ->. simpl.
  apply JsMapFacts.get_delete_eq.
Qed.

Lemma web_fireTimeout_settled c s t timer :
  JsMap.get Nat.eqb t (timers s) = Some timer ->
  settled (fireTimeout c s t)
  = settled s ++
    [(rejects timer,
      Rejected (WebViewRPCTimeoutError (timeoutMessage (timeout (config c)))
                  (timeout (config c))))].
Proof. unfold fireTimeout. now intros ->. Qed.

Lemma web_responses_settle_once s id rs :
  length (settled (fold_left (fun s r => handleResponse s id (fst r) (snd r)) rs s))
  <= S (length (settled s)).
Proof.
  destruct rs as [ | r rs ]; simpl; [ lia | ].
  assert (F : forall s', JsMap.get String.eqb id (pendingRequests s') = None ->
                         fold_left (fun s r => handleResponse s id (fst r) (snd r)) rs s'
                         = s').
  { induction rs as [ | r' rs IH ]; intros s' H; simpl; [ reflexivity | ].
    rewrite (web_handleResponse_unknown s' id _ _ H). now apply IH. }
  rewrite F by apply web_handleResponse_removes.
  destruct (JsMap.get String.eqb id (pendingRequests s)) as [ p | ] eqn:E.
  - rewrite (web_handleResponse_settled s id p _ _ E), length_app. simpl. lia.
  - rewrite (web_handleResponse_unknown s id _ _ E). lia.
Qed.

(** *** Dispatch of events *)

Lemma web_callListeners c data hs : forall s,
  let s' := fold_left (callListener c data) hs s in
  invoked s' = invoked s ++ map (fun h => (h, data)) hs /\
  errors s' = errors s ++ (if onError (config c) then thrownBy c data hs else []) /\
  pendingRequests s' = pendingRequests s /\
  eventHandlers s' = eventHandlers s /\
  procedureHandlers s' = procedureHandlers s /\
  sets s' = sets s /\ timers s' = timers s /\ listening s' = listening s /\
  next s' = next s /\ posted s' = posted s /\ settled s' = settled s.
Proof.
  induction hs as [ | h hs IH ]; intros s; simpl.
  - rewrite !List.app_nil_r. destruct (onError (config c)); rewrite ?List.app_nil_r;
      repeat split; reflexivity.
  - destruct (IH (callListener c data s h))
      as (I & E & P & EH & PH & St & T & L & N & Po & Se).
    rewrite I, E, P, EH, PH, St, T, L, N, Po, Se. clear.
    unfold callListener, thrownBy, reportError. simpl.
    destruct (behaviour c h data), (onError (config c)); simpl;
      rewrite <- ?List.app_assoc; repeat split; reflexivity.
Qed.

Lemma web_handleEvent_effect c s event data :
  let s' := handleEvent c s event data in
  invoked s' = invoked s ++ map (fun h => (h, data)) (listeners s event) /\
  errors s' = errors s ++
              (if onError (config c) then thrownBy c data (listeners s event) else []) /\
  pendingRequests s' = pendingRequests s /\
  eventHandlers s' = eventHandlers s /\
  procedureHandlers s' = procedureHandlers s /\
  sets s' = sets s /\ timers s' = timers s /\ listening s' = listening s /\
  next s' = next s /\ posted s' = posted s /\ settled s' = settled s.
Proof.
  unfold handleEvent, listeners.
  destruct (JsMap.get String.eqb event (eventHandlers s)) as [ r | ].
  - apply web_callListeners.
  - simpl. rewrite !List.app_nil_r. destruct (onError (config c));
      rewrite ?List.app_nil_r; repeat split; reflexivity.
Qed.

Lemma web_listeners_handleNativeEvent s event h :
  listeners (fst (handleNativeEvent s event h)) event
  = JsSet.add Nat.eqb h (listeners s event).
Proof.
  unfold handleNativeEvent, listeners.
  destruct (JsMap.get String.eqb event (eventHandlers s)) as [ r | ] eqn:E; simpl.
  - rewrite E. unfold deref. simpl.
    now rewrite (JsMapFacts.get_set_eq Nat.eqb Nat.eqb_eq).
  - rewrite (JsMapFacts.get_set_eq String.eqb String.eqb_eq).
    unfold deref. simpl.
    now rewrite !(JsMapFacts.get_set_eq Nat.eqb Nat.eqb_eq).
Qed.

(** *** The invariant of the executions *)

Lemma web_invariant_frame s s' :
  Invariant s ->
  timers s' = timers s -> settled s' = settled s ->
  pendingRequests s' = pendingRequests s -> sets s' = sets s ->
  next s <= next s' ->
  Invariant s'.
Proof.
  intros (T & P & S) Et Es Ep Ess L. unfold Invariant.
  rewrite Et, Es, Ep, Ess. split; [ | split ]; auto.
  now apply (CorrelationFacts.timersOk_later _ _ (next s)).
Qed.

Lemma web_reportError_frame c s e :
  let s' := reportError c s e in
  timers s' = timers s /\ settled s' = settled s /\
  pendingRequests s' = pendingRequests s /\ sets s' = sets s /\
  next s' = next s /\ invoked s' = invoked s /\
  eventHandlers s' = eventHandlers s /\
  procedureHandlers s' = procedureHandlers s /\ listening s' = listening s.
Proof. unfold reportError. destruct (onError (config c)); repeat split. Qed.

Lemma web_postToNative_frame c s m :
  let s' := postToNative c s m in
  timers s' = timers s /\ settled s' = settled s /\
  pendingRequests s' = pendingRequests s /\ sets s' = sets s /\
  next s' = next s /\ invoked s' = invoked s /\
  eventHandlers s' = eventHandlers s /\
  procedureHandlers s' = procedureHandlers s /\ listening s' = listening s.
Proof.
  unfold postToNative. destruct (negb (isWebView c)); [ repeat split | ].
  destruct (serializer (config c) (toObject m)); [ repeat split | ].
  apply web_reportError_frame.
Qed.

Ltac web_framed H :=
  destruct H as (?Et & ?Es & ?Ep & ?Ess & ?En & _);
  eapply web_invariant_frame; eauto; try lia.

Lemma web_invariant_reportError c s e : Invariant s -> Invariant (reportError c s e).
Proof. intros I. pose proof (web_reportError_frame c s e) as F. web_framed F. Qed.

Lemma web_invariant_postToNative c s m : Invariant s -> Invariant (postToNative c s m).
Proof. intros I. pose proof (web_postToNative_frame c s m) as F. web_framed F. Qed.

Lemma web_invariant_create c : Invariant (create c).
Proof.
  split; [ | split ]; simpl.
  - constructor; simpl; try constructor; tauto.
  - constructor; simpl; try constructor; tauto.
  - intros r hs. discriminate.
Qed.

Lemma web_invariant_call c s id procedure data :
  Invariant s -> Invariant (fst (call c s id procedure data)).
Proof.
  intros (T & P & S). unfold call.
  destruct (negb (isWebView c)); simpl.
  - split; [ | split ]; simpl; auto.
    now apply CorrelationFacts.timersOk_settle_fresh.
  - apply web_invariant_postToNative.
    destruct (CorrelationFacts.register_ok _ _ _ _ id T P) as (T' & P').
    split; [ | split ]; simpl; auto.
Qed.

Lemma web_invariant_handleResponse s id data error :
  Invariant s -> Invariant (handleResponse s id data error).
Proof.
  intros (T & P & S). unfold handleResponse.
  destruct (JsMap.get String.eqb id (pendingRequests s)) as [ p | ] eqn:E;
    [ | split; [ | split ]; auto ].
  apply (JsMapFacts.get_in String.eqb String.eqb_eq) in E.
  destruct error as [ e | ].
  - destruct (CorrelationFacts.entry_ok _ _ _ _ id p
                (Rejected (WebViewRPCError (ErrorInfo.message e) (ErrorInfo.code e)))
                T P E) as (T' & P').
    split; [ | split ]; simpl; auto.
  - destruct (CorrelationFacts.entry_ok _ _ _ _ id p (Resolved data) T P E)
      as (T' & P').
    split; [ | split ]; simpl; auto.
Qed.

Lemma web_invariant_fireTimeout c s t :
  Invariant s -> Invariant (fireTimeout c s t).
Proof.
  intros (T & P & S). unfold fireTimeout.
  destruct (JsMap.get Nat.eqb t (timers s)) as [ timer | ] eqn:E;
    [ | split; [ | split ]; auto ].
  apply (JsMapFacts.get_in Nat.eqb Nat.eqb_eq) in E.
  destruct (timers_own _ _ _ T t timer E) as (R & _).
  destruct (CorrelationFacts.disarm_ok _ _ _ _ t timer
              (Rejected (WebViewRPCTimeoutError (timeoutMessage (timeout (config c)))
                           (timeout (config c)))) T P E) as (T' & P').
  rewrite R. split; [ | split ]; simpl; auto.
Qed.

Lemma web_invariant_handleEvent c s event data :
  Invariant s -> Invariant (handleEvent c s event data).
Proof.
  intros I. destruct (web_handleEvent_effect c s event data)
    as (_ & _ & Ep & _ & _ & Ess & Et & _ & En & _ & Es).
  eapply web_invariant_frame; eauto. lia.
Qed.

Lemma web_invariant_handleRequest c s id procedure data :
  Invariant s -> Invariant (fst (handleRequest c s id procedure data)).
Proof.
  intros I. unfold handleRequest.
  destruct (JsMap.get String.eqb procedure (procedureHandlers s)); simpl.
  - exact I.
  - now apply web_invariant_postToNative.
Qed.

Lemma web_invariant_resume c s task : Invariant s -> Invariant (resume c s task).
Proof.
  intros I. unfold resume. destruct (outcome task).
  - now apply web_invariant_postToNative.
  - now apply web_invariant_postToNative, web_invariant_reportError.
  - exact I.
Qed.

Lemma web_invariant_handleMessage c s raw :
  Invariant s -> Invariant (fst (handleMessage c s raw)).
Proof.
  intros I. unfold handleMessage.
  destruct (deserializer (config c) raw) as [ v | e ]; simpl.
  - destruct (asMessage v) as [ [ id p d ts | id d e ts | id ev d ts ] | | ]; simpl.
    + now apply web_invariant_handleRequest.
    + now apply web_invariant_handleResponse.
    + now apply web_invariant_handleEvent.
    + now apply web_invariant_reportError.
    + exact I.
  - now apply web_invariant_reportError.
Qed.

Lemma web_deref_NoDup s r : SetsOk (sets s) -> NoDup (deref s r).
Proof.
  intros S. unfold deref.
  destruct (JsMap.get Nat.eqb r (sets s)) as [ hs | ] eqn:E; [ | constructor ].
  exact (S r hs E).
Qed.

Lemma web_invariant_handleNativeEvent s event h :
  Invariant s -> Invariant (fst (handleNativeEvent s event h)).
Proof.
  intros (T & P & S). unfold handleNativeEvent.
  destruct (JsMap.get String.eqb event (eventHandlers s)) as [ r | ]; simpl.
  - split; [ | split ]; simpl; auto.
    apply CorrelationFacts.setsOk_set; auto.
    apply (JsSetFacts.add_NoDup Nat.eqb Nat.eqb_eq). now apply web_deref_NoDup.
  - split; [ | split ]; simpl; auto.
    + apply (CorrelationFacts.timersOk_later _ _ (next s)); auto.
    + apply CorrelationFacts.setsOk_set.
      * apply CorrelationFacts.setsOk_set; auto. constructor.
      * apply (JsSetFacts.add_NoDup Nat.eqb Nat.eqb_eq).
        unfold deref. simpl.
        rewrite (JsMapFacts.get_set_eq Nat.eqb Nat.eqb_eq). constructor.
Qed.

Lemma web_invariant_unregister s u : Invariant s -> Invariant (unregister s u).
Proof.
  intros (T & P & S). destruct u as [ r h name | name ]; unfold unregister.
  - remember (withSets s (JsMap.set Nat.eqb r (JsSet.delete Nat.eqb h (deref s r))
                            (sets s))) as s1 eqn:E1.
    assert (I1 : Invariant s1).
    { subst s1. split; [ | split ]; simpl; auto.
      apply CorrelationFacts.setsOk_set; auto.
      apply (JsSetFacts.delete_NoDup Nat.eqb Nat.eqb_eq). now apply web_deref_NoDup. }
    destruct (deref s1 r); [ | exact I1 ].
    destruct I1 as (T1 & P1 & S1). split; [ | split ]; simpl; auto.
  - split; [ | split ]; simpl; auto.
Qed.

(** The loop of [cleanup]. *)
Lemma web_cancel_loop entries : forall s,
  TimersOk (timers s) (settled s) (next s) -> EntriesOk entries (timers s) ->
  let s' := fold_left cancel entries s in
  TimersOk (timers s') (settled s') (next s') /\
  sets s' = sets s /\
  settled s' = settled s ++
               map (fun e => (settles (snd e),
                              Rejected (WebViewRPCError "Client cleanup" "CLEANUP")))
                 entries /\
  (forall e, In e entries -> JsMap.get Nat.eqb (timeoutId (snd e)) (timers s') = None) /\
  (forall t, JsMap.get Nat.eqb t (timers s) = None ->
             JsMap.get Nat.eqb t (timers s') = None) /\
  invoked s' = invoked s /\ posted s' = posted s /\ errors s' = errors s /\
  next s' = next s /\ listening s' = listening s.
Proof.
  induction entries as [ | [id p] entries IH ]; intros s T P; simpl.
  - rewrite List.app_nil_r. split; [ exact T | ]. repeat split; auto. intros e [].
  - assert (H : In (id, p) ((id, p) :: entries)) by now left.
    destruct (CorrelationFacts.entry_ok _ _ _ _ id p
                (Rejected (WebViewRPCError "Client cleanup" "CLEANUP")) T P H)
      as (T' & P').
    simpl in P'. rewrite String.eqb_refl in P'.
    rewrite (JsMapFacts.delete_notin String.eqb String.eqb_eq) in P'
      by (pose proof (pending_keys _ _ P) as N; now inversion N).
    destruct (IH (cancel s (id, p)) T' P')
      as (T2 & S2 & Se & D & K & I2 & Po & Er & N2 & L2).
    split; [ exact T2 | ]. repeat split; auto.
    + rewrite Se. simpl. now rewrite <- List.app_assoc.
    + intros e [ <- | He ]; [ | now apply D ].
      apply K. simpl. apply JsMapFacts.get_delete_eq.
    + intros t Ht. apply K. simpl.
      destruct (Nat.eq_dec (timeoutId p) t) as [ <- | Ne ].
      * apply JsMapFacts.get_delete_eq.
      * now rewrite (JsMapFacts.get_delete_neq Nat.eqb Nat.eqb_eq).
Qed.

Lemma web_invariant_cleanup c s : Invariant s -> Invariant (cleanup c s).
Proof.
  intros (T & P & S).
  destruct (web_cancel_loop (pendingRequests s) s T P) as (T' & S' & _).
  unfold cleanup.
  destruct (windowDefined c); (split; [ | split ]); simpl; auto;
    try (constructor; simpl; [ constructor | intros ? ? [] ]);
    rewrite ?S'; auto.
Qed.

Lemma web_invariant_step c s a : Invariant s -> Invariant (step c s a).
Proof.
  intros I. destruct a; simpl.
  - now apply web_invariant_call.
  - unfold emit. destruct (negb (isWebView c)); auto.
    now apply web_invariant_postToNative.
  - now apply web_invariant_handleNativeEvent.
  - exact I.
  - now apply web_invariant_unregister.
  - unfold receive. destruct (listening s); auto.
    now apply web_invariant_handleMessage.
  - now apply web_invariant_resume.
  - now apply web_invariant_fireTimeout.
  - now apply web_invariant_cleanup.
Qed.

Lemma web_invariant_run c actions : forall s,
  Invariant s -> Invariant (run c s actions).
Proof.
  induction actions as [ | a actions IH ]; intros s I; simpl; auto.
  apply IH. now apply web_invariant_step.
Qed.

(** *** A call that stays unanswered *)

Lemma web_armed_handleResponse s id h id' data error :
  Invariant s ->
  In (h, {| expires := id; rejects := h |}) (timers s) -> id' <> id ->
  In (h, {| expires := id; rejects := h |}) (timers (handleResponse s id' data error)).
Proof.
  intros (T & P & S) H N. unfold handleResponse.
  destruct (JsMap.get String.eqb id' (pendingRequests s)) as [ p | ] eqn:E; auto.
  pose proof (CorrelationFacts.other_entry_timer _ _ _ _ id h id' p T P H E N) as D.
  destruct error; simpl; apply (JsMapFacts.In_delete Nat.eqb Nat.eqb_eq); auto.
Qed.

Lemma web_call_timers c s id procedure data :
  timers (fst (call c s id procedure data))
  = if negb (isWebView c) then timers s
    else JsMap.set Nat.eqb (next s) {| expires := id; rejects := next s |} (timers s).
Proof.
  unfold call. destruct (negb (isWebView c)); [ reflexivity | ].
  cbv zeta. unfold fst.
  match goal with
  | |- context [ postToNative c ?s2 ?m ] =>
      destruct (web_postToNative_frame c s2 m) as (Et & _); rewrite Et
  end.
  reflexivity.
Qed.

Lemma web_armed_step c s id h a :
  Invariant s ->
  In (h, {| expires := id; rejects := h |}) (timers s) ->
  leavesPending c id h a = true ->
  In (h, {| expires := id; rejects := h |}) (timers (step c s a)).
Proof.
  intros I H L. destruct a; simpl in *; try discriminate L.
  - rewrite web_call_timers. destruct (negb (isWebView c)); auto.
    apply (JsMapFacts.In_set_other Nat.eqb Nat.eqb_eq); auto.
    destruct I as (T & _). destruct (timers_own _ _ _ T _ _ H) as (_ & Lt & _). lia.
  - unfold emit. destruct (negb (isWebView c)); auto.
    destruct (web_postToNative_frame c s (EventMessage id0 event data None))
      as (Et & _). now rewrite Et.
  - unfold handleNativeEvent.
    destruct (JsMap.get String.eqb event (eventHandlers s)); simpl; auto.
  - exact H.
  - destruct u as [ r h0 name | name ]; unfold unregister; simpl; auto.
    match goal with
    | |- context [ match ?d with [] => _ | _ :: _ => _ end ] => destruct d
    end; simpl; auto.
  - unfold receive. destruct (listening s); auto.
    unfold handleMessage, isResponseFor in *.
    destruct (deserializer (config c) raw) as [ v | e ]; simpl.
    + destruct (asMessage v) as [ [ id' p d ts | id' d e ts | id' ev d ts ] | | ] eqn:A;
        simpl; auto.
      * unfold handleRequest.
        destruct (JsMap.get String.eqb p (procedureHandlers s)); simpl; auto.
        match goal with
        | |- context [ postToNative c s ?m ] =>
            destruct (web_postToNative_frame c s m) as (Et & _); now rewrite Et
        end.
      * apply web_armed_handleResponse; auto.
        apply CoreFacts.asMessage_response in A as (Ty & Id).
        rewrite Ty, Id in L. simpl in L.
        apply negb_true_iff in L. now apply String.eqb_neq.
      * destruct (web_handleEvent_effect c s ev d)
          as (_ & _ & _ & _ & _ & _ & Et & _). now rewrite Et.
      * match goal with
        | |- context [ reportError c s ?e ] =>
            destruct (web_reportError_frame c s e) as (Et & _); now rewrite Et
        end.
    + destruct (web_reportError_frame c s e) as (Et & _). now rewrite Et.
  - unfold resume. destruct (outcome task); auto.
    + match goal with
      | |- context [ postToNative c s ?m ] =>
          destruct (web_postToNative_frame c s m) as (Et & _); now rewrite Et
      end.
    + match goal with
      | |- context [ postToNative c ?s1 ?m ] =>
          destruct (web_postToNative_frame c s1 m) as (Et & _); rewrite Et
      end.
      destruct (web_reportError_frame c s e) as (Et' & _). now rewrite Et'.
  - unfold fireTimeout.
    destruct (JsMap.get Nat.eqb t (timers s)) as [ timer | ]; simpl; auto.
    apply (JsMapFacts.In_delete Nat.eqb Nat.eqb_eq). split; auto.
    apply negb_true_iff, Nat.eqb_neq in L. congruence.
Qed.

Lemma web_armed_run c id h actions : forall s,
  Invariant s ->
  In (h, {| expires := id; rejects := h |}) (timers s) ->
  forallb (leavesPending c id h) actions = true ->
  In (h, {| expires := id; rejects := h |}) (timers (run c s actions)).
Proof.
  induction actions as [ | a actions IH ]; intros s I H L; simpl in *; auto.
  apply andb_prop in L as [La L].
  apply IH; auto.
  - now apply web_invariant_step.
  - now apply web_armed_step.
Qed.

Lemma web_call_arms c s id procedure data :
  isWebView c = true ->
  In (next s, {| expires := id; rejects := next s |})
     (timers (fst (call c s id procedure data)))
  /\ snd (call c s id procedure data) = next s
  /\ settled (fst (call c s id procedure data)) = settled s
  /\ JsMap.get String.eqb id (pendingRequests (fst (call c s id procedure data)))
     = Some {| settles := next s; timeoutId := next s |}.
Proof.
  intros W. unfold call. rewrite W. simpl.
  match goal with
  | |- context [ postToNative c ?s2 ?m ] =>
      destruct (web_postToNative_frame c s2 m) as (Et & Es & Ep & _);
      rewrite Et, Es, Ep
  end.
  simpl. repeat split.
  - apply JsMapFacts.In_set_same.
  - apply (JsMapFacts.get_set_eq String.eqb String.eqb_eq).
Qed.

(** *** Registration of procedure handlers *)

Lemma web_handleRequest_invoked c s id procedure data :
  invoked (fst (handleRequest c s id procedure data))
  = invoked s ++
    match JsMap.get String.eqb procedure (procedureHandlers s) with
    | Some handler => [(handler, data)]
    | None => []
    end.
Proof.
  unfold handleRequest.
  destruct (JsMap.get String.eqb procedure (procedureHandlers s)); simpl.
  - reflexivity.
  - match goal with
    | |- context [ postToNative c s ?m ] =>
        destruct (web_postToNative_frame c s m) as (_ & _ & _ & _ & _ & Ei & _)
    end.
    rewrite Ei. now rewrite List.app_nil_r.
Qed.

(** *** A serializer that throws *)

Lemma web_call_serializer_throws c s id procedure data e :
  isWebView c = true ->
  serializer (config c) (toObject (RequestMessage id procedure data None)) = SerThrows e ->
  let s1 := fst (call c s id procedure data) in
  JsMap.get String.eqb id (pendingRequests s1)
  = Some {| settles := next s; timeoutId := next s |} /\
  In (next s, {| expires := id; rejects := next s |}) (timers s1) /\
  settled s1 = settled s /\
  errors s1 = errors s ++ (if onError (config c) then [e] else []).
Proof.
  intros W E. destruct (web_call_arms c s id procedure data W) as (A & _ & Es & G).
  repeat split; auto.
  unfold call, postToNative. rewrite W. cbv zeta. simpl in E |- *. rewrite E.
  unfold reportError. destruct (onError (config c)); simpl; auto.
  now rewrite List.app_nil_r.
Qed.

(** *** After [cleanup] *)

Lemma web_cleanup_effect c s :
  Invariant s ->
  let s' := cleanup c s in
  pendingRequests s' = [] /\ eventHandlers s' = [] /\ procedureHandlers s' = [] /\
  settled s' = settled s ++
               map (fun e => (settles (snd e),
                              Rejected (WebViewRPCError "Client cleanup" "CLEANUP")))
                 (pendingRequests s) /\
  (forall e, In e (pendingRequests s) ->
             JsMap.get Nat.eqb (timeoutId (snd e)) (timers s') = None) /\
  invoked s' = invoked s /\
  (windowDefined c = true -> listening s' = false).
Proof.
  intros (T & P & S).
  destruct (web_cancel_loop (pendingRequests s) s T P)
    as (_ & _ & Se & D & _ & Iv & _).
  unfold cleanup. destruct (windowDefined c); simpl; repeat split; auto; discriminate.
Qed.

Lemma web_silent_handleMessage c s raw :
  eventHandlers s = [] -> procedureHandlers s = [] ->
  let r := handleMessage c s raw in
  snd r = None /\ invoked (fst r) = invoked s /\
  eventHandlers (fst r) = [] /\ procedureHandlers (fst r) = [] /\
  listening (fst r) = listening s.
Proof.
  intros E P. unfold handleMessage.
  destruct (deserializer (config c) raw) as [ v | e ]; simpl.
  - destruct (asMessage v) as [ [ id p d ts | id d e ts | id ev d ts ] | | ]; simpl.
    + unfold handleRequest. rewrite P. simpl.
      match goal with
      | |- context [ postToNative c s ?m ] =>
          destruct (web_postToNative_frame c s m)
            as (_ & _ & _ & _ & _ & Ei & Ee & Ep & El)
      end.
      rewrite Ei, Ee, Ep, El. auto.
    + unfold handleResponse.
      destruct (JsMap.get String.eqb id (pendingRequests s)); [ | auto ].
      destruct e; simpl; auto.
    + unfold handleEvent. rewrite E. simpl. auto.
    + match goal with
      | |- context [ reportError c s ?e ] =>
          destruct (web_reportError_frame c s e)
            as (_ & _ & _ & _ & _ & Ei & Ee & Ep & El)
      end.
      rewrite Ei, Ee, Ep, El. auto.
    + auto.
  - destruct (web_reportError_frame c s e) as (_ & _ & _ & _ & _ & Ei & Ee & Ep & El).
    rewrite Ei, Ee, Ep, El. auto.
Qed.

Lemma web_silent_deliver c s raw :
  eventHandlers s = [] -> procedureHandlers s = [] ->
  invoked (deliver c s raw) = invoked s /\
  eventHandlers (deliver c s raw) = [] /\ procedureHandlers (deliver c s raw) = [].
Proof.
  intros E P. unfold deliver, receive. destruct (listening s); [ | auto ].
  destruct (web_silent_handleMessage c s raw E P) as (N & I & E' & P' & _).
  destruct (handleMessage c s raw) as [s' [task | ]]; simpl in *; [ discriminate | auto ].
Qed.

Lemma web_silent_deliveries c raws : forall s,
  eventHandlers s = [] -> procedureHandlers s = [] ->
  invoked (fold_left (deliver c) raws s) = invoked s.
Proof.
  induction raws as [ | raw raws IH ]; intros s E P; simpl; [ reflexivity | ].
  destruct (web_silent_deliver c s raw E P) as (I & E' & P').
  rewrite IH; auto.
Qed.

End WebFacts.

Module NativeFacts.
Import Core Correlation Native.

Lemma native_handleResponse_unknown s id data error :
  JsMap.get String.eqb id (pendingRequests s) = None ->
  handleResponse s id data error = s.
Proof. unfold handleResponse. now intros ->. Qed.

Lemma native_handleResponse_removes s id data error :
  JsMap.get String.eqb id (pendingRequests (handleResponse s id data error)) = None.
Proof.
  unfold handleResponse.
  destruct (JsMap.get String.eqb id (pendingRequests s)) as [ p | ] eqn:E.
  - destruct error; simpl; apply JsMapFacts.get_delete_eq.
  - exact E.
Qed.

Lemma native_handleResponse_settled s id p data error :
  JsMap.get String.eqb id (pendingRequests s) = Some p ->
  settled (handleResponse s id data error)
  = settled s ++
    [(settles p,
      match error with
      | Some e => Rejected (WebViewRPCError (ErrorInfo.message e) (ErrorInfo.code e))
      | None => Resolved data
      end)].
Proof. unfold handleResponse. intros ->. destruct error; reflexivity. Qed.

Lemma native_handleResponse_disarms s id p data error :
  JsMap.get String.eqb id (pendingRequests s) = Some p ->
  JsMap.get Nat.eqb (timeoutId p) (timers (handleResponse s id data error)) = None.
Proof.
  unfold handleResponse. intros ->.
  destruct error; simpl; apply JsMapFacts.get_delete_eq.
Qed.

Lemma native_fireTimeout_unarmed c s t :
  JsMap.get Nat.eqb t (timers s) = None -> fireTimeout c s t = s.
Proof. unfold fireTimeout. now intros ->. Qed.

Lemma native_fireTimeout_removes c s t timer :
  JsMap.get Nat.eqb t (timers s) = Some timer ->
  JsMap.get String.eqb (expires timer) (pendingRequests (fireTimeout c s t)) = None.
Proof.
  unfold fireTimeout. intros ->. simpl.
  apply JsMapFacts.get_delete_eq.
Qed.

Lemma native_fireTimeout_settled c s t timer :
  JsMap.get Nat.eqb t (timers s) = Some timer ->
  settled (fireTimeout c s t)
  = settled s ++
    [(rejects timer,
      Rejected (WebViewRPCTimeoutError (timeoutMessage (timeout (config c)))
                  (timeout (config c))))].
Proof. unfold fireTimeout. now intros ->. Qed.

Lemma native_responses_settle_once s id rs :
  length (settled (fold_left (fun s r => handleResponse s id (fst r) (snd r)) rs s))
  <= S (length (settled s)).
Proof.
  destruct rs as [ | r rs ]; simpl; [ lia | ].
  assert (F : forall s', JsMap.get String.eqb id (pendingRequests s') = None ->
                         fold_left (fun s r => handleResponse s id (fst r) (snd r)) rs s'
                         = s').
  { induction rs as [ | r' rs IH ]; intros s' H; simpl; [ reflexivity | ].
    rewrite (native_handleResponse_unknown s' id _ _ H). now apply IH. }
  rewrite F by apply native_handleResponse_removes.
  destruct (JsMap.get String.eqb id (pendingRequests s)) as [ p | ] eqn:E.
  - rewrite (native_handleResponse_settled s id p _ _ E), length_app. simpl. lia.
  - rewrite (native_handleResponse_unknown s id _ _ E). lia.
Qed.

(** *** Dispatch of events *)

Lemma native_callListeners c data hs : forall s,
  let s' := fold_left (callListener c data) hs s in
  invoked s' = invoked s ++ map (fun h => (h, data)) hs /\
  errors s' = errors s ++ (if onError (config c) then thrownBy c data hs else []) /\
  pendingRequests s' = pendingRequests s /\
  nativeHandlers s' = nativeHandlers s /\
  sets s' = sets s /\ timers s' = timers s /\ webView s' = webView s /\
  next s' = next s /\ posted s' = posted s /\ settled s' = settled s /\
  unhandled s' = unhandled s.
Proof.
  induction hs as [ | h hs IH ]; intros s; simpl.
  - rewrite !List.app_nil_r. destruct (onError (config c)); rewrite ?List.app_nil_r;
      repeat split; reflexivity.
  - destruct (IH (callListener c data s h))
      as (I & E & P & EH & St & T & L & N & Po & Se & U).
    rewrite I, E, P, EH, St, T, L, N, Po, Se, U. clear.
    unfold callListener, thrownBy, reportError. simpl.
    destruct (behaviour c h data), (onError (config c)); simpl;
      rewrite <- ?List.app_assoc; repeat split; reflexivity.
Qed.

Lemma native_handleEvent_effect c s event data :
  let s' := handleEvent c s event data in
  invoked s' = invoked s ++ map (fun h => (h, data)) (registered s event) /\
  errors s' = errors s ++
              (if onError (config c) then thrownBy c data (registered s event) else []) /\
  pendingRequests s' = pendingRequests s /\
  nativeHandlers s' = nativeHandlers s /\
  sets s' = sets s /\ timers s' = timers s /\ webView s' = webView s /\
  next s' = next s /\ posted s' = posted s /\ settled s' = settled s /\
  unhandled s' = unhandled s.
Proof.
  unfold handleEvent, registered.
  destruct (JsMap.get String.eqb event (nativeHandlers s)) as [ r | ].
  - apply native_callListeners.
  - simpl. rewrite !List.app_nil_r. destruct (onError (config c));
      rewrite ?List.app_nil_r; repeat split; reflexivity.
Qed.

Lemma native_registered_registerNativeHandler s event h :
  registered (fst (registerNativeHandler s event h)) event
  = JsSet.add Nat.eqb h (registered s event).
Proof.
  unfold registerNativeHandler, registered.
  destruct (JsMap.get String.eqb event (nativeHandlers s)) as [ r | ] eqn:E; simpl.
  - rewrite E. unfold deref. simpl.
    now rewrite (JsMapFacts.get_set_eq Nat.eqb Nat.eqb_eq).
  - rewrite (JsMapFacts.get_set_eq String.eqb String.eqb_eq).
    unfold deref. simpl.
    now rewrite !(JsMapFacts.get_set_eq Nat.eqb Nat.eqb_eq).
Qed.

(** *** The invariant of the executions *)

Lemma native_invariant_frame s s' :
  Invariant s ->
  timers s' = timers s -> settled s' = settled s ->
  pendingRequests s' = pendingRequests s -> sets s' = sets s ->
  next s <= next s' ->
  Invariant s'.
Proof.
  intros (T & P & S) Et Es Ep Ess L. unfold Invariant.
  rewrite Et, Es, Ep, Ess. split; [ | split ]; auto.
  now apply (CorrelationFacts.timersOk_later _ _ (next s)).
Qed.

Lemma native_reportError_frame c s e :
  let s' := reportError c s e in
  timers s' = timers s /\ settled s' = settled s /\
  pendingRequests s' = pendingRequests s /\ sets s' = sets s /\
  next s' = next s /\ invoked s' = invoked s /\
  nativeHandlers s' = nativeHandlers s /\ webView s' = webView s.
Proof. unfold reportError. destruct (onError (config c)); repeat split. Qed.

Lemma native_invariant_reportError c s e : Invariant s -> Invariant (reportError c s e).
Proof.
  intros I. destruct (native_reportError_frame c s e) as (Et & Es & Ep & Ess & En & _).
  eapply native_invariant_frame; eauto. lia.
Qed.

Lemma native_invariant_create attached : Invariant (create attached).
Proof.
  split; [ | split ]; simpl.
  - constructor; simpl; try constructor; tauto.
  - constructor; simpl; try constructor; tauto.
  - intros r hs. discriminate.
Qed.

Lemma native_invariant_failPending s id reason :
  Invariant s -> Invariant (afterwards (failPending s id reason)).
Proof.
  intros (T & P & S). unfold failPending.
  destruct (JsMap.get String.eqb id (pendingRequests s)) as [ p | ] eqn:E; simpl;
    [ | split; [ | split ]; auto ].
  apply (JsMapFacts.get_in String.eqb String.eqb_eq) in E.
  destruct (CorrelationFacts.entry_ok _ _ _ _ id p (Rejected reason) T P E)
    as (T' & P').
  split; [ | split ]; simpl; auto.
Qed.

Lemma native_invariant_postMessage c s m :
  Invariant s -> Invariant (afterwards (postMessage c s m)).
Proof.
  intros I. unfold postMessage. destruct (negb (webView s)).
  - destruct (isEvent m); [ exact I | ]. now apply native_invariant_failPending.
  - destruct (serializer (config c) (toObject m)) as [ str | e ]; simpl.
    + destruct I as (T & P & S). split; [ | split ]; auto.
    + destruct (isRequest m).
      * now apply native_invariant_failPending, native_invariant_reportError.
      * now apply native_invariant_reportError.
Qed.

Lemma native_invariant_recordUnhandled s e :
  Invariant s -> Invariant (recordUnhandled s e).
Proof. intros (T & P & S). split; [ | split ]; auto. Qed.

Lemma native_invariant_finish c s m :
  Invariant s -> Invariant (finish (postMessage c s m)).
Proof.
  intros I. pose proof (native_invariant_postMessage c s m I) as H.
  destruct (postMessage c s m); simpl in *; auto.
Qed.

Lemma native_postMessage_request c s id procedure data ts p :
  JsMap.get String.eqb id (pendingRequests s) = Some p ->
  exists s', postMessage c s (RequestMessage id procedure data ts) = Normal s'.
Proof.
  intros E. unfold postMessage, failPending. simpl.
  destruct (negb (webView s)).
  - rewrite E. eauto.
  - destruct (serializer (config c) _) as [ str | e ]; [ eauto | ].
    destruct (native_reportError_frame c s e) as (_ & _ & Ep & _).
    rewrite Ep, E. eauto.
Qed.

Lemma native_invariant_callWeb c s now id procedure data :
  Invariant s -> Invariant (fst (callWeb c s now id procedure data)).
Proof.
  intros (T & P & S). unfold callWeb.
  destruct (CorrelationFacts.register_ok _ _ _ _ id T P) as (T' & P').
  match goal with
  | |- context [ postMessage c ?s2 ?m ] =>
      assert (I2 : Invariant s2) by (split; [ | split ]; simpl; auto);
      pose proof (native_invariant_postMessage c s2 m I2) as H;
      destruct (native_postMessage_request c s2 id procedure data (Some now)
                  {| settles := next s; timeoutId := next s |}) as [s3 E3]
  end.
  - simpl. apply (JsMapFacts.get_set_eq String.eqb String.eqb_eq).
  - rewrite E3 in *. exact H.
Qed.

Lemma native_invariant_handleResponse s id data error :
  Invariant s -> Invariant (handleResponse s id data error).
Proof.
  intros (T & P & S). unfold handleResponse.
  destruct (JsMap.get String.eqb id (pendingRequests s)) as [ p | ] eqn:E;
    [ | split; [ | split ]; auto ].
  apply (JsMapFacts.get_in String.eqb String.eqb_eq) in E.
  destruct error as [ e | ].
  - destruct (CorrelationFacts.entry_ok _ _ _ _ id p
                (Rejected (WebViewRPCError (ErrorInfo.message e) (ErrorInfo.code e)))
                T P E) as (T' & P').
    split; [ | split ]; simpl; auto.
  - destruct (CorrelationFacts.entry_ok _ _ _ _ id p (Resolved data) T P E)
      as (T' & P').
    split; [ | split ]; simpl; auto.
Qed.

Lemma native_invariant_fireTimeout c s t :
  Invariant s -> Invariant (fireTimeout c s t).
Proof.
  intros (T & P & S). unfold fireTimeout.
  destruct (JsMap.get Nat.eqb t (timers s)) as [ timer | ] eqn:E;
    [ | split; [ | split ]; auto ].
  apply (JsMapFacts.get_in Nat.eqb Nat.eqb_eq) in E.
  destruct (timers_own _ _ _ T t timer E) as (R & _).
  destruct (CorrelationFacts.disarm_ok _ _ _ _ t timer
              (Rejected (WebViewRPCTimeoutError (timeoutMessage (timeout (config c)))
                           (timeout (config c)))) T P E) as (T' & P').
  rewrite R. split; [ | split ]; simpl; auto.
Qed.

Lemma native_invariant_handleEvent c s event data :
  Invariant s -> Invariant (handleEvent c s event data).
Proof.
  intros I. destruct (native_handleEvent_effect c s event data)
    as (_ & _ & Ep & _ & Ess & Et & _ & En & _ & Es & _).
  eapply native_invariant_frame; eauto. lia.
Qed.

Lemma native_invariant_handleRequest c s now id procedure data :
  Invariant s -> Invariant (fst (handleRequest c s now id procedure data)).
Proof.
  intros I. unfold handleRequest. destruct (registered s procedure); simpl.
  - now apply native_invariant_finish.
  - destruct I as (T & P & S). split; [ | split ]; auto.
Qed.

Lemma native_invariant_respondError c s now id e :
  Invariant s -> Invariant (respondError c s now id e).
Proof.
  intros I. unfold respondError.
  match goal with
  | |- context [ postMessage c s ?m ] =>
      pose proof (native_invariant_postMessage c s m I) as H;
      destruct (postMessage c s m); simpl in H
  end.
  - now apply native_invariant_reportError.
  - now apply native_invariant_recordUnhandled.
Qed.

Lemma native_invariant_resume c s now task :
  Invariant s -> Invariant (resume c s now task).
Proof.
  intros I. unfold resume. destruct (outcome task); auto.
  - match goal with
    | |- context [ postMessage c s ?m ] =>
        pose proof (native_invariant_postMessage c s m I) as H;
        destruct (postMessage c s m); simpl in H
    end; auto.
    now apply native_invariant_respondError.
  - now apply native_invariant_respondError.
Qed.

Lemma native_invariant_handleMessage c s now raw :
  Invariant s -> Invariant (fst (handleMessage c s now raw)).
Proof.
  intros I. unfold handleMessage.
  destruct (deserializer (config c) raw) as [ v | e ]; simpl.
  - destruct (asMessage v) as [ [ id p d ts | id d e ts | id ev d ts ] | | ]; simpl.
    + now apply native_invariant_handleRequest.
    + now apply native_invariant_handleResponse.
    + now apply native_invariant_handleEvent.
    + now apply native_invariant_reportError.
    + exact I.
  - now apply native_invariant_reportError.
Qed.

Lemma native_deref_NoDup s r : SetsOk (sets s) -> NoDup (deref s r).
Proof.
  intros S. unfold deref.
  destruct (JsMap.get Nat.eqb r (sets s)) as [ hs | ] eqn:E; [ | constructor ].
  exact (S r hs E).
Qed.

Lemma native_invariant_register s name h :
  Invariant s -> Invariant (fst (registerNativeHandler s name h)).
Proof.
  intros (T & P & S). unfold registerNativeHandler.
  destruct (JsMap.get String.eqb name (nativeHandlers s)) as [ r | ]; simpl.
  - split; [ | split ]; simpl; auto.
    apply CorrelationFacts.setsOk_set; auto.
    apply (JsSetFacts.add_NoDup Nat.eqb Nat.eqb_eq). now apply native_deref_NoDup.
  - split; [ | split ]; simpl; auto.
    + apply (CorrelationFacts.timersOk_later _ _ (next s)); auto.
    + apply CorrelationFacts.setsOk_set.
      * apply CorrelationFacts.setsOk_set; auto. constructor.
      * apply (JsSetFacts.add_NoDup Nat.eqb Nat.eqb_eq).
        unfold deref. simpl.
        rewrite (JsMapFacts.get_set_eq Nat.eqb Nat.eqb_eq). constructor.
Qed.

Lemma native_invariant_unregister s u : Invariant s -> Invariant (unregister s u).
Proof.
  intros (T & P & S). unfold unregister.
  remember (withSets s (JsMap.set Nat.eqb (handlers u)
                          (JsSet.delete Nat.eqb (handler u) (deref s (handlers u)))
                          (sets s))) as s1 eqn:E1.
  assert (I1 : Invariant s1).
  { subst s1. split; [ | split ]; simpl; auto.
    apply CorrelationFacts.setsOk_set; auto.
    apply (JsSetFacts.delete_NoDup Nat.eqb Nat.eqb_eq). now apply native_deref_NoDup. }
  destruct (deref s1 (handlers u)); [ | exact I1 ].
  destruct I1 as (T1 & P1 & S1). split; [ | split ]; simpl; auto.
Qed.

(** The loop of [cleanup]. *)
Lemma native_cancel_loop entries : forall s,
  TimersOk (timers s) (settled s) (next s) -> EntriesOk entries (timers s) ->
  let s' := fold_left cancel entries s in
  TimersOk (timers s') (settled s') (next s') /\
  sets s' = sets s /\
  settled s' = settled s ++
               map (fun e => (settles (snd e), Rejected (Error "Client cleanup called")))
                 entries /\
  (forall e, In e entries -> JsMap.get Nat.eqb (timeoutId (snd e)) (timers s') = None) /\
  (forall t, JsMap.get Nat.eqb t (timers s) = None ->
             JsMap.get Nat.eqb t (timers s') = None) /\
  invoked s' = invoked s /\ posted s' = posted s /\ errors s' = errors s /\
  next s' = next s /\ webView s' = webView s.
Proof.
  induction entries as [ | [id p] entries IH ]; intros s T P; simpl.
  - rewrite List.app_nil_r. split; [ exact T | ]. repeat split; auto. intros e [].
  - assert (H : In (id, p) ((id, p) :: entries)) by now left.
    destruct (CorrelationFacts.entry_ok _ _ _ _ id p
                (Rejected (Error "Client cleanup called")) T P H)
      as (T' & P').
    simpl in P'. rewrite String.eqb_refl in P'.
    rewrite (JsMapFacts.delete_notin String.eqb String.eqb_eq) in P'
      by (pose proof (pending_keys _ _ P) as N; now inversion N).
    destruct (IH (cancel s (id, p)) T' P')
      as (T2 & S2 & Se & D & K & I2 & Po & Er & N2 & L2).
    split; [ exact T2 | ]. repeat split; auto.
    + rewrite Se. simpl. now rewrite <- List.app_assoc.
    + intros e [ <- | He ]; [ | now apply D ].
      apply K. simpl. apply JsMapFacts.get_delete_eq.
    + intros t Ht. apply K. simpl.
      destruct (Nat.eq_dec (timeoutId p) t) as [ <- | Ne ].
      * apply JsMapFacts.get_delete_eq.
      * now rewrite (JsMapFacts.get_delete_neq Nat.eqb Nat.eqb_eq).
Qed.

Lemma native_invariant_cleanup s : Invariant s -> Invariant (cleanup s).
Proof.
  intros (T & P & S).
  destruct (native_cancel_loop (pendingRequests s) s T P) as (T' & S' & _).
  unfold cleanup. split; [ | split ]; simpl; auto.
  - constructor; simpl; [ constructor | intros ? ? [] ].
  - now rewrite S'.
Qed.

Lemma native_invariant_step c s a : Invariant s -> Invariant (step c s a).
Proof.
  intros I. destruct a; simpl.
  - now apply native_invariant_callWeb.
  - now apply native_invariant_postMessage.
  - now apply native_invariant_postMessage.
  - now apply native_invariant_register.
  - now apply native_invariant_register.
  - now apply native_invariant_unregister.
  - now apply native_invariant_handleMessage.
  - now apply native_invariant_resume.
  - now apply native_invariant_fireTimeout.
  - now apply native_invariant_cleanup.
  - exact I.
Qed.

Lemma native_invariant_run c actions : forall s,
  Invariant s -> Invariant (run c s actions).
Proof.
  induction actions as [ | a actions IH ]; intros s I; simpl; auto.
  apply IH. now apply native_invariant_step.
Qed.

(** *** A call that stays unanswered *)

Lemma native_armed_handleResponse s id h id' data error :
  Invariant s ->
  In (h, {| expires := id; rejects := h |}) (timers s) -> id' <> id ->
  In (h, {| expires := id; rejects := h |}) (timers (handleResponse s id' data error)).
Proof.
  intros (T & P & S) H N. unfold handleResponse.
  destruct (JsMap.get String.eqb id' (pendingRequests s)) as [ p | ] eqn:E; auto.
  pose proof (CorrelationFacts.other_entry_timer _ _ _ _ id h id' p T P H E N) as D.
  destruct error; simpl; apply (JsMapFacts.In_delete Nat.eqb Nat.eqb_eq); auto.
Qed.

Lemma native_armed_failPending s (tm : nat * Timer) id' reason :
  In tm (timers s) ->
  (forall p, JsMap.get String.eqb id' (pendingRequests s) = Some p ->
             timeoutId p <> fst tm) ->
  In tm (timers (afterwards (failPending s id' reason))).
Proof.
  intros H D. unfold failPending.
  destruct (JsMap.get String.eqb id' (pendingRequests s)) as [ p | ]; simpl; auto.
  destruct tm as [h timer].
  apply (JsMapFacts.In_delete Nat.eqb Nat.eqb_eq). split; auto.
  intros E. apply (D p eq_refl). now rewrite E.
Qed.

Lemma native_armed_postMessage c s (tm : nat * Timer) m :
  In tm (timers s) ->
  (forall p, JsMap.get String.eqb (messageId m) (pendingRequests s) = Some p ->
             timeoutId p <> fst tm) ->
  In tm (timers (afterwards (postMessage c s m))).
Proof.
  intros H D. unfold postMessage. destruct (negb (webView s)).
  - destruct (isEvent m); auto. now apply native_armed_failPending.
  - destruct (serializer (config c) (toObject m)) as [ str | e ]; simpl; auto.
    destruct (native_reportError_frame c s e) as (Et & _ & Ep & _).
    destruct (isRequest m); simpl.
    + apply native_armed_failPending; rewrite ?Et, ?Ep; auto.
    + now rewrite Et.
Qed.

Lemma native_armed_other c s id h m :
  Invariant s ->
  In (h, {| expires := id; rejects := h |}) (timers s) ->
  messageId m <> id ->
  In (h, {| expires := id; rejects := h |}) (timers (afterwards (postMessage c s m))).
Proof.
  intros (T & P & S) H N. apply native_armed_postMessage; auto.
  intros p E. simpl.
  exact (CorrelationFacts.other_entry_timer _ _ _ _ id h _ p T P H E N).
Qed.

Lemma native_armed_respondError c s now id h id' e :
  Invariant s ->
  In (h, {| expires := id; rejects := h |}) (timers s) -> id' <> id ->
  In (h, {| expires := id; rejects := h |}) (timers (respondError c s now id' e)).
Proof.
  intros I H N. unfold respondError.
  match goal with
  | |- context [ postMessage c s ?m ] =>
      pose proof (native_armed_other c s id h m I H N) as A;
      destruct (postMessage c s m) as [ s1 | s1 thrown ]; simpl in A
  end.
  - destruct (native_reportError_frame c s1 e) as (Et & _). now rewrite Et.
  - exact A.
Qed.

Lemma native_callWeb_effect c s now id procedure data :
  exists s3,
    callWeb c s now id procedure data = (s3, next s) /\
    s3 = afterwards
           (postMessage c
              (withPending
                 (withTimers (withNext s (S (next s)))
                    (JsMap.set Nat.eqb (next s)
                       {| expires := id; rejects := next s |} (timers s)))
                 (JsMap.set String.eqb id
                    {| settles := next s; timeoutId := next s |} (pendingRequests s)))
              (RequestMessage id procedure data (Some now))).
Proof.
  unfold callWeb. cbv zeta.
  match goal with
  | |- context [ postMessage c ?s2 ?m ] =>
      destruct (native_postMessage_request c s2 id procedure data (Some now)
                  {| settles := next s; timeoutId := next s |}) as [s3 E3]
  end.
  - simpl. apply (JsMapFacts.get_set_eq String.eqb String.eqb_eq).
  - simpl in E3 |- *. rewrite E3. exists s3. split; reflexivity.
Qed.

Lemma native_armed_step c s id h a :
  Invariant s ->
  In (h, {| expires := id; rejects := h |}) (timers s) ->
  leavesPending c id h a = true ->
  In (h, {| expires := id; rejects := h |}) (timers (step c s a)).
Proof.
  intros I H L. destruct a; simpl in *; try discriminate L.
  - destruct (native_callWeb_effect c s now id0 procedure data) as (s3 & E & ->).
    rewrite E. simpl. apply native_armed_postMessage.
    + simpl. apply (JsMapFacts.In_set_other Nat.eqb Nat.eqb_eq); auto.
      destruct I as (T & _). destruct (timers_own _ _ _ T _ _ H) as (_ & Lt & _). lia.
    + simpl. rewrite (JsMapFacts.get_set_eq String.eqb String.eqb_eq).
      intros p [= <-]. simpl.
      destruct I as (T & _). destruct (timers_own _ _ _ T _ _ H) as (_ & Lt & _). lia.
  - unfold emitWeb, postMessage. simpl. destruct (negb (webView s)); auto.
    destruct (serializer (config c) _) as [ str | e ]; simpl; auto.
    destruct (native_reportError_frame c s e) as (Et & _). now rewrite Et.
  - unfold emitNative, postMessage. simpl. destruct (negb (webView s)); auto.
    destruct (serializer (config c) _) as [ str | e ]; simpl; auto.
    destruct (native_reportError_frame c s e) as (Et & _). now rewrite Et.
  - unfold registerWebHandler, registerNativeHandler.
    destruct (JsMap.get String.eqb name (nativeHandlers s)); simpl; auto.
  - unfold registerNativeHandler.
    destruct (JsMap.get String.eqb name (nativeHandlers s)); simpl; auto.
  - unfold unregister.
    match goal with
    | |- context [ match ?d with [] => _ | _ :: _ => _ end ] => destruct d
    end; simpl; auto.
  - unfold handleMessage, carriesId in *.
    destruct (deserializer (config c) raw) as [ v | e ]; simpl.
    + destruct (asMessage v) as [ [ id' p d ts | id' d e ts | id' ev d ts ] | | ] eqn:A;
        simpl; auto.
      * apply CoreFacts.asMessage_request in A as (Ty & Id).
        rewrite Ty, Id in L. simpl in L.
        apply negb_true_iff, String.eqb_neq in L.
        unfold handleRequest. destruct (registered s p); simpl; auto.
        match goal with
        | |- context [ postMessage c s ?m ] =>
            pose proof (native_armed_other c s id h m I H L) as A;
            destruct (postMessage c s m); simpl in A |- *; auto
        end.
      * apply native_armed_handleResponse; auto.
        apply CoreFacts.asMessage_response in A as (Ty & Id).
        rewrite Ty, Id in L. simpl in L.
        apply negb_true_iff in L. now apply String.eqb_neq.
      * destruct (native_handleEvent_effect c s ev d)
          as (_ & _ & _ & _ & _ & Et & _). now rewrite Et.
      * match goal with
        | |- context [ reportError c s ?e ] =>
            destruct (native_reportError_frame c s e) as (Et & _); now rewrite Et
        end.
    + destruct (native_reportError_frame c s e) as (Et & _). now rewrite Et.
  - apply negb_true_iff, String.eqb_neq in L.
    unfold resume. destruct (outcome task); auto.
    + match goal with
      | |- context [ postMessage c s ?m ] =>
          pose proof (native_armed_other c s id h m I H L) as A;
          pose proof (native_invariant_postMessage c s m I) as I1;
          destruct (postMessage c s m); simpl in A, I1 |- *; auto
      end.
      now apply native_armed_respondError.
    + now apply native_armed_respondError.
  - unfold fireTimeout.
    destruct (JsMap.get Nat.eqb t (timers s)) as [ timer | ]; simpl; auto.
    apply (JsMapFacts.In_delete Nat.eqb Nat.eqb_eq). split; auto.
    apply negb_true_iff, Nat.eqb_neq in L. congruence.
  - exact H.
Qed.

Lemma native_armed_run c id h actions : forall s,
  Invariant s ->
  In (h, {| expires := id; rejects := h |}) (timers s) ->
  forallb (leavesPending c id h) actions = true ->
  In (h, {| expires := id; rejects := h |}) (timers (run c s actions)).
Proof.
  induction actions as [ | a actions IH ]; intros s I H L; simpl in *; auto.
  apply andb_prop in L as [La L].
  apply IH; auto.
  - now apply native_invariant_step.
  - now apply native_armed_step.
Qed.

(** With a WebView and a serializer that accepts the request, the call
    leaves its entry pending and its timer armed. *)
Lemma native_callWeb_arms c s now id procedure data str :
  webView s = true ->
  serializer (config c) (toObject (RequestMessage id procedure data (Some now)))
  = Serialized str ->
  In (next s, {| expires := id; rejects := next s |})
     (timers (fst (callWeb c s now id procedure data)))
  /\ snd (callWeb c s now id procedure data) = next s
  /\ settled (fst (callWeb c s now id procedure data)) = settled s
  /\ JsMap.get String.eqb id (pendingRequests (fst (callWeb c s now id procedure data)))
     = Some {| settles := next s; timeoutId := next s |}.
Proof.
  intros W E. unfold callWeb, postMessage. cbv zeta. simpl in E |- *.
  rewrite W. simpl. rewrite E. simpl. repeat split.
  - apply JsMapFacts.In_set_same.
  - apply (JsMapFacts.get_set_eq String.eqb String.eqb_eq).
Qed.

(** *** Registration of handlers *)

Lemma native_handleRequest_invoked c s now id procedure data :
  invoked (fst (handleRequest c s now id procedure data))
  = invoked s ++
    match registered s procedure with
    | handler :: _ => [(handler, data)]
    | [] => []
    end.
Proof.
  unfold handleRequest. destruct (registered s procedure); simpl; auto.
  rewrite List.app_nil_r.
  unfold postMessage, failPending. simpl.
  destruct (negb (webView s)).
  - destruct (JsMap.get String.eqb id (pendingRequests s)); reflexivity.
  - destruct (serializer (config c) _) as [ str | e ]; simpl; auto.
    now destruct (native_reportError_frame c s e) as (_ & _ & _ & _ & _ & Ei & _).
Qed.

Lemma native_register_invoked s name h :
  invoked (fst (registerNativeHandler s name h)) = invoked s.
Proof.
  unfold registerNativeHandler.
  destruct (JsMap.get String.eqb name (nativeHandlers s)); reflexivity.
Qed.

Lemma native_registered_register s name h :
  registered (fst (registerNativeHandler s name h)) name
  = JsSet.add Nat.eqb h (registered s name).
Proof. apply native_registered_registerNativeHandler. Qed.

(** The closure of a registration still acts on the set of its name when
    another function has been registered for the name since. *)
Lemma native_stale_unregister s name f g :
  let r1 := registerNativeHandler s name f in
  let r2 := registerNativeHandler (fst r1) name g in
  registered (unregister (fst r2) (snd r1)) name
  = JsSet.delete Nat.eqb f (registered (fst r2) name).
Proof.
  intros r1 r2.
  assert (U : exists r, snd r1 = {| handlers := r; handler := f; nameStr := name |}
                        /\ JsMap.get String.eqb name (nativeHandlers (fst r1)) = Some r).
  { unfold r1, registerNativeHandler.
    destruct (JsMap.get String.eqb name (nativeHandlers s)) as [ r | ] eqn:E; simpl.
    - exists r. now rewrite E.
    - exists (next s). now rewrite (JsMapFacts.get_set_eq String.eqb String.eqb_eq). }
  destruct U as (r & Eu & Er). rewrite Eu.
  assert (E2 : JsMap.get String.eqb name (nativeHandlers (fst r2)) = Some r).
  { unfold r2, registerNativeHandler. now rewrite Er. }
  unfold unregister, registered. simpl.
  assert (D : deref (withSets (fst r2)
                       (JsMap.set Nat.eqb r
                          (JsSet.delete Nat.eqb f (deref (fst r2) r)) (sets (fst r2)))) r
              = JsSet.delete Nat.eqb f (deref (fst r2) r)).
  { unfold deref. simpl. now rewrite (JsMapFacts.get_set_eq Nat.eqb Nat.eqb_eq). }
  rewrite D, E2.
  destruct (JsSet.delete Nat.eqb f (deref (fst r2) r)) eqn:F; simpl.
  - now rewrite JsMapFacts.get_delete_eq.
  - rewrite E2. unfold deref. simpl.
    now rewrite (JsMapFacts.get_set_eq Nat.eqb Nat.eqb_eq).
Qed.

(** *** A serializer that throws *)

Lemma native_callWeb_serializer_throws c s now id procedure data e :
  webView s = true ->
  serializer (config c) (toObject (RequestMessage id procedure data (Some now)))
  = SerThrows e ->
  let s1 := fst (callWeb c s now id procedure data) in
  JsMap.get String.eqb id (pendingRequests s1) = None /\
  JsMap.get Nat.eqb (next s) (timers s1) = None /\
  settled s1 = settled s ++ [(next s, Rejected e)] /\
  errors s1 = errors s ++ (if onError (config c) then [e] else []).
Proof.
  intros W E. unfold callWeb, postMessage. cbv zeta. simpl in E |- *.
  rewrite W. simpl. rewrite E. unfold failPending, reportError.
  destruct (onError (config c)); simpl;
    rewrite (JsMapFacts.get_set_eq String.eqb String.eqb_eq); simpl;
    rewrite !JsMapFacts.get_delete_eq, ?List.app_nil_r; repeat split.
Qed.

(** *** After [cleanup] *)

Lemma native_cleanup_effect s :
  Invariant s ->
  let s' := cleanup s in
  pendingRequests s' = [] /\ nativeHandlers s' = [] /\
  settled s' = settled s ++
               map (fun e => (settles (snd e), Rejected (Error "Client cleanup called")))
                 (pendingRequests s) /\
  (forall e, In e (pendingRequests s) ->
             JsMap.get Nat.eqb (timeoutId (snd e)) (timers s') = None) /\
  invoked s' = invoked s.
Proof.
  intros (T & P & S).
  destruct (native_cancel_loop (pendingRequests s) s T P)
    as (_ & _ & Se & D & _ & Iv & _).
  unfold cleanup. simpl. repeat split; auto.
Qed.

Lemma native_silent_postMessage c s m :
  invoked (afterwards (postMessage c s m)) = invoked s /\
  nativeHandlers (afterwards (postMessage c s m)) = nativeHandlers s.
Proof.
  unfold postMessage, failPending. destruct (negb (webView s)).
  - destruct (isEvent m); [ auto | ].
    destruct (JsMap.get String.eqb (messageId m) (pendingRequests s)); auto.
  - destruct (serializer (config c) (toObject m)) as [ str | e ]; simpl; auto.
    destruct (native_reportError_frame c s e) as (_ & _ & Ep & _ & _ & Ei & Eh & _).
    destruct (isRequest m); simpl; [ | auto ].
    rewrite Ep.
    destruct (JsMap.get String.eqb (messageId m) (pendingRequests s)); simpl; auto.
Qed.

Lemma native_silent_handleMessage c s now raw :
  nativeHandlers s = [] ->
  let r := handleMessage c s now raw in
  snd r = None /\ invoked (fst r) = invoked s /\ nativeHandlers (fst r) = [].
Proof.
  intros E. unfold handleMessage.
  destruct (deserializer (config c) raw) as [ v | e ]; simpl.
  - destruct (asMessage v) as [ [ id p d ts | id d e ts | id ev d ts ] | | ]; simpl.
    + unfold handleRequest, registered. rewrite E. simpl.
      match goal with
      | |- context [ postMessage c s ?m ] =>
          destruct (native_silent_postMessage c s m) as (Ei & Eh);
          destruct (postMessage c s m); simpl in *; rewrite Ei, Eh; auto
      end.
    + unfold handleResponse.
      destruct (JsMap.get String.eqb id (pendingRequests s)); [ | auto ].
      destruct e; simpl; auto.
    + unfold handleEvent. rewrite E. simpl. auto.
    + match goal with
      | |- context [ reportError c s ?e ] =>
          destruct (native_reportError_frame c s e)
            as (_ & _ & _ & _ & _ & Ei & Eh & _)
      end.
      rewrite Ei, Eh. auto.
    + auto.
  - destruct (native_reportError_frame c s e) as (_ & _ & _ & _ & _ & Ei & Eh & _).
    rewrite Ei, Eh. auto.
Qed.

Lemma native_silent_deliveries c raws : forall s,
  nativeHandlers s = [] ->
  invoked (fold_left (fun s m => deliver c s (fst m) (snd m)) raws s) = invoked s.
Proof.
  induction raws as [ | [now raw] raws IH ]; intros s E; simpl; [ reflexivity | ].
  destruct (native_silent_handleMessage c s now raw E) as (N & I & E').
  unfold deliver.
  destruct (handleMessage c s now raw) as [s' [task | ]]; simpl in *;
    [ discriminate | ].
  rewrite IH; auto.
Qed.

End NativeFacts.

(* ================================================================== *)
(** * The claims of the specification *)

(** C1.  A pending request is settled at most once.  In both clients a
    response whose id is not in [pendingRequests] is dropped: the state,
    logs of [resolve]/[reject] calls included, is returned as it was.  A
    response removes the entry it settles and the expiry of a timer removes
    the entry it rejects, so that a second response, or a response after
    the timeout, finds nothing and is dropped; a response disarms the timer
    of its entry, so that the timer does nothing afterwards.  Whatever
    responses arrive for one id, at most one call of [resolve] or [reject]
    is made; and in every execution of a client, whatever the application,
    the peer and the clock do, no promise is settled twice. *)
Theorem response_settles_at_most_once :
  (forall s id, JsMap.get String.eqb id (Web.pendingRequests s) = None ->
                Web.dropsResponse s id) /\
  (forall s id data error, Web.dropsResponse (Web.handleResponse s id data error) id) /\
  (forall c s t timer, JsMap.get Nat.eqb t (Web.timers s) = Some timer ->
                       Web.dropsResponse (Web.fireTimeout c s t) (Correlation.expires timer)) /\
  (forall c s id p data error,
      JsMap.get String.eqb id (Web.pendingRequests s) = Some p ->
      Web.fireTimeout c (Web.handleResponse s id data error) (Correlation.timeoutId p)
      = Web.handleResponse s id data error) /\
  (forall s id rs,
      length (Web.settled
                (fold_left (fun s r => Web.handleResponse s id (fst r) (snd r)) rs s))
      <= S (length (Web.settled s))) /\
  (forall s id, JsMap.get String.eqb id (Native.pendingRequests s) = None ->
                Native.dropsResponse s id) /\
  (forall s id data error,
      Native.dropsResponse (Native.handleResponse s id data error) id) /\
  (forall c s t timer, JsMap.get Nat.eqb t (Native.timers s) = Some timer ->
                       Native.dropsResponse (Native.fireTimeout c s t)
                         (Correlation.expires timer)) /\
  (forall c s id p data error,
      JsMap.get String.eqb id (Native.pendingRequests s) = Some p ->
      Native.fireTimeout c (Native.handleResponse s id data error) (Correlation.timeoutId p)
      = Native.handleResponse s id data error) /\
  (forall s id rs,
      length (Native.settled
                (fold_left (fun s r => Native.handleResponse s id (fst r) (snd r)) rs s))
      <= S (length (Native.settled s))) /\
  (forall c actions,
      NoDup (map fst (Web.settled (Web.run c (Web.create c) actions)))) /\
  (forall c attached actions,
      NoDup (map fst (Native.settled (Native.run c (Native.create attached) actions)))).
Proof.
  repeat match goal with |- _ /\ _ => split end.
  - intros s id H data error. now apply WebFacts.web_handleResponse_unknown.
  - intros s id data error data' error'.
    apply WebFacts.web_handleResponse_unknown, WebFacts.web_handleResponse_removes.
  - intros c s t timer H data error.
    apply WebFacts.web_handleResponse_unknown.
    now apply WebFacts.web_fireTimeout_removes.
  - intros c s id p data error H.
    apply WebFacts.web_fireTimeout_unarmed.
    now apply WebFacts.web_handleResponse_disarms.
  - intros. apply WebFacts.web_responses_settle_once.
  - intros s id H data error. now apply NativeFacts.native_handleResponse_unknown.
  - intros s id data error data' error'.
    apply NativeFacts.native_handleResponse_unknown,
      NativeFacts.native_handleResponse_removes.
  - intros c s t timer H data error.
    apply NativeFacts.native_handleResponse_unknown.
    now apply NativeFacts.native_fireTimeout_removes.
  - intros c s id p data error H.
    apply NativeFacts.native_fireTimeout_unarmed.
    now apply NativeFacts.native_handleResponse_disarms.
  - intros. apply NativeFacts.native_responses_settle_once.
  - intros c actions.
    destruct (WebFacts.web_invariant_run c actions _ (WebFacts.web_invariant_create c))
      as (T & _).
    exact (Correlation.settled_once _ _ _ T).
  - intros c attached actions.
    destruct (NativeFacts.native_invariant_run c actions _
                (NativeFacts.native_invariant_create attached)) as (T & _).
    exact (Correlation.settled_once _ _ _ T).
Qed.

(** On a client that has just been created nothing is pending, and after
    a call and the expiry of its timer the request is no longer pending:
    a response for it is dropped in either case. *)
Lemma response_settles_at_most_once_witness :
  Web.dropsResponse (Web.create Sample.web) "unknown" /\
  Web.dropsResponse
    (Web.fireTimeout Sample.web
       (fst (Web.call Sample.web (Web.create Sample.web) "id-1" "share" JNull)) 0)
    "id-1" /\
  Native.dropsResponse (Native.create true) "unknown" /\
  Native.dropsResponse
    (Native.fireTimeout Sample.native
       (fst (Native.callWeb Sample.native (Native.create true) 0 "id-1" "navigate" JNull))
       0)
    "id-1".
Proof.
  destruct response_settles_at_most_once
    as (W1 & _ & W3 & _ & _ & N1 & _ & N3 & _ & _ & _ & _).
  split; [ | split; [ | split ] ].
  - apply W1. reflexivity.
  - apply (W3 Sample.web _ 0 {| Correlation.expires := "id-1"; Correlation.rejects := 0 |}).
    reflexivity.
  - apply N1. reflexivity.
  - apply (N3 Sample.native _ 0 {| Correlation.expires := "id-1"; Correlation.rejects := 0 |}).
    reflexivity.
Defined.

(** C2.  A request that stays unanswered is timed out.  Take any execution
    of a client, then a call that is sent (the web client inside a WebView;
    the native client with a WebView and a serializer that accepts the
    request), then any actions among which no response for the request
    arrives (and the client is not cleaned up): the promise of the call is
    still unsettled and its timer armed, and when the timer expires the
    entry is removed from [pendingRequests] and the promise is rejected,
    once, with a [WebViewRPCTimeoutError] whose code is [TIMEOUT], whose
    [timeout] is the configured duration and whose message embeds that
    duration in decimal; for 100 the message is
    "Request timed out after 100ms".  More generally, in every execution a
    timer that is armed belongs to a promise that is not settled, and its
    expiry removes the entry and rejects the promise in this way. *)
Theorem unanswered_call_times_out :
  (forall c history id procedure data between,
      Web.isWebView c = true ->
      forallb (Web.leavesPending c id
                 (Web.next (Web.run c (Web.create c) history))) between = true ->
      let s := Web.run c (Web.create c) history in
      let h := snd (Web.call c s id procedure data) in
      let s2 := Web.run c (fst (Web.call c s id procedure data)) between in
      let s3 := Web.fireTimeout c s2 h in
      ~ In h (map fst (Web.settled s2)) /\
      Web.settled s3
      = Web.settled s2 ++
        [(h, Core.Rejected
               (Core.WebViewRPCTimeoutError
                  (Web.timeoutMessage (Web.timeout (Web.config c)))
                  (Web.timeout (Web.config c))))] /\
      JsMap.get String.eqb id (Web.pendingRequests s3) = None /\
      JsMap.get Nat.eqb h (Web.timers s3) = None) /\
  (forall c attached history now id procedure data str between,
      let s := Native.run c (Native.create attached) history in
      Native.webView s = true ->
      Native.serializer (Native.config c)
        (Core.toObject (Core.RequestMessage id procedure data (Some now)))
      = Core.Serialized str ->
      forallb (Native.leavesPending c id (Native.next s)) between = true ->
      let h := snd (Native.callWeb c s now id procedure data) in
      let s2 := Native.run c (fst (Native.callWeb c s now id procedure data)) between in
      let s3 := Native.fireTimeout c s2 h in
      ~ In h (map fst (Native.settled s2)) /\
      Native.settled s3
      = Native.settled s2 ++
        [(h, Core.Rejected
               (Core.WebViewRPCTimeoutError
                  (Native.timeoutMessage (Native.timeout (Native.config c)))
                  (Native.timeout (Native.config c))))] /\
      JsMap.get String.eqb id (Native.pendingRequests s3) = None /\
      JsMap.get Nat.eqb h (Native.timers s3) = None) /\
  (forall c history t timer,
      let s := Web.run c (Web.create c) history in
      JsMap.get Nat.eqb t (Web.timers s) = Some timer ->
      ~ In (Correlation.rejects timer) (map fst (Web.settled s)) /\
      Web.settled (Web.fireTimeout c s t)
      = Web.settled s ++
        [(Correlation.rejects timer,
          Core.Rejected
            (Core.WebViewRPCTimeoutError
               (Web.timeoutMessage (Web.timeout (Web.config c)))
               (Web.timeout (Web.config c))))] /\
      JsMap.get String.eqb (Correlation.expires timer)
        (Web.pendingRequests (Web.fireTimeout c s t)) = None) /\
  (forall c attached history t timer,
      let s := Native.run c (Native.create attached) history in
      JsMap.get Nat.eqb t (Native.timers s) = Some timer ->
      ~ In (Correlation.rejects timer) (map fst (Native.settled s)) /\
      Native.settled (Native.fireTimeout c s t)
      = Native.settled s ++
        [(Correlation.rejects timer,
          Core.Rejected
            (Core.WebViewRPCTimeoutError
               (Native.timeoutMessage (Native.timeout (Native.config c)))
               (Native.timeout (Native.config c))))] /\
      JsMap.get String.eqb (Correlation.expires timer)
        (Native.pendingRequests (Native.fireTimeout c s t)) = None) /\
  (forall ms,
      JSError.code (Core.WebViewRPCTimeoutError (Web.timeoutMessage ms) ms)
      = Some "TIMEOUT" /\
      JSError.timeout (Core.WebViewRPCTimeoutError (Web.timeoutMessage ms) ms)
      = Some ms /\
      JSError.message (Core.WebViewRPCTimeoutError (Web.timeoutMessage ms) ms)
      = ("Request timed out after " ++ Json.showZ ms ++ "ms")%string /\
      Native.timeoutMessage ms = Web.timeoutMessage ms) /\
  Web.timeoutMessage 100 = "Request timed out after 100ms".
Proof.
  split; [ | split; [ | split; [ | split; [ | split ] ] ] ].
  - intros c history id procedure data between W L s h s2 s3.
    pose proof (WebFacts.web_invariant_run c history _ (WebFacts.web_invariant_create c))
      as I. fold s in I.
    destruct (WebFacts.web_call_arms c s id procedure data W) as (A & Eh & _).
    pose proof (WebFacts.web_invariant_call c s id procedure data I) as I1.
    assert (A2 : In (h, {| Correlation.expires := id; Correlation.rejects := h |})
                    (Web.timers s2)).
    { unfold h, s2. rewrite Eh. now apply WebFacts.web_armed_run. }
    pose proof (WebFacts.web_invariant_run c between _ I1) as I2. fold s2 in I2.
    destruct I2 as (T2 & P2 & _).
    assert (G : JsMap.get Nat.eqb h (Web.timers s2)
                = Some {| Correlation.expires := id; Correlation.rejects := h |}).
    { apply (JsMapFacts.In_get Nat.eqb Nat.eqb_eq); auto.
      exact (Correlation.timers_keys _ _ _ T2). }
    split; [ | split; [ | split ] ].
    + now destruct (Correlation.timers_own _ _ _ T2 _ _ A2) as (_ & _ & U).
    + unfold s3. now rewrite (WebFacts.web_fireTimeout_settled c s2 h _ G).
    + exact (WebFacts.web_fireTimeout_removes c s2 h _ G).
    + unfold s3, Web.fireTimeout. rewrite G. simpl. apply JsMapFacts.get_delete_eq.
  - intros c attached history now id procedure data str between s W E L h s2 s3.
    pose proof (NativeFacts.native_invariant_run c history _
                  (NativeFacts.native_invariant_create attached)) as I. fold s in I.
    destruct (NativeFacts.native_callWeb_arms c s now id procedure data str W E)
      as (A & Eh & _).
    pose proof (NativeFacts.native_invariant_callWeb c s now id procedure data I) as I1.
    assert (A2 : In (h, {| Correlation.expires := id; Correlation.rejects := h |})
                    (Native.timers s2)).
    { unfold h, s2. rewrite Eh. now apply NativeFacts.native_armed_run. }
    pose proof (NativeFacts.native_invariant_run c between _ I1) as I2. fold s2 in I2.
    destruct I2 as (T2 & P2 & _).
    assert (G : JsMap.get Nat.eqb h (Native.timers s2)
                = Some {| Correlation.expires := id; Correlation.rejects := h |}).
    { apply (JsMapFacts.In_get Nat.eqb Nat.eqb_eq); auto.
      exact (Correlation.timers_keys _ _ _ T2). }
    split; [ | split; [ | split ] ].
    + now destruct (Correlation.timers_own _ _ _ T2 _ _ A2) as (_ & _ & U).
    + unfold s3. now rewrite (NativeFacts.native_fireTimeout_settled c s2 h _ G).
    + exact (NativeFacts.native_fireTimeout_removes c s2 h _ G).
    + unfold s3, Native.fireTimeout. rewrite G. simpl. apply JsMapFacts.get_delete_eq.
  - intros c history t timer s G.
    destruct (WebFacts.web_invariant_run c history _ (WebFacts.web_invariant_create c))
      as (T & _). fold s in T.
    pose proof (JsMapFacts.get_in Nat.eqb Nat.eqb_eq _ _ _ G) as A.
    destruct (Correlation.timers_own _ _ _ T _ _ A) as (R & _ & U).
    split; [ now rewrite R | split ].
    + apply WebFacts.web_fireTimeout_settled, G.
    + apply WebFacts.web_fireTimeout_removes, G.
  - intros c attached history t timer s G.
    destruct (NativeFacts.native_invariant_run c history _
                (NativeFacts.native_invariant_create attached)) as (T & _). fold s in T.
    pose proof (JsMapFacts.get_in Nat.eqb Nat.eqb_eq _ _ _ G) as A.
    destruct (Correlation.timers_own _ _ _ T _ _ A) as (R & _ & U).
    split; [ now rewrite R | split ].
    + apply NativeFacts.native_fireTimeout_settled, G.
    + apply NativeFacts.native_fireTimeout_removes, G.
  - intros ms. repeat split.
  - reflexivity.
Qed.

(** The scenario of the specification: a timeout of 100, a peer that sends
    an event and garbage but never the response. *)
Lemma unanswered_call_times_out_witness :
  Web.settled
    (Web.fireTimeout Sample.web
       (Web.run Sample.web
          (fst (Web.call Sample.web (Web.create Sample.web) "id-1" "share" JNull))
          [Web.Received
             (Sample.encode (Core.EventMessage "e-1" "appStateChange" JNull None));
           Web.Received "{"; Web.Call "id-2" "share" JNull; Web.TimedOut 7])
       0)
  = [(0, Core.Rejected
           (Core.WebViewRPCTimeoutError "Request timed out after 100ms" 100))] /\
  Native.settled
    (Native.fireTimeout Sample.native
       (Native.run Sample.native
          (fst (Native.callWeb Sample.native (Native.create true) 5 "id-1" "navigate"
                  JNull))
          [Native.HandleMessage 6 "{"; Native.WebViewRef false])
       0)
  = [(0, Core.Rejected
           (Core.WebViewRPCTimeoutError "Request timed out after 100ms" 100))].
Proof.
  destruct unanswered_call_times_out as (W & N & _). split.
  - exact (proj1 (proj2 (W Sample.web [] "id-1" "share" JNull
                           [Web.Received
                              (Sample.encode
                                 (Core.EventMessage "e-1" "appStateChange" JNull None));
                            Web.Received "{"; Web.Call "id-2" "share" JNull;
                            Web.TimedOut 7]
                           eq_refl eq_refl))).
  - exact (proj1 (proj2 (N Sample.native true [] 5%Z "id-1" "navigate" JNull _
                           [Native.HandleMessage 6 "{"; Native.WebViewRef false]
                           eq_refl eq_refl eq_refl))).
Defined.

(** C3.  What the two clients do when the serializer throws on an outbound
    request.  Both pass the error to [onError] (when there is one).  The
    native client then, in the same call of [postMessage], removes the
    entry of the request, disarms its timer and rejects its promise with
    that error, as the claim says.  The web client does nothing else:
    [postToNative] returns with the entry still in [pendingRequests], the
    timer still armed and the promise unsettled, so that the caller waits
    for the timeout. *)
Theorem serializer_throw_on_request :
  (forall c s id procedure data e,
      Web.isWebView c = true ->
      Web.serializer (Web.config c)
        (Core.toObject (Core.RequestMessage id procedure data None))
      = Core.SerThrows e ->
      let s1 := fst (Web.call c s id procedure data) in
      JsMap.get String.eqb id (Web.pendingRequests s1)
      = Some {| Correlation.settles := Web.next s; Correlation.timeoutId := Web.next s |}
      /\ In (Web.next s, {| Correlation.expires := id; Correlation.rejects := Web.next s |})
            (Web.timers s1)
      /\ Web.settled s1 = Web.settled s
      /\ Web.errors s1
         = Web.errors s ++ (if Web.onError (Web.config c) then [e] else [])) /\
  (forall c s now id procedure data e,
      Native.webView s = true ->
      Native.serializer (Native.config c)
        (Core.toObject (Core.RequestMessage id procedure data (Some now)))
      = Core.SerThrows e ->
      let s1 := fst (Native.callWeb c s now id procedure data) in
      JsMap.get String.eqb id (Native.pendingRequests s1) = None
      /\ JsMap.get Nat.eqb (Native.next s) (Native.timers s1) = None
      /\ Native.settled s1 = Native.settled s ++ [(Native.next s, Core.Rejected e)]
      /\ Native.errors s1
         = Native.errors s ++ (if Native.onError (Native.config c) then [e] else [])).
Proof.
  split.
  - intros. now apply WebFacts.web_call_serializer_throws.
  - intros. now apply NativeFacts.native_callWeb_serializer_throws.
Qed.

(** A web client and a native client whose serializer always throws: the
    promise of the web call is left unsettled, that of the native call is
    rejected at once. *)
Lemma serializer_throw_on_request_witness :
  Web.settled
    (fst (Web.call Sample.webBadSerializer (Web.create Sample.webBadSerializer)
            "id-1" "navigate" (JObj [("path", JStr "/home")])))
  = [] /\
  Native.settled
    (fst (Native.callWeb Sample.nativeBadSerializer (Native.create true) 0
            "id-1" "navigate" (JObj [("path", JStr "/home")])))
  = [(0, Core.Rejected (Core.Error "Serialization error"))].
Proof.
  destruct serializer_throw_on_request as (W & N). split.
  - exact (proj1 (proj2 (proj2
             (W Sample.webBadSerializer (Web.create Sample.webBadSerializer)
                "id-1" "navigate" (JObj [("path", JStr "/home")])
                (Core.Error "Serialization failed") eq_refl eq_refl)))).
  - exact (proj1 (proj2 (proj2
             (N Sample.nativeBadSerializer (Native.create true) 0%Z
                "id-1" "navigate" (JObj [("path", JStr "/home")])
                (Core.Error "Serialization error") eq_refl eq_refl)))).
Defined.

(** The web client at that input: the entry of the call is not removed and
    its promise is not rejected with the error of the serializer; it is the
    expiry of the timer that rejects it, with a timeout error. *)
Lemma web_call_pending_after_serializer_throw :
  ~ (JsMap.get String.eqb "id-1"
       (Web.pendingRequests
          (fst (Web.call Sample.webBadSerializer (Web.create Sample.webBadSerializer)
                  "id-1" "navigate" (JObj [("path", JStr "/home")]))))
     = None /\
     In (0, Core.Rejected (Core.Error "Serialization failed"))
        (Web.settled
           (fst (Web.call Sample.webBadSerializer (Web.create Sample.webBadSerializer)
                   "id-1" "navigate" (JObj [("path", JStr "/home")]))))) /\
  Web.settled
    (Web.fireTimeout Sample.webBadSerializer
       (fst (Web.call Sample.webBadSerializer (Web.create Sample.webBadSerializer)
               "id-1" "navigate" (JObj [("path", JStr "/home")])))
       0)
  = [(0, Core.Rejected
           (Core.WebViewRPCTimeoutError "Request timed out after 5000ms" 5000))].
Proof.
  split.
  - vm_compute. intros [H _]. discriminate H.
  - reflexivity.
Qed.

(** C4 as stated fails in the web client: after handler 2 has replaced
    handler 3 for [navigate], the unregister function of handler 3 leaves
    no handler registered. *)
Lemma web_stale_unregister_removes_replacement :
  JsMap.get String.eqb "navigate"
    (Web.procedureHandlers
       (Web.unregister
          (fst (Web.handleWebProcedure
                  (fst (Web.handleWebProcedure (Web.create Sample.web) "navigate" 3))
                  "navigate" 2))
          (snd (Web.handleWebProcedure (Web.create Sample.web) "navigate" 3))))
  <> Some 2.
Proof. vm_compute. discriminate. Qed.

(** C4 (amended).  In the web client the unregister function of a request
    handler deletes whatever is registered for the operation: once [g] has
    replaced [f], calling the unregister function of [f] leaves no handler
    for the operation.  In the native client the handlers of a name are
    kept in a set and the unregister function of [f] deletes [f] from it:
    with [g] another function registered after [f], [g] stays registered
    and [f] does not. *)
Theorem stale_unregister :
  (forall s procedure f g,
      let r1 := Web.handleWebProcedure s procedure f in
      let r2 := Web.handleWebProcedure (fst r1) procedure g in
      JsMap.get String.eqb procedure (Web.procedureHandlers (fst r2)) = Some g /\
      JsMap.get String.eqb procedure
        (Web.procedureHandlers (Web.unregister (fst r2) (snd r1))) = None) /\
  (forall s name f g,
      f <> g ->
      let r1 := Native.registerNativeHandler s name f in
      let r2 := Native.registerNativeHandler (fst r1) name g in
      In g (Native.registered (fst r2) name) /\
      In g (Native.registered (Native.unregister (fst r2) (snd r1)) name) /\
      ~ In f (Native.registered (Native.unregister (fst r2) (snd r1)) name)).
Proof.
  split.
  - intros s procedure f g r1 r2. simpl. split.
    + apply (JsMapFacts.get_set_eq String.eqb String.eqb_eq).
    + apply JsMapFacts.get_delete_eq.
  - intros s name f g N r1 r2.
    pose proof (NativeFacts.native_stale_unregister s name f g) as U.
    cbv zeta in U. fold r1 in U. fold r2 in U. rewrite U.
    assert (G : In g (Native.registered (fst r2) name)).
    { unfold r2. rewrite NativeFacts.native_registered_register.
      apply (JsSetFacts.member_add Nat.eqb Nat.eqb_eq). now right. }
    split; [ exact G | split ].
    + apply (JsSetFacts.member_delete Nat.eqb Nat.eqb_eq). split; auto.
    + rewrite (JsSetFacts.member_delete Nat.eqb Nat.eqb_eq). tauto.
Qed.

Lemma stale_unregister_witness :
  3 <> 2 /\
  In 2 (Native.registered
          (Native.unregister
             (fst (Native.registerNativeHandler
                     (fst (Native.registerNativeHandler (Native.create true)
                             "navigate" 3))
                     "navigate" 2))
             (snd (Native.registerNativeHandler (Native.create true) "navigate" 3)))
          "navigate").
Proof.
  split; [ discriminate | ].
  exact (proj1 (proj2 (proj2 stale_unregister (Native.create true) "navigate" 3 2
                         ltac:(discriminate)))).
Defined.

(** C5 as stated fails in the native client: with handler 2 registered for
    [navigate] and then handler 3, a request for [navigate] invokes handler
    2, the first of the set, and not handler 3. *)
Lemma native_request_runs_first_registered :
  Native.invoked
    (fst (Native.handleRequest Sample.native
            (fst (Native.registerNativeHandler
                    (fst (Native.registerNativeHandler (Native.create true)
                            "navigate" 2))
                    "navigate" 3))
            0 "req-1" "navigate" JNull))
  <> [(3, JNull)].
Proof. vm_compute. discriminate. Qed.

(** C5 (amended).  At most one handler is invoked per inbound request: the
    one the web client holds for the procedure, the first one of the set
    the native client holds for it, none when there is none.  In the web
    client a registration replaces the handler of the operation: after [f]
    then [g], a request invokes [g] and only [g].  In the native client a
    registration adds to a set: after [f] then [g] on a name that had no
    handler, a request invokes [f] and only [f]. *)
Theorem one_handler_per_request :
  (forall c s id procedure data,
      Web.invoked (fst (Web.handleRequest c s id procedure data))
      = Web.invoked s ++
        match JsMap.get String.eqb procedure (Web.procedureHandlers s) with
        | Some handler => [(handler, data)]
        | None => []
        end) /\
  (forall c s procedure f g id data,
      let s2 := fst (Web.handleWebProcedure (fst (Web.handleWebProcedure s procedure f))
                       procedure g) in
      Web.invoked (fst (Web.handleRequest c s2 id procedure data))
      = Web.invoked s ++ [(g, data)]) /\
  (forall c s now id procedure data,
      Native.invoked (fst (Native.handleRequest c s now id procedure data))
      = Native.invoked s ++
        match Native.registered s procedure with
        | handler :: _ => [(handler, data)]
        | [] => []
        end) /\
  (forall c s name f g now id data,
      Native.registered s name = [] ->
      let s2 := fst (Native.registerNativeHandler
                       (fst (Native.registerNativeHandler s name f)) name g) in
      Native.invoked (fst (Native.handleRequest c s2 now id name data))
      = Native.invoked s ++ [(f, data)]).
Proof.
  split; [ | split; [ | split ] ].
  - intros. apply WebFacts.web_handleRequest_invoked.
  - intros c s procedure f g id data s2.
    rewrite WebFacts.web_handleRequest_invoked. unfold s2. simpl.
    now rewrite (JsMapFacts.get_set_eq String.eqb String.eqb_eq).
  - intros. apply NativeFacts.native_handleRequest_invoked.
  - intros c s name f g now id data E s2.
    rewrite NativeFacts.native_handleRequest_invoked. unfold s2.
    rewrite !NativeFacts.native_registered_register, E.
    rewrite !NativeFacts.native_register_invoked. unfold JsSet.add. simpl.
    destruct (Nat.eqb g f); reflexivity.
Qed.

Lemma one_handler_per_request_witness :
  Native.registered (Native.create true) "navigate" = [] /\
  Native.invoked
    (fst (Native.handleRequest Sample.native
            (fst (Native.registerNativeHandler
                    (fst (Native.registerNativeHandler (Native.create true)
                            "navigate" 2))
                    "navigate" 3))
            0 "req-1" "navigate" JNull))
  = [(2, JNull)].
Proof.
  split; [ reflexivity | ].
  exact (proj2 (proj2 (proj2 one_handler_per_request)) Sample.native
           (Native.create true) "navigate" 2 3 0%Z "req-1" JNull eq_refl).
Defined.

(** C6.  Dispatching an event calls every function registered for its
    name, once each and in the order of their registration, within the one
    call of [handleEvent]; the errors they throw are passed to [onError]
    (when there is one) in that order, and a function that throws does not
    keep the following ones from being called.  In every execution of a
    client the functions registered for a name are pairwise distinct, and
    a registration puts its function after those already registered,
    unless it is among them. *)
Theorem event_reaches_every_listener :
  (forall c history event data,
      let s := Web.run c (Web.create c) history in
      let s' := Web.handleEvent c s event data in
      NoDup (Web.listeners s event) /\
      Web.invoked s' = Web.invoked s ++ map (fun h => (h, data)) (Web.listeners s event) /\
      Web.errors s'
      = Web.errors s ++
        (if Web.onError (Web.config c)
         then Web.thrownBy c data (Web.listeners s event) else [])) /\
  (forall s event h,
      Web.listeners (fst (Web.handleNativeEvent s event h)) event
      = JsSet.add Nat.eqb h (Web.listeners s event)) /\
  (forall c attached history event data,
      let s := Native.run c (Native.create attached) history in
      let s' := Native.handleEvent c s event data in
      NoDup (Native.registered s event) /\
      Native.invoked s'
      = Native.invoked s ++ map (fun h => (h, data)) (Native.registered s event) /\
      Native.errors s'
      = Native.errors s ++
        (if Native.onError (Native.config c)
         then Native.thrownBy c data (Native.registered s event) else [])) /\
  (forall s event h,
      Native.registered (fst (Native.registerNativeHandler s event h)) event
      = JsSet.add Nat.eqb h (Native.registered s event)).
Proof.
  split; [ | split; [ | split ] ].
  - intros c history event data s s'.
    destruct (WebFacts.web_invariant_run c history _ (WebFacts.web_invariant_create c))
      as (_ & _ & S).
    destruct (WebFacts.web_handleEvent_effect c s event data) as (I & E & _).
    split; [ | split; assumption ].
    unfold Web.listeners.
    destruct (JsMap.get String.eqb event (Web.eventHandlers s)); [ | constructor ].
    now apply WebFacts.web_deref_NoDup.
  - apply WebFacts.web_listeners_handleNativeEvent.
  - intros c attached history event data s s'.
    destruct (NativeFacts.native_invariant_run c history _
                (NativeFacts.native_invariant_create attached)) as (_ & _ & S).
    destruct (NativeFacts.native_handleEvent_effect c s event data) as (I & E & _).
    split; [ | split; assumption ].
    unfold Native.registered.
    destruct (JsMap.get String.eqb event (Native.nativeHandlers s)); [ | constructor ].
    now apply NativeFacts.native_deref_NoDup.
  - apply NativeFacts.native_registered_register.
Qed.

(** Handlers 2, 1 and 3 registered in this order for [appStateChange],
    handler 2 twice; handler 1 throws. *)
Lemma event_reaches_every_listener_witness :
  Web.invoked
    (Web.handleEvent Sample.web
       (Web.run Sample.web (Web.create Sample.web)
          [Web.HandleNativeEvent "appStateChange" 2;
           Web.HandleNativeEvent "appStateChange" 1;
           Web.HandleNativeEvent "appStateChange" 2;
           Web.HandleNativeEvent "appStateChange" 3])
       "appStateChange" (JStr "active"))
  = [(2, JStr "active"); (1, JStr "active"); (3, JStr "active")] /\
  Web.errors
    (Web.handleEvent Sample.web
       (Web.run Sample.web (Web.create Sample.web)
          [Web.HandleNativeEvent "appStateChange" 2;
           Web.HandleNativeEvent "appStateChange" 1;
           Web.HandleNativeEvent "appStateChange" 2;
           Web.HandleNativeEvent "appStateChange" 3])
       "appStateChange" (JStr "active"))
  = [Core.Error "boom"].
Proof.
  destruct (proj1 event_reaches_every_listener Sample.web
              [Web.HandleNativeEvent "appStateChange" 2;
               Web.HandleNativeEvent "appStateChange" 1;
               Web.HandleNativeEvent "appStateChange" 2;
               Web.HandleNativeEvent "appStateChange" 3]
              "appStateChange" (JStr "active")) as (_ & I & E).
  split; [ exact I | exact E ].
Defined.



(** C8.  In every execution, [cleanup] rejects the promise of every entry
    of [pendingRequests], each once and all with the same error (a
    [WebViewRPCError] with code [CLEANUP] in the web client,
    [Error("Client cleanup called")] in the native client), leaves the
    timer of no entry armed, and empties [pendingRequests]; whatever
    messages are received afterwards, no handler is invoked (in the web
    client also when [handleMessage] is called although [cleanup] has
    detached it from the window). *)
Theorem cleanup_rejects_pending_and_silences :
  (forall c history,
      let s := Web.run c (Web.create c) history in
      let s' := Web.cleanup c s in
      Web.settled s'
      = Web.settled s ++
        map (fun e => (Correlation.settles (snd e),
                       Core.Rejected (Core.WebViewRPCError "Client cleanup" "CLEANUP")))
          (Web.pendingRequests s) /\
      (forall e, In e (Web.pendingRequests s) ->
                 JsMap.get Nat.eqb (Correlation.timeoutId (snd e)) (Web.timers s') = None) /\
      Web.pendingRequests s' = [] /\
      (forall raws,
          Web.invoked (fold_left (Web.deliver c) raws s') = Web.invoked s) /\
      (forall raw,
          Web.invoked (fst (Web.handleMessage c s' raw)) = Web.invoked s)) /\
  (forall c attached history,
      let s := Native.run c (Native.create attached) history in
      let s' := Native.cleanup s in
      Native.settled s'
      = Native.settled s ++
        map (fun e => (Correlation.settles (snd e),
                       Core.Rejected (Core.Error "Client cleanup called")))
          (Native.pendingRequests s) /\
      (forall e, In e (Native.pendingRequests s) ->
                 JsMap.get Nat.eqb (Correlation.timeoutId (snd e)) (Native.timers s')
                 = None) /\
      Native.pendingRequests s' = [] /\
      (forall raws,
          Native.invoked
            (fold_left (fun s m => Native.deliver c s (fst m) (snd m)) raws s')
          = Native.invoked s)).
Proof.
  split.
  - intros c history s s'.
    pose proof (WebFacts.web_invariant_run c history _ (WebFacts.web_invariant_create c))
      as I.
    destruct (WebFacts.web_cleanup_effect c s I) as (P & E & H & Se & D & Iv & _).
    repeat split; auto.
    + intros raws. rewrite WebFacts.web_silent_deliveries; auto.
    + intros raw.
      destruct (WebFacts.web_silent_handleMessage c s' raw E H) as (_ & Ei & _).
      now rewrite Ei.
  - intros c attached history s s'.
    pose proof (NativeFacts.native_invariant_run c history _
                  (NativeFacts.native_invariant_create attached)) as I.
    destruct (NativeFacts.native_cleanup_effect s I) as (P & H & Se & D & Iv).
    repeat split; auto.
    intros raws. rewrite NativeFacts.native_silent_deliveries; auto.
Qed.

(** Two calls are pending and a handler is registered when the client is
    cleaned up; a request and an event arrive afterwards. *)
Lemma cleanup_rejects_pending_and_silences_witness :
  Web.settled
    (Web.cleanup Sample.web
       (Web.run Sample.web (Web.create Sample.web)
          [Web.Call "id-1" "share" JNull; Web.HandleWebProcedure "navigate" 2;
           Web.Call "id-2" "share" JNull]))
  = [(0, Core.Rejected (Core.WebViewRPCError "Client cleanup" "CLEANUP"));
     (1, Core.Rejected (Core.WebViewRPCError "Client cleanup" "CLEANUP"))] /\
  Web.invoked
    (fold_left (Web.deliver Sample.web)
       [Sample.encode (Core.RequestMessage "r-1" "navigate" JNull (Some 9%Z));
        Sample.encode (Core.EventMessage "e-1" "appStateChange" JNull (Some 9%Z));
        "[1,2"]
       (Web.cleanup Sample.web
          (Web.run Sample.web (Web.create Sample.web)
             [Web.Call "id-1" "share" JNull; Web.HandleWebProcedure "navigate" 2;
              Web.Call "id-2" "share" JNull])))
  = [].
Proof.
  destruct (proj1 cleanup_rejects_pending_and_silences Sample.web
              [Web.Call "id-1" "share" JNull; Web.HandleWebProcedure "navigate" 2;
               Web.Call "id-2" "share" JNull]) as (S & _ & _ & Q & _).
  split; [ exact S | ].
  exact (Q [Sample.encode (Core.RequestMessage "r-1" "navigate" JNull (Some 9%Z));
            Sample.encode (Core.EventMessage "e-1" "appStateChange" JNull (Some 9%Z));
            "[1,2"]).
Defined.






(* ================================================================== *)
(** * Further properties *)

(** ** Correlation ids *)

Module CorrelationIdFacts.
Import CorrelationId.

Lemma nibble_range x : inUnitInterval x -> (0 <= nibble x < 16)%Z.
Proof.
  intros [H0 H1]. destruct x as [n d].
  unfold QArith_base.Qle, QArith_base.Qlt in *. simpl in H0, H1.
  assert (Hn : (0 <= n)%Z) by lia.
  assert (Hd : (n < Z.pos d)%Z) by lia.
  unfold nibble, toInt32, truncate.
  assert (B : QArith_base.Qle_bool (QArith_base.inject_Z 0)
                (QArith_base.Qmult (QArith_base.Qmake n d) (QArith_base.inject_Z 16))
              = true).
  { apply QArith_base.Qle_bool_iff. unfold QArith_base.Qle. simpl. lia. }
  rewrite B. unfold Qround.Qfloor.
  cbn [QArith_base.Qmult QArith_base.Qnum QArith_base.Qden QArith_base.inject_Z].
  assert (F : (0 <= (n * 16) / Z.pos (d * 1) < 16)%Z).
  { replace (Z.pos (d * 1)) with (Z.pos d) by (f_equal; lia).
    split.
    - apply Z.div_pos; lia.
    - apply Z.div_lt_upper_bound; lia. }
  set (q := (n * 16 / Z.pos (d * 1))%Z) in *.
  rewrite Z.mod_small; lia.
Qed.

Lemma range_cases r : (0 <= r < 16)%Z ->
  In r [0; 1; 2; 3; 4; 5; 6; 7; 8; 9; 10; 11; 12; 13; 14; 15]%Z.
Proof.
  intros H. simpl.
  assert (r = 0 \/ r = 1 \/ r = 2 \/ r = 3 \/ r = 4 \/ r = 5 \/ r = 6 \/ r = 7 \/
          r = 8 \/ r = 9 \/ r = 10 \/ r = 11 \/ r = 12 \/ r = 13 \/ r = 14 \/ r = 15)%Z
    as C by lia.
  intuition auto.
Qed.

Ltac by_nibble r H :=
  let C := fresh "C" in
  pose proof (range_cases r H) as C; simpl in C;
  repeat (destruct C as [ C | C ]; [ subst r | ]); [ .. | contradiction ].

(** The replacement is one character. *)
Lemma replacement_x x :
  inUnitInterval x ->
  exists c, replacement x "x" = String c "" /\ isHexDigit c = true.
Proof.
  intros H. pose proof (nibble_range x H) as R. unfold replacement.
  cbn [Ascii.eqb Bool.eqb]. 
  set (r := nibble x) in *. clearbody r.
  by_nibble r R; vm_compute; eauto.
Qed.

Lemma replacement_y x :
  inUnitInterval x ->
  exists c, replacement x "y" = String c "" /\ isVariant c = true.
Proof.
  intros H. pose proof (nibble_range x H) as R. unfold replacement.
  set (r := nibble x) in *. clearbody r.
  by_nibble r R; vm_compute; eauto.
Qed.

Lemma matches_replaceXY random :
  (forall k, inUnitInterval (random k)) ->
  forall t calls, matchesTemplate t (replaceXY t random calls) = true.
Proof.
  intros H t. induction t as [ | c t IH ]; intros calls; [ reflexivity | ].
  cbn [replaceXY].
  destruct (Ascii.eqb_spec c "x") as [ -> | Nx ].
  - cbn [orb]. destruct (replacement_x _ (H calls)) as (d & -> & Hd).
    cbn [append matchesTemplate]. cbn [Ascii.eqb Bool.eqb]. now rewrite Hd, IH.
  - destruct (Ascii.eqb_spec c "y") as [ -> | Ny ].
    + cbn [orb]. destruct (replacement_y _ (H calls)) as (d & -> & Hd).
      cbn [append matchesTemplate]. 
      change (("y" =? "x")%char) with false. cbn iota.
      change (("y" =? "y")%char) with true. cbn iota. now rewrite Hd, IH.
    + cbn [orb matchesTemplate].
      destruct (Ascii.eqb_spec c "x"); [ contradiction | ].
      destruct (Ascii.eqb_spec c "y"); [ contradiction | ].
      now rewrite Ascii.eqb_refl, IH.
Qed.

Lemma length_replaceXY random :
  (forall k, inUnitInterval (random k)) ->
  forall t calls, String.length (replaceXY t random calls) = String.length t.
Proof.
  intros H t. induction t as [ | c t IH ]; intros calls; [ reflexivity | ].
  cbn [replaceXY].
  destruct (Ascii.eqb_spec c "x") as [ -> | Nx ].
  - cbn [orb]. destruct (replacement_x _ (H calls)) as (d & -> & Hd).
    cbn [append String.length]. now rewrite IH.
  - destruct (Ascii.eqb_spec c "y") as [ -> | Ny ].
    + cbn [orb]. destruct (replacement_y _ (H calls)) as (d & -> & Hd).
      cbn [append String.length]. now rewrite IH.
    + cbn [orb String.length]. now rewrite IH.
Qed.

(** Two replacements agree exactly when the draws agree in the bits that
    are kept. *)
Lemma replacement_x_inj x y :
  inUnitInterval x -> inUnitInterval y ->
  (replacement x "x" = replacement y "x" <-> nibble x = nibble y).
Proof.
  intros Hx Hy. pose proof (nibble_range x Hx) as Rx.
  pose proof (nibble_range y Hy) as Ry. unfold replacement.
  set (r := nibble x) in *. set (q := nibble y) in *. clearbody r q.
  split; [ | now intros -> ].
  by_nibble r Rx; by_nibble q Ry; vm_compute; congruence.
Qed.

Lemma replacement_y_inj x y :
  inUnitInterval x -> inUnitInterval y ->
  (replacement x "y" = replacement y "y" <-> (nibble x mod 4 = nibble y mod 4)%Z).
Proof.
  intros Hx Hy. pose proof (nibble_range x Hx) as Rx.
  pose proof (nibble_range y Hy) as Ry. unfold replacement.
  set (r := nibble x) in *. set (q := nibble y) in *. clearbody r q.
  by_nibble r Rx; by_nibble q Ry; vm_compute; split; congruence.
Qed.


Lemma replaceXY_eq r1 r2 :
  (forall k, inUnitInterval (r1 k)) -> (forall k, inUnitInterval (r2 k)) ->
  forall t calls,
    replaceXY t r1 calls = replaceXY t r2 calls <->
    (forall j, j < length (marks t) ->
       replacement (r1 (calls + j)) (nth j (marks t) "x"%char)
       = replacement (r2 (calls + j)) (nth j (marks t) "x"%char)).
Proof.
  intros H1 H2 t. induction t as [ | c t IH ]; intros calls.
  - simpl. split; [ intros _ j Hj; lia | reflexivity ].
  - cbn [replaceXY marks].
    assert (M : forall d,
               ((d =? "x") || (d =? "y"))%char = true ->
               exists a b, replacement (r1 calls) d = String a "" /\
                           replacement (r2 calls) d = String b "").
    { intros d Hd. apply orb_prop in Hd as [ Hd | Hd ];
        apply Ascii.eqb_eq in Hd; subst d.
      - destruct (replacement_x _ (H1 calls)) as (a & -> & _).
        destruct (replacement_x _ (H2 calls)) as (b & -> & _). eauto.
      - destruct (replacement_y _ (H1 calls)) as (a & -> & _).
        destruct (replacement_y _ (H2 calls)) as (b & -> & _). eauto. }
    destruct ((c =? "x") || (c =? "y"))%char eqn:Hc.
    + destruct (M c Hc) as (a & b & Ea & Eb).
      cbn [length]. split.
      * intros E j Hj. rewrite Ea, Eb in E. cbn [append] in E.
        injection E as Eab E. destruct j as [ | j ].
        -- rewrite Nat.add_0_r. cbn [nth]. rewrite Ea, Eb. now subst.
        -- cbn [nth]. replace (calls + S j) with (S calls + j) by lia.
           apply (proj1 (IH (S calls)) E). lia.
      * intros E. pose proof (E 0 ltac:(lia)) as E0.
        rewrite Nat.add_0_r in E0. cbn [nth] in E0. rewrite E0. f_equal.
        apply (IH (S calls)). intros j Hj.
        specialize (E (S j) ltac:(lia)). cbn [nth] in E.
        now replace (calls + S j) with (S calls + j) in E by lia.
    + split.
      * intros E. injection E as E. now apply IH.
      * intros E. f_equal. now apply IH.
Qed.

End CorrelationIdFacts.

(** ** Schema objects *)

Module SchemaFacts.
Import Schema.

Lemma schema_get_set_same h o k v : getProperty (setProperty h o k v) o k = Some v.
Proof.
  unfold getProperty, setProperty, properties.
  rewrite (JsMapFacts.get_set_eq Nat.eqb Nat.eqb_eq).
  apply (JsMapFacts.get_set_eq String.eqb String.eqb_eq).
Qed.

Lemma schema_get_set_other_key h o k k' v :
  k <> k' -> getProperty (setProperty h o k v) o k' = getProperty h o k'.
Proof.
  intros N. unfold getProperty, setProperty. unfold properties at 1.
  rewrite (JsMapFacts.get_set_eq Nat.eqb Nat.eqb_eq).
  now apply (JsMapFacts.get_set_neq String.eqb String.eqb_eq).
Qed.

Lemma schema_properties_set_other h o o' k v :
  o <> o' -> properties (setProperty h o k v) o' = properties h o'.
Proof.
  intros N. unfold setProperty. unfold properties at 1 3.
  now rewrite (JsMapFacts.get_set_neq Nat.eqb Nat.eqb_eq).
Qed.

End SchemaFacts.

(** ** The default transport on arbitrary payloads *)

Module LossyFacts.
Import Json Lossy.
#[local] Open Scope string_scope.

Lemma normalize_obj ms : normalize (JObj ms) = JObj (flat_map keep ms).
Proof. reflexivity. Qed.

Lemma stringify_defined x :
  x <> JUndefined -> stringify x = Some (elementText x).
Proof.
  destruct x as [ | | [] | | | | | ]; intros H; try reflexivity. now destruct H.
Qed.

Lemma normalize_defined x : normalize x <> JUndefined.
Proof. destruct x; discriminate. Qed.

Lemma memberTexts_keep k x :
  elementText (normalize x) = elementText x ->
  flat_map memberTexts (keep (k, x)) = memberTexts (k, x).
Proof.
  intros E. destruct (JsonFacts.JSValue_ind (fun x => x = JUndefined \/ x <> JUndefined))
    with (v := x) as [ -> | N ];
    try (right; discriminate); try (left; reflexivity);
    try (intros; right; discriminate).
  - reflexivity.
  - assert (K : keep (k, x) = [(k, normalize x)]) by (destruct x; auto; now destruct N).
    rewrite K. cbn [flat_map]. rewrite List.app_nil_r. unfold memberTexts.
    now rewrite (stringify_defined _ (normalize_defined x)), (stringify_defined _ N), E.
Qed.

Lemma elementText_normalize v : elementText (normalize v) = elementText v.
Proof.
  induction v as [ | | b | n | | s | xs IH | ms IH ] using JsonFacts.JSValue_ind;
    try reflexivity.
  - cbn [normalize]. unfold elementText. rewrite !JsonFacts.stringify_arr.
    do 3 f_equal. rewrite map_map. apply map_ext_in. intros x Hx.
    rewrite Forall_forall in IH. now apply IH.
  - rewrite normalize_obj. unfold elementText. rewrite !JsonFacts.stringify_obj.
    do 3 f_equal. induction ms as [ | [k x] ms IHms ]; [ reflexivity | ].
    inversion IH as [ | ? ? Hx Hms ]; subst. cbn [flat_map].
    rewrite flat_map_app, (IHms Hms). f_equal.
    now apply memberTexts_keep.
Qed.

Lemma existsb_keys_keep k ms :
  existsb (String.eqb k) (map fst (flat_map keep ms)) = true ->
  existsb (String.eqb k) (map fst ms) = true.
Proof.
  induction ms as [ | [k' x] ms IH ]; [ auto | ].
  cbn [flat_map map fst existsb]. rewrite map_app, existsb_app.
  intros H. apply orb_prop in H as [ H | H ].
  - unfold keep in H.
    destruct x; cbn [map fst existsb] in H; try discriminate H;
      rewrite orb_false_r in H; rewrite H; reflexivity.
  - rewrite (IH H). apply orb_true_r.
Qed.

Lemma uniqueKeys_keep ms :
  uniqueKeys (map fst ms) = true -> uniqueKeys (map fst (flat_map keep ms)) = true.
Proof.
  induction ms as [ | [k x] ms IH ]; [ auto | ].
  cbn [map fst uniqueKeys flat_map]. intros H. apply andb_prop in H as [Hk Hu].
  specialize (IH Hu).
  assert (N : existsb (String.eqb k) (map fst (flat_map keep ms)) = false).
  { destruct (existsb (String.eqb k) (map fst (flat_map keep ms))) eqn:E; [ | reflexivity ].
    apply existsb_keys_keep in E. rewrite E in Hk. discriminate Hk. }
  unfold keep at 1.
  destruct x; cbn [List.app map fst uniqueKeys]; rewrite ?N, ?IH; reflexivity.
Qed.

Lemma jsonSafe_normalize v : printable v = true -> jsonSafe (normalize v) = true.
Proof.
  induction v as [ | | b | n | | s | xs IH | ms IH ] using JsonFacts.JSValue_ind;
    intros H; try reflexivity.
  - exact H.
  - cbn [normalize jsonSafe]. cbn [printable] in H.
    rewrite forallb_forall in *. intros y Hy. apply in_map_iff in Hy as (x & <- & Hx).
    rewrite Forall_forall in IH. apply IH; auto.
  - rewrite normalize_obj. cbn [jsonSafe]. cbn [printable] in H.
    apply andb_prop in H as [Hu Hp]. rewrite (uniqueKeys_keep _ Hu). cbn [andb].
    rewrite forallb_forall in *. intros [k y] Hy.
    apply in_flat_map in Hy as ([k' x] & Hx & Hy).
    rewrite Forall_forall in IH. specialize (IH _ Hx (Hp _ Hx)). cbn [snd] in IH.
    unfold keep in Hy. cbn [fst snd] in *.
    destruct x; cbn [In] in Hy; try contradiction;
      destruct Hy as [ [= <- <-] | [] ]; exact IH.
Qed.

Lemma parse_stringify_normal v :
  printable v = true ->
  parse (elementText v) = Some (normalize v).
Proof.
  intros H. pose proof (jsonSafe_normalize v H) as S.
  rewrite <- elementText_normalize.
  apply (JsonFacts.parse_stringify _ _ S). apply JsonFacts.stringify_safe, S.
Qed.

Lemma normalize_safe v : jsonSafe v = true -> normalize v = v.
Proof.
  induction v as [ | | b | n | | s | xs IH | ms IH ] using JsonFacts.JSValue_ind;
    intros H; try reflexivity; try discriminate H.
  - cbn [normalize]. f_equal. cbn [jsonSafe] in H.
    rewrite forallb_forall in H. rewrite Forall_forall in IH.
    rewrite <- (map_id xs) at 2. apply map_ext_in. intros x Hx. auto.
  - rewrite normalize_obj. f_equal. cbn [jsonSafe] in H.
    apply andb_prop in H as [_ H].
    induction ms as [ | [k x] ms IHms ]; [ reflexivity | ].
    inversion IH as [ | ? ? Hx Hms ]; subst.
    cbn [forallb snd] in H. apply andb_prop in H as [Sx Sms].
    cbn [flat_map]. cbn [snd] in Hx. rewrite (IHms Hms Sms).
    assert (K : keep (k, x) = [(k, x)]).
    { unfold keep. rewrite (Hx Sx). destruct x; auto. discriminate Sx. }
    now rewrite K.
Qed.

Lemma length_flat_map_keep ms : length (flat_map keep ms) <= length ms.
Proof.
  induction ms as [ | [k x] ms IH ]; [ auto | ].
  cbn [flat_map]. rewrite length_app. cbn [length].
  assert (length (keep (k, x)) <= 1) by (destruct x; simpl; lia). lia.
Qed.

Lemma safe_of_fixed v : printable v = true -> normalize v = v -> jsonSafe v = true.
Proof.
  induction v as [ | | b | n | | s | xs IH | ms IH ] using JsonFacts.JSValue_ind;
    intros P E; try reflexivity; try discriminate E.
  - exact P.
  - cbn [normalize] in E. injection E as E. cbn [jsonSafe]. cbn [printable] in P.
    induction xs as [ | x xs IHxs ]; [ reflexivity | ].
    inversion IH as [ | ? ? Hx Hxs ]; subst.
    cbn [map] in E. injection E as Ex Exs.
    cbn [forallb] in P |- *. apply andb_prop in P as [Px Pxs].
    now rewrite (Hx Px Ex), (IHxs Hxs Pxs Exs).
  - rewrite normalize_obj in E. injection E as E. cbn [jsonSafe]. cbn [printable] in P.
    apply andb_prop in P as [Hu P]. rewrite Hu. cbn [andb]. clear Hu.
    induction ms as [ | [k x] ms IHms ]; [ reflexivity | ].
    inversion IH as [ | ? ? Hx Hms ]; subst.
    cbn [flat_map] in E.
    assert (N : x <> JUndefined).
    { intros ->. cbn [keep List.app] in E.
      pose proof (length_flat_map_keep ms) as L. rewrite E in L. cbn [length] in L. lia. }
    assert (K : keep (k, x) = [(k, normalize x)]) by (destruct x; auto; now destruct N).
    rewrite K in E. cbn [List.app] in E. injection E as Ex Ems.
    cbn [forallb snd] in P |- *. apply andb_prop in P as [Px Pms].
    cbn [snd] in Hx. now rewrite (Hx Px Ex), (IHms Hms Pms Ems).
Qed.

(** A message over the default transport: the value that is decoded is
    the message with its payload normalized. *)
Lemma decode_encode_normal m :
  printableMessage m = true ->
  exists raw v,
    Core.defaultSerializer (Core.toObject m) = Core.Serialized (Some raw) /\
    Core.defaultDeserializer raw = Core.Deserialized v /\
    Core.asMessage v = Core.IsMessage (transported m).
Proof.
  intros Hm. destruct (CoreFacts.toObject_members m) as [ms E].
  assert (P : printable (JObj ms) = true).
  { unfold printableMessage in Hm. apply andb_prop in Hm as [Hd Ht].
    destruct m as [ id p data ts | id data error ts | id e data ts ];
      simpl in E; injection E as <-; cbn [Core.messageData Core.messageTimestamp] in Hd, Ht;
      destruct ts as [ ts | ]; try destruct error as [ [em ec] | ];
      cbn -[printable Z.leb Z.abs maxSafeInteger];
      cbn [printable map fst snd forallb uniqueKeys existsb String.eqb Ascii.eqb Bool.eqb
             negb andb orb List.app Core.optionalMember Core.errorObject];
      rewrite ?Hd, ?Ht; reflexivity. }
  exists (elementText (JObj ms)), (normalize (JObj ms)).
  split; [ | split ].
  - unfold Core.defaultSerializer. rewrite E. reflexivity.
  - unfold Core.defaultDeserializer. now rewrite (parse_stringify_normal _ P).
  - clear P. destruct m as [ id p data ts | id data error ts | id e data ts ];
      simpl in E; injection E as <-;
      destruct ts as [ ts | ]; try destruct error as [ [em ec] | ];
      destruct data; reflexivity.
Qed.

End LossyFacts.

(** ** Messages across the bridge *)

Module BridgeFacts.
Import Core Correlation.

Lemma web_call_posts c s id procedure data raw :
  Web.isWebView c = true ->
  Web.serializer (Web.config c) (toObject (RequestMessage id procedure data None))
  = Serialized (Some raw) ->
  Web.posted (fst (Web.call c s id procedure data)) = Web.posted s ++ [Some raw] /\
  Web.listening (fst (Web.call c s id procedure data)) = Web.listening s /\
  Web.invoked (fst (Web.call c s id procedure data)) = Web.invoked s.
Proof.
  intros W E. unfold Web.call, Web.postToNative. rewrite W. cbn [negb]. rewrite E.
  repeat split.
Qed.

Lemma web_receive_response c s raw v id data error ts p :
  Web.listening s = true ->
  Web.deserializer (Web.config c) raw = Deserialized v ->
  asMessage v = IsMessage (ResponseMessage id data error ts) ->
  JsMap.get String.eqb id (Web.pendingRequests s) = Some p ->
  let s' := fst (Web.receive c s raw) in
  Web.settled s'
  = Web.settled s ++
    [(settles p,
      match error with
      | Some e => Rejected (WebViewRPCError (ErrorInfo.message e) (ErrorInfo.code e))
      | None => Resolved data
      end)] /\
  JsMap.get String.eqb id (Web.pendingRequests s') = None /\
  JsMap.get Nat.eqb (timeoutId p) (Web.timers s') = None.
Proof.
  intros L D A G. unfold Web.receive, Web.handleMessage. rewrite L, D, A.
  cbn [fst]. split; [ | split ].
  - apply WebFacts.web_handleResponse_settled, G.
  - apply WebFacts.web_handleResponse_removes.
  - now apply WebFacts.web_handleResponse_disarms.
Qed.

Lemma native_handleMessage_response c s now raw v id data error ts p :
  Native.deserializer (Native.config c) raw = Deserialized v ->
  asMessage v = IsMessage (ResponseMessage id data error ts) ->
  JsMap.get String.eqb id (Native.pendingRequests s) = Some p ->
  let s' := fst (Native.handleMessage c s now raw) in
  Native.settled s'
  = Native.settled s ++
    [(settles p,
      match error with
      | Some e => Rejected (WebViewRPCError (ErrorInfo.message e) (ErrorInfo.code e))
      | None => Resolved data
      end)] /\
  JsMap.get String.eqb id (Native.pendingRequests s') = None /\
  JsMap.get Nat.eqb (timeoutId p) (Native.timers s') = None.
Proof.
  intros D A G. unfold Native.handleMessage. rewrite D, A.
  cbn [fst]. split; [ | split ].
  - apply NativeFacts.native_handleResponse_settled, G.
  - apply NativeFacts.native_handleResponse_removes.
  - now apply NativeFacts.native_handleResponse_disarms.
Qed.

Lemma native_postMessage_posts c s m raw :
  Native.webView s = true ->
  Native.serializer (Native.config c) (toObject m) = Serialized (Some raw) ->
  Native.postMessage c s m = Native.Normal (Native.transportPost s (Some raw)).
Proof. intros W E. unfold Native.postMessage. now rewrite W, E. Qed.

Lemma native_callWeb_posts c s now id procedure data raw :
  Native.webView s = true ->
  Native.serializer (Native.config c)
    (toObject (RequestMessage id procedure data (Some now)))
  = Serialized (Some raw) ->
  Native.posted (fst (Native.callWeb c s now id procedure data))
  = Native.posted s ++ [Some raw] /\
  Native.settled (fst (Native.callWeb c s now id procedure data)) = Native.settled s /\
  snd (Native.callWeb c s now id procedure data) = Native.next s /\
  JsMap.get String.eqb id
    (Native.pendingRequests (fst (Native.callWeb c s now id procedure data)))
  = Some {| settles := Native.next s; timeoutId := Native.next s |}.
Proof.
  intros W E. unfold Native.callWeb.
  rewrite (native_postMessage_posts c _ _ raw); [ | exact W | exact E ].
  cbn [fst snd]. repeat split.
  cbn [Native.pendingRequests Native.transportPost Native.withPending].
  apply (JsMapFacts.get_set_eq String.eqb String.eqb_eq).
Qed.

End BridgeFacts.

(** ** Registrations *)

Module RegistryFacts.

Lemma set_delete_app (x : nat) (a b : list nat) :
  JsSet.delete Nat.eqb x (a ++ b) = JsSet.delete Nat.eqb x a ++ JsSet.delete Nat.eqb x b.
Proof.
  induction a as [ | y a IH ]; [ reflexivity | ].
  simpl. destruct (x =? y)%nat; simpl; now rewrite IH.
Qed.

Lemma set_delete_add (x : nat) (s : list nat) :
  JsSet.delete Nat.eqb x (JsSet.add Nat.eqb x s) = JsSet.delete Nat.eqb x s.
Proof.
  unfold JsSet.add. destruct (JsSet.mem Nat.eqb x s); [ reflexivity | ].
  rewrite set_delete_app. simpl. rewrite Nat.eqb_refl. apply List.app_nil_r.
Qed.

Lemma web_deref_set s r hs :
  Web.deref (Web.withSets s (JsMap.set Nat.eqb r hs (Web.sets s))) r = hs.
Proof.
  unfold Web.deref. cbn [Web.sets Web.withSets].
  now rewrite (JsMapFacts.get_set_eq Nat.eqb Nat.eqb_eq).
Qed.

Lemma native_deref_set s r hs :
  Native.deref (Native.withSets s (JsMap.set Nat.eqb r hs (Native.sets s))) r = hs.
Proof.
  unfold Native.deref. cbn [Native.sets Native.withSets].
  now rewrite (JsMapFacts.get_set_eq Nat.eqb Nat.eqb_eq).
Qed.

(** What a registration leaves: the name is bound to a [Set] that holds
    the listeners it held before and the new one. *)
Lemma web_register_shape s event h :
  exists r,
    snd (Web.handleNativeEvent s event h) = Web.UnregisterListener r h event /\
    JsMap.get String.eqb event (Web.eventHandlers (fst (Web.handleNativeEvent s event h)))
    = Some r /\
    Web.deref (fst (Web.handleNativeEvent s event h)) r
    = JsSet.add Nat.eqb h (Web.listeners s event) /\
    (JsMap.get String.eqb event (Web.eventHandlers s) = None ->
     r = Web.next s /\
     Web.next (fst (Web.handleNativeEvent s event h)) = S (Web.next s)) /\
    (forall r0, r0 <> r ->
       Web.deref (fst (Web.handleNativeEvent s event h)) r0 = Web.deref s r0).
Proof.
  unfold Web.handleNativeEvent, Web.listeners.
  destruct (JsMap.get String.eqb event (Web.eventHandlers s)) as [ r | ] eqn:G;
    cbn [fst snd].
  - exists r. rewrite web_deref_set. cbn [Web.eventHandlers Web.withSets Web.next].
    split; [ reflexivity | split; [ exact G | split; [ reflexivity | ] ] ].
    split; [ discriminate | ].
    intros r0 N. unfold Web.deref. cbn [Web.sets Web.withSets].
    rewrite (JsMapFacts.get_set_neq Nat.eqb Nat.eqb_eq); auto.
  - exists (Web.next s). rewrite web_deref_set.
    cbn [Web.eventHandlers Web.withSets Web.withEventHandlers Web.next Web.withNext].
    rewrite (JsMapFacts.get_set_eq String.eqb String.eqb_eq).
    unfold Web.deref. cbn [Web.sets Web.withSets Web.withEventHandlers Web.withNext].
    rewrite (JsMapFacts.get_set_eq Nat.eqb Nat.eqb_eq).
    split; [ reflexivity | split; [ reflexivity | split; [ reflexivity | ] ] ].
    split; [ auto | ].
    intros r0 N. rewrite !(JsMapFacts.get_set_neq Nat.eqb Nat.eqb_eq); auto.
Qed.

(** The call of an unregister function that leaves its [Set] empty deletes
    the name from the map. *)
Lemma web_unregister_emptying s r h event :
  JsSet.delete Nat.eqb h (Web.deref s r) = [] ->
  let s' := Web.unregister s (Web.UnregisterListener r h event) in
  Web.eventHandlers s' = JsMap.delete String.eqb event (Web.eventHandlers s) /\
  Web.next s' = Web.next s /\ Web.deref s' r = [] /\
  Web.listeners s' event = [].
Proof.
  intros D. cbn [Web.unregister]. rewrite web_deref_set, D. cbv zeta.
  cbn [Web.eventHandlers Web.withEventHandlers Web.withSets Web.next].
  repeat split.
  - unfold Web.deref. cbn [Web.sets Web.withSets Web.withEventHandlers].
    now rewrite (JsMapFacts.get_set_eq Nat.eqb Nat.eqb_eq).
  - unfold Web.listeners.
    cbn [Web.eventHandlers Web.withEventHandlers Web.withSets].
    now rewrite JsMapFacts.get_delete_eq.
Qed.

Lemma web_unregister_listeners s r h event :
  JsMap.get String.eqb event (Web.eventHandlers s) = Some r ->
  Web.listeners (Web.unregister s (Web.UnregisterListener r h event)) event
  = JsSet.delete Nat.eqb h (Web.deref s r).
Proof.
  intros G. cbn [Web.unregister]. rewrite web_deref_set.
  unfold Web.listeners.
  destruct (JsSet.delete Nat.eqb h (Web.deref s r)) as [ | x xs ] eqn:D.
  - cbn [Web.eventHandlers Web.withEventHandlers Web.withSets].
    now rewrite JsMapFacts.get_delete_eq.
  - cbn [Web.eventHandlers Web.withSets]. rewrite G. now rewrite web_deref_set.
Qed.

(** A registration followed by the call of the function it returned. *)
Lemma web_register_unregister s event h :
  Web.listeners
    (Web.unregister (fst (Web.handleNativeEvent s event h))
       (snd (Web.handleNativeEvent s event h))) event
  = JsSet.delete Nat.eqb h (Web.listeners s event).
Proof.
  destruct (web_register_shape s event h) as (r & -> & G & D & _).
  now rewrite (web_unregister_listeners _ _ _ _ G), D, set_delete_add.
Qed.

Lemma native_register_shape s name h :
  exists r,
    snd (Native.registerNativeHandler s name h)
    = {| Native.handlers := r; Native.handler := h; Native.nameStr := name |} /\
    JsMap.get String.eqb name
      (Native.nativeHandlers (fst (Native.registerNativeHandler s name h)))
    = Some r /\
    Native.deref (fst (Native.registerNativeHandler s name h)) r
    = JsSet.add Nat.eqb h (Native.registered s name) /\
    (JsMap.get String.eqb name (Native.nativeHandlers s) = None ->
     r = Native.next s /\
     Native.next (fst (Native.registerNativeHandler s name h)) = S (Native.next s)) /\
    (forall r0, r0 <> r ->
       Native.deref (fst (Native.registerNativeHandler s name h)) r0 = Native.deref s r0).
Proof.
  unfold Native.registerNativeHandler, Native.registered.
  destruct (JsMap.get String.eqb name (Native.nativeHandlers s)) as [ r | ] eqn:G;
    cbn [fst snd].
  - exists r. rewrite native_deref_set.
    cbn [Native.nativeHandlers Native.withSets Native.next].
    split; [ reflexivity | split; [ exact G | split; [ reflexivity | ] ] ].
    split; [ discriminate | ].
    intros r0 N. unfold Native.deref. cbn [Native.sets Native.withSets].
    rewrite (JsMapFacts.get_set_neq Nat.eqb Nat.eqb_eq); auto.
  - exists (Native.next s). rewrite native_deref_set.
    cbn [Native.nativeHandlers Native.withSets Native.withHandlers Native.next
           Native.withNext].
    rewrite (JsMapFacts.get_set_eq String.eqb String.eqb_eq).
    unfold Native.deref.
    cbn [Native.sets Native.withSets Native.withHandlers Native.withNext].
    rewrite (JsMapFacts.get_set_eq Nat.eqb Nat.eqb_eq).
    split; [ reflexivity | split; [ reflexivity | split; [ reflexivity | ] ] ].
    split; [ auto | ].
    intros r0 N. rewrite !(JsMapFacts.get_set_neq Nat.eqb Nat.eqb_eq); auto.
Qed.

Lemma native_unregister_emptying s r h name :
  JsSet.delete Nat.eqb h (Native.deref s r) = [] ->
  let s' := Native.unregister s
              {| Native.handlers := r; Native.handler := h; Native.nameStr := name |} in
  Native.nativeHandlers s' = JsMap.delete String.eqb name (Native.nativeHandlers s) /\
  Native.next s' = Native.next s /\ Native.deref s' r = [] /\
  Native.registered s' name = [].
Proof.
  intros D. unfold Native.unregister.
  cbn [Native.handlers Native.handler Native.nameStr].
  rewrite native_deref_set, D. cbv zeta.
  cbn [Native.nativeHandlers Native.withHandlers Native.withSets Native.next].
  repeat split.
  - unfold Native.deref. cbn [Native.sets Native.withSets Native.withHandlers].
    now rewrite (JsMapFacts.get_set_eq Nat.eqb Nat.eqb_eq).
  - unfold Native.registered.
    cbn [Native.nativeHandlers Native.withHandlers Native.withSets].
    now rewrite JsMapFacts.get_delete_eq.
Qed.

Lemma native_unregister_registered s r h name :
  JsMap.get String.eqb name (Native.nativeHandlers s) = Some r ->
  Native.registered
    (Native.unregister s
       {| Native.handlers := r; Native.handler := h; Native.nameStr := name |}) name
  = JsSet.delete Nat.eqb h (Native.deref s r).
Proof.
  intros G. unfold Native.unregister.
  cbn [Native.handlers Native.handler Native.nameStr]. rewrite native_deref_set.
  unfold Native.registered.
  destruct (JsSet.delete Nat.eqb h (Native.deref s r)) as [ | x xs ] eqn:D.
  - cbn [Native.nativeHandlers Native.withHandlers Native.withSets].
    now rewrite JsMapFacts.get_delete_eq.
  - cbn [Native.nativeHandlers Native.withSets]. rewrite G. now rewrite native_deref_set.
Qed.

Lemma native_register_unregister s name h :
  Native.registered
    (Native.unregister (fst (Native.registerNativeHandler s name h))
       (snd (Native.registerNativeHandler s name h))) name
  = JsSet.delete Nat.eqb h (Native.registered s name).
Proof.
  destruct (native_register_shape s name h) as (r & -> & G & D & _).
  now rewrite (native_unregister_registered _ _ _ _ G), D, set_delete_add.
Qed.

End RegistryFacts.

(** ** Executions of the web client *)

Module WebRunFacts.
Import Core Correlation Web.

Lemma web_reportError_log c s e :
  posted (reportError c s e) = posted s /\ settled (reportError c s e) = settled s /\
  pendingRequests (reportError c s e) = pendingRequests s /\
  timers (reportError c s e) = timers s /\ listening (reportError c s e) = listening s.
Proof. unfold reportError. destruct (onError (config c)); repeat split. Qed.

Lemma web_handleNativeEvent_frame s event h :
  let s' := fst (handleNativeEvent s event h) in
  posted s' = posted s /\ settled s' = settled s /\
  pendingRequests s' = pendingRequests s /\ timers s' = timers s /\
  listening s' = listening s.
Proof.
  unfold handleNativeEvent.
  destruct (JsMap.get String.eqb event (eventHandlers s)); repeat split.
Qed.

Lemma web_unregister_frame s u :
  let s' := unregister s u in
  posted s' = posted s /\ settled s' = settled s /\
  pendingRequests s' = pendingRequests s /\ timers s' = timers s /\
  listening s' = listening s.
Proof.
  destruct u as [ r h e | p ]; cbn [unregister]; [ | repeat split ].
  destruct (deref _ r); repeat split.
Qed.

Lemma web_cancel_settled entries : forall s,
  let s' := fold_left cancel entries s in
  settled s'
  = settled s ++
    map (fun e => (settles (snd e), Rejected (WebViewRPCError "Client cleanup" "CLEANUP")))
      entries /\
  posted s' = posted s /\ listening s' = listening s.
Proof.
  induction entries as [ | e entries IH ]; intros s; cbn [fold_left map].
  - rewrite List.app_nil_r. auto.
  - destruct (IH (cancel s e)) as (A & B & C). cbv zeta. rewrite A, B, C.
    cbn [cancel settle settled posted listening clearTimeout withTimers].
    rewrite <- List.app_assoc. auto.
Qed.

Lemma web_inert_step c s a :
  isWebView c = false ->
  posted s = [] -> pendingRequests s = [] -> timers s = [] ->
  Forall (fun e => snd e = Rejected (WebViewRPCError "Not running in WebView"
                                       "NOT_IN_WEBVIEW"))
    (settled s) ->
  posted (step c s a) = [] /\ pendingRequests (step c s a) = [] /\
  timers (step c s a) = [] /\
  Forall (fun e => snd e = Rejected (WebViewRPCError "Not running in WebView"
                                       "NOT_IN_WEBVIEW"))
    (settled (step c s a)).
Proof.
  intros W P Q T S.
  assert (PN : forall s0 m, postToNative c s0 m = s0)
    by (intros; unfold postToNative; now rewrite W).
  destruct a as [ id p d | id e d | e h | p h | u | raw | task | t | ]; cbn [step].
  - unfold call. rewrite W. cbn [negb fst].
    cbn [posted pendingRequests timers settled settle withNext].
    repeat split; auto. apply Forall_app. split; auto.
  - unfold emit. rewrite W. cbn [negb]. auto.
  - destruct (web_handleNativeEvent_frame s e h) as (A & B & C & D & _).
    cbv zeta in *. rewrite A, B, C, D. auto.
  - cbn. auto.
  - destruct (web_unregister_frame s u) as (A & B & C & D & _).
    cbv zeta in *. rewrite A, B, C, D. auto.
  - unfold receive. destruct (listening s); [ | cbn [fst]; auto ].
    unfold handleMessage.
    destruct (deserializer (config c) raw) as [ v | e ].
    + destruct (asMessage v) as [ [ id p d ts | id d err ts | id e d ts ] | | ];
        cbn [fst].
      * unfold handleRequest.
        destruct (JsMap.get String.eqb p (procedureHandlers s)); cbn [fst].
        -- cbn. auto.
        -- rewrite PN. auto.
      * unfold handleResponse. rewrite Q. cbn. auto.
      * pose proof (WebFacts.web_handleEvent_effect c s e d) as F. cbv zeta in F.
        destruct F as (_ & _ & F3 & _ & _ & _ & F7 & _ & _ & F10 & F11).
        rewrite F3, F7, F10, F11. auto.
      * destruct (web_reportError_log c s
                    (TypeError "Cannot read properties of null (reading 'type')"))
          as (A & B & C & D & _).
        rewrite A, B, C, D. auto.
      * auto.
    + cbn [fst]. destruct (web_reportError_log c s e) as (A & B & C & D & _).
      rewrite A, B, C, D. auto.
  - unfold resume. destruct (outcome task) as [ r | e | ].
    + rewrite PN. auto.
    + rewrite PN. destruct (web_reportError_log c s e) as (A & B & C & D & _).
      rewrite A, B, C, D. auto.
    + auto.
  - unfold fireTimeout. rewrite T. cbn. auto.
  - unfold cleanup. rewrite Q. cbn [fold_left].
    destruct (windowDefined c); cbn; auto.
Qed.

Lemma web_inert_run c actions : forall s,
  isWebView c = false ->
  posted s = [] -> pendingRequests s = [] -> timers s = [] ->
  Forall (fun e => snd e = Rejected (WebViewRPCError "Not running in WebView"
                                       "NOT_IN_WEBVIEW"))
    (settled s) ->
  posted (run c s actions) = [] /\ pendingRequests (run c s actions) = [] /\
  timers (run c s actions) = [] /\
  Forall (fun e => snd e = Rejected (WebViewRPCError "Not running in WebView"
                                       "NOT_IN_WEBVIEW"))
    (settled (run c s actions)).
Proof.
  induction actions as [ | a actions IH ]; intros s W P Q T S; [ auto | ].
  cbn [run fold_left].
  destruct (web_inert_step c s a W P Q T S) as (P' & Q' & T' & S').
  now apply IH.
Qed.

End WebRunFacts.

Module WebSettleFacts.
Import Core Correlation Web.

Lemma web_postToNative_settled c s m :
  settled (postToNative c s m) = settled s /\
  listening (postToNative c s m) = listening s /\
  pendingRequests (postToNative c s m) = pendingRequests s /\
  next (postToNative c s m) = next s.
Proof.
  pose proof (WebFacts.web_postToNative_frame c s m) as F. cbv zeta in F.
  destruct F as (_ & F2 & F3 & _ & F5 & _ & _ & _ & F9). auto.
Qed.

(** What a step adds to the settlements, and where a resolution comes
    from. *)
Lemma web_step_settled c s a :
  exists added,
    settled (step c s a) = settled s ++ added /\
    forall h v, In (h, Resolved v) added ->
      listening s = true /\
      exists raw w id ts p,
        a = Received raw /\
        deserializer (config c) raw = Deserialized w /\
        asMessage w = IsMessage (ResponseMessage id v None ts) /\
        JsMap.get String.eqb id (pendingRequests s) = Some p /\
        settles p = h.
Proof.
  assert (Nil : forall s', settled s' = settled s ->
            exists added,
              settled s' = settled s ++ added /\
              forall h v, In (h, Resolved v) added ->
                listening s = true /\
                exists raw w id ts p,
                  a = Received raw /\
                  deserializer (config c) raw = Deserialized w /\
                  asMessage w = IsMessage (ResponseMessage id v None ts) /\
                  JsMap.get String.eqb id (pendingRequests s) = Some p /\
                  settles p = h).
  { intros s' E. exists []. rewrite List.app_nil_r. split; [ exact E | intros ? ? [] ]. }
  destruct a as [ id p d | id e d | e h | p h | u | raw | task | t | ]; cbn [step].
  - unfold call. destruct (isWebView c); cbn [negb fst].
    + apply Nil. now destruct (web_postToNative_settled c
        (withPending
           (withTimers (withNext s (S (next s)))
              (JsMap.set Nat.eqb (next s) {| expires := id; rejects := next s |}
                 (timers (withNext s (S (next s))))))
           (JsMap.set String.eqb id {| settles := next s; timeoutId := next s |}
              (pendingRequests
                 (withTimers (withNext s (S (next s)))
                    (JsMap.set Nat.eqb (next s) {| expires := id; rejects := next s |}
                       (timers (withNext s (S (next s)))))))))
        (RequestMessage id p d None)) as (E & _).
    + eexists. split; [ reflexivity | ]. intros h v [ H | [] ]. discriminate H.
  - apply Nil. unfold emit. destruct (isWebView c); cbn [negb]; [ | reflexivity ].
    now destruct (web_postToNative_settled c s (EventMessage id e d None)).
  - apply Nil. now destruct (WebRunFacts.web_handleNativeEvent_frame s e h) as (_ & B & _).
  - apply Nil. reflexivity.
  - apply Nil. now destruct (WebRunFacts.web_unregister_frame s u) as (_ & B & _).
  - unfold receive. destruct (listening s) eqn:L; [ | apply Nil; reflexivity ].
    unfold handleMessage.
    destruct (deserializer (config c) raw) as [ w | e ] eqn:D.
    + destruct (asMessage w) as [ [ id p d ts | id d err ts | id e d ts ] | | ] eqn:A;
        cbn [fst].
      * apply Nil. unfold handleRequest.
        destruct (JsMap.get String.eqb p (procedureHandlers s)); cbn [fst];
          [ reflexivity | ].
        now destruct (web_postToNative_settled c s
                        (ResponseMessage id JUndefined
                           (Some (ErrorInfo.make (noHandlerMessage p) "NO_HANDLER")) None)).
      * destruct (JsMap.get String.eqb id (pendingRequests s)) as [ pe | ] eqn:G.
        -- rewrite (WebFacts.web_handleResponse_settled s id pe d err G).
           eexists. split; [ reflexivity | ].
           intros h v [ H | [] ]. split; [ reflexivity | ].
           destruct err as [ err | ]; [ discriminate H | ].
           injection H as <- <-.
           exists raw, w, id, ts, pe. auto.
        -- apply Nil. now rewrite (WebFacts.web_handleResponse_unknown s id d err G).
      * apply Nil. pose proof (WebFacts.web_handleEvent_effect c s e d) as F.
        cbv zeta in F. now destruct F as (_ & _ & _ & _ & _ & _ & _ & _ & _ & _ & F11).
      * apply Nil.
        now destruct (WebRunFacts.web_reportError_log c s
                        (TypeError "Cannot read properties of null (reading 'type')"))
          as (_ & B & _).
      * apply Nil. reflexivity.
    + apply Nil. cbn [fst].
      now destruct (WebRunFacts.web_reportError_log c s e) as (_ & B & _).
  - apply Nil. unfold resume. destruct (outcome task) as [ r | e | ].
    + now destruct (web_postToNative_settled c s (ResponseMessage (requestId task) r None None)).
    + destruct (web_postToNative_settled c (reportError c s e)
                  (ResponseMessage (requestId task) JUndefined
                     (Some (ErrorInfo.make (JSError.message e) "HANDLER_ERROR")) None))
        as (E & _).
      rewrite E. now destruct (WebRunFacts.web_reportError_log c s e) as (_ & B & _).
    + reflexivity.
  - destruct (JsMap.get Nat.eqb t (timers s)) as [ timer | ] eqn:G.
    + rewrite (WebFacts.web_fireTimeout_settled c s t timer G).
      eexists. split; [ reflexivity | ]. intros h v [ H | [] ]. discriminate H.
    + apply Nil. now rewrite (WebFacts.web_fireTimeout_unarmed c s t G).
  - assert (E : settled (cleanup c s)
                = settled s ++
                  map (fun e => (settles (snd e),
                                 Rejected (WebViewRPCError "Client cleanup" "CLEANUP")))
                    (pendingRequests s)).
    { unfold cleanup.
      destruct (WebRunFacts.web_cancel_settled (pendingRequests s) s) as (A & _).
      cbv zeta in A. destruct (windowDefined c); exact A. }
    eexists. split; [ exact E | ].
    intros h v H. apply in_map_iff in H as (x & H & _). discriminate H.
Qed.

Lemma web_step_listening c s a :
  listening s = false -> listening (step c s a) = false.
Proof.
  intros L.
  destruct a as [ id p d | id e d | e h | p h | u | raw | task | t | ]; cbn [step].
  - unfold call, postToNative, reportError.
    destruct (isWebView c); cbn [negb fst]; [ | exact L ].
    destruct (serializer (config c) _); [ exact L | ].
    destruct (onError (config c)); exact L.
  - unfold emit. destruct (isWebView c); cbn [negb]; [ | exact L ].
    now destruct (web_postToNative_settled c s (EventMessage id e d None)) as (_ & -> & _).
  - now destruct (WebRunFacts.web_handleNativeEvent_frame s e h) as (_ & _ & _ & _ & ->).
  - exact L.
  - now destruct (WebRunFacts.web_unregister_frame s u) as (_ & _ & _ & _ & ->).
  - unfold receive. now rewrite L.
  - unfold resume. destruct (outcome task) as [ r | e | ].
    + now destruct (web_postToNative_settled c s (ResponseMessage (requestId task) r None None))
        as (_ & -> & _).
    + destruct (web_postToNative_settled c (reportError c s e)
                  (ResponseMessage (requestId task) JUndefined
                     (Some (ErrorInfo.make (JSError.message e) "HANDLER_ERROR")) None))
        as (_ & -> & _).
      now destruct (WebRunFacts.web_reportError_log c s e) as (_ & _ & _ & _ & ->).
    + exact L.
  - unfold fireTimeout. destruct (JsMap.get Nat.eqb t (timers s)); exact L.
  - unfold cleanup.
    destruct (WebRunFacts.web_cancel_settled (pendingRequests s) s) as (_ & _ & C).
    cbv zeta in C. destruct (windowDefined c); [ reflexivity | ].
    cbn [listening withProcedureHandlers withEventHandlers withPending]. now rewrite C.
Qed.

Lemma web_deaf_run c actions : forall s,
  listening s = false ->
  listening (run c s actions) = false /\
  forall h v, In (h, Resolved v) (settled (run c s actions)) ->
              In (h, Resolved v) (settled s).
Proof.
  induction actions as [ | a actions IH ]; intros s L; [ auto | ].
  cbn [run fold_left].
  destruct (IH (step c s a) (web_step_listening c s a L)) as (L' & R).
  split; [ exact L' | ].
  intros h v H. specialize (R h v H).
  destruct (web_step_settled c s a) as (added & E & O).
  rewrite E in R. apply in_app_or in R as [ R | R ]; [ exact R | ].
  destruct (O h v R) as (T & _). rewrite L in T. discriminate T.
Qed.

Lemma web_run_not_listening c actions : forall s,
  windowDefined c = false -> listening s = false ->
  listening (run c s actions) = false.
Proof. intros s _ L. now destruct (web_deaf_run c actions s L). Qed.

End WebSettleFacts.

Module WebCorrelationFacts.
Import Core Correlation Web.

Lemma web_reportError_next c s e :
  next (reportError c s e) = next s /\
  pendingRequests (reportError c s e) = pendingRequests s.
Proof. unfold reportError. destruct (onError (config c)); auto. Qed.

(** The entries a step leaves were there before, or belong to the promise
    the step created. *)
Lemma web_step_pending c s a :
  Invariant s ->
  next s <= next (step c s a) /\
  forall id p, In (id, p) (pendingRequests (step c s a)) ->
               In (id, p) (pendingRequests s) \/ settles p = next s.
Proof.
  intros (TO & EO & _). pose proof (pending_keys _ _ EO) as ND.
  destruct a as [ id p d | id e d | e h | p h | u | raw | task | t | ]; cbn [step].
  - unfold call. destruct (isWebView c); cbn [negb fst].
    + destruct (WebSettleFacts.web_postToNative_settled c
        (withPending
           (withTimers (withNext s (S (next s)))
              (JsMap.set Nat.eqb (next s) {| expires := id; rejects := next s |}
                 (timers (withNext s (S (next s))))))
           (JsMap.set String.eqb id {| settles := next s; timeoutId := next s |}
              (pendingRequests
                 (withTimers (withNext s (S (next s)))
                    (JsMap.set Nat.eqb (next s) {| expires := id; rejects := next s |}
                       (timers (withNext s (S (next s)))))))))
        (RequestMessage id p d None)) as (_ & _ & -> & ->).
      cbn [next pendingRequests withPending withTimers withNext]. split; [ lia | ].
      intros id' p' H.
      apply (JsMapFacts.In_set String.eqb String.eqb_eq) in H; [ | exact ND ].
      destruct H as [ (_ & ->) | (_ & H) ]; auto.
    + cbn. split; [ lia | auto ].
  - unfold emit. destruct (isWebView c); cbn [negb]; [ | auto ].
    destruct (WebSettleFacts.web_postToNative_settled c s (EventMessage id e d None))
      as (_ & _ & -> & ->). auto.
  - destruct (WebRunFacts.web_handleNativeEvent_frame s e h) as (_ & _ & C & _).
    cbv zeta in C. rewrite C. split; [ | auto ].
    destruct (RegistryFacts.web_register_shape s e h) as (r & _ & _ & _ & F & _).
    unfold handleNativeEvent in *.
    destruct (JsMap.get String.eqb e (eventHandlers s)); cbn [fst next withSets].
    + lia.
    + cbn. lia.
  - cbn. auto.
  - destruct (WebRunFacts.web_unregister_frame s u) as (_ & _ & C & _).
    cbv zeta in C. rewrite C. split; [ | auto ].
    destruct u as [ r h e | p ]; cbn [unregister]; [ | cbn; lia ].
    destruct (deref _ r); cbn; lia.
  - unfold receive. destruct (listening s); [ | cbn [fst]; auto ].
    unfold handleMessage.
    destruct (deserializer (config c) raw) as [ w | e ].
    + destruct (asMessage w) as [ [ id p d ts | id d err ts | id e d ts ] | | ];
        cbn [fst].
      * unfold handleRequest.
        destruct (JsMap.get String.eqb p (procedureHandlers s)); cbn [fst].
        -- cbn. auto.
        -- destruct (WebSettleFacts.web_postToNative_settled c s
                       (ResponseMessage id JUndefined
                          (Some (ErrorInfo.make (noHandlerMessage p) "NO_HANDLER")) None))
             as (_ & _ & -> & ->). auto.
      * unfold handleResponse.
        destruct (JsMap.get String.eqb id (pendingRequests s)) as [ pe | ]; [ | auto ].
        assert (F : forall how,
                  next (settle
                          (withPending (clearTimeout s (timeoutId pe))
                             (JsMap.delete String.eqb id
                                (pendingRequests (clearTimeout s (timeoutId pe)))))
                          (settles pe) how) = next s /\
                  pendingRequests
                    (settle
                       (withPending (clearTimeout s (timeoutId pe))
                          (JsMap.delete String.eqb id
                             (pendingRequests (clearTimeout s (timeoutId pe)))))
                       (settles pe) how)
                  = JsMap.delete String.eqb id (pendingRequests s))
          by (intros; split; reflexivity).
        cbv zeta.
        destruct err as [ err | ];
          match goal with
          | |- context [ settle _ _ ?how ] => destruct (F how) as (-> & ->)
          end;
          (split; [ lia | ]; intros id' p' H;
           apply (JsMapFacts.In_delete String.eqb String.eqb_eq) in H; tauto).
      * pose proof (WebFacts.web_handleEvent_effect c s e d) as F. cbv zeta in F.
        destruct F as (_ & _ & F3 & _ & _ & _ & _ & _ & F9 & _). rewrite F3, F9. auto.
      * destruct (web_reportError_next c s
                    (TypeError "Cannot read properties of null (reading 'type')"))
          as (-> & ->). auto.
      * auto.
    + cbn [fst]. destruct (web_reportError_next c s e) as (-> & ->). auto.
  - unfold resume. destruct (outcome task) as [ r | e | ].
    + destruct (WebSettleFacts.web_postToNative_settled c s
                  (ResponseMessage (requestId task) r None None)) as (_ & _ & -> & ->).
      auto.
    + destruct (WebSettleFacts.web_postToNative_settled c (reportError c s e)
                  (ResponseMessage (requestId task) JUndefined
                     (Some (ErrorInfo.make (JSError.message e) "HANDLER_ERROR")) None))
        as (_ & _ & -> & ->).
      destruct (web_reportError_next c s e) as (-> & ->). auto.
    + auto.
  - unfold fireTimeout. destruct (JsMap.get Nat.eqb t (timers s)) as [ timer | ]; [ | auto ].
    cbn. split; [ lia | ]. intros id' p' H.
    apply (JsMapFacts.In_delete String.eqb String.eqb_eq) in H. tauto.
  - unfold cleanup.
    assert (N : next (fold_left cancel (pendingRequests s) s) = next s).
    { pose proof (WebFacts.web_cancel_loop (pendingRequests s) s) as F.
      destruct (F TO EO) as (_ & _ & _ & _ & _ & _ & _ & _ & F9 & _). exact F9. }
    destruct (windowDefined c); cbn; rewrite N; split; auto; intros ? ? [].
Qed.


(** While the entries that settle [h] all bear the id [id], a resolution
    of [h] stems from a response that bears [id]. *)
Lemma web_owned_run c h id v later : forall s,
  Invariant s -> h < next s ->
  (forall id' p, In (id', p) (pendingRequests s) -> settles p = h -> id' = id) ->
  In (h, Resolved v) (settled (run c s later)) ->
  In (h, Resolved v) (settled s) \/
  exists raw w ts,
    In (Received raw) later /\
    deserializer (config c) raw = Deserialized w /\
    asMessage w = IsMessage (ResponseMessage id v None ts).
Proof.
  induction later as [ | a later IH ]; intros s I N K H; [ now left | ].
  cbn [run fold_left] in H.
  destruct (web_step_pending c s a I) as (Mono & Old).
  assert (K' : forall id' p, In (id', p) (pendingRequests (step c s a)) ->
                             settles p = h -> id' = id).
  { intros id' p Hin Hs. destruct (Old id' p Hin) as [ O | O ]; [ eauto | lia ]. }
  destruct (IH (step c s a) (WebFacts.web_invariant_step c s a I) ltac:(lia) K' H)
    as [ R | (raw & w & ts & Hin & D & A) ].
  - destruct (WebSettleFacts.web_step_settled c s a) as (added & E & O).
    rewrite E in R. apply in_app_or in R as [ R | R ]; [ now left | ].
    destruct (O h v R) as (_ & raw & w & id0 & ts & p & -> & D & A & G & Sp).
    right. exists raw, w, ts. split; [ now left | split; [ exact D | ] ].
    rewrite A. do 2 f_equal.
    apply (K id0 p); [ | exact Sp ].
    now apply (JsMapFacts.get_in String.eqb String.eqb_eq).
  - right. exists raw, w, ts. split; [ now right | auto ].
Qed.

Lemma web_call_owns c s id procedure data :
  Invariant s ->
  let s1 := fst (call c s id procedure data) in
  let h := snd (call c s id procedure data) in
  h = next s /\ h < next s1 /\
  (forall id' p, In (id', p) (pendingRequests s1) -> settles p = h -> id' = id) /\
  (forall v, ~ In (h, Resolved v) (settled s1)).
Proof.
  intros (TO & EO & SO).
  assert (Old : forall id' p, In (id', p) (pendingRequests s) -> settles p < next s).
  { intros id' p H. destruct (pending_armed _ _ EO _ _ H) as (E & A).
    destruct (timers_own _ _ _ TO _ _ A) as (_ & L & _). lia. }
  assert (Unsettled : forall how, ~ In (next s, how) (settled s)).
  { intros how H. pose proof (settled_old _ _ _ TO (next s)) as L.
    assert (In (next s) (map fst (settled s))) as M
        by (apply in_map_iff; exists (next s, how); auto).
    specialize (L M). lia. }
  unfold call. destruct (isWebView c); cbn [negb fst snd]; cbv zeta.
  - destruct (WebSettleFacts.web_postToNative_settled c
        (withPending
           (withTimers (withNext s (S (next s)))
              (JsMap.set Nat.eqb (next s) {| expires := id; rejects := next s |}
                 (timers (withNext s (S (next s))))))
           (JsMap.set String.eqb id {| settles := next s; timeoutId := next s |}
              (pendingRequests
                 (withTimers (withNext s (S (next s)))
                    (JsMap.set Nat.eqb (next s) {| expires := id; rejects := next s |}
                       (timers (withNext s (S (next s)))))))))
        (RequestMessage id procedure data None)) as (-> & _ & -> & ->).
    cbn [next pendingRequests settled withPending withTimers withNext].
    split; [ reflexivity | split; [ lia | split ] ].
    + intros id' p H Sp.
      apply (JsMapFacts.In_set String.eqb String.eqb_eq) in H;
        [ | exact (pending_keys _ _ EO) ].
      destruct H as [ (-> & _) | (_ & H) ]; [ reflexivity | ].
      specialize (Old _ _ H). lia.
    + intros v. apply Unsettled.
  - cbn [next pendingRequests settled settle withNext].
    split; [ reflexivity | split; [ lia | split ] ].
    + intros id' p H Sp. specialize (Old _ _ H). lia.
    + intros v H. apply in_app_or in H as [ H | [ H | [] ] ].
      * exact (Unsettled _ H).
      * discriminate H.
Qed.

End WebCorrelationFacts.

(** ** Executions of the native client *)

Module NativeSettleFacts.
Import Core Correlation Native NativeSteps.

Lemma quiet_refl s : quiet s s.
Proof.
  split; [ reflexivity | split; [ auto | ] ].
  exists []. rewrite List.app_nil_r. split; [ reflexivity | intros ? ? [] ].
Qed.

Lemma quiet_trans s1 s2 s3 : quiet s1 s2 -> quiet s2 s3 -> quiet s1 s3.
Proof.
  intros (N1 & P1 & a1 & E1 & R1) (N2 & P2 & a2 & E2 & R2).
  split; [ congruence | split; [ auto | ] ].
  exists (a1 ++ a2). rewrite E2, E1, List.app_assoc. split; [ reflexivity | ].
  intros h v H. apply in_app_or in H as [ H | H ]; [ exact (R1 _ _ H) | exact (R2 _ _ H) ].
Qed.

Lemma quiet_same s s' :
  next s' = next s -> pendingRequests s' = pendingRequests s -> settled s' = settled s ->
  quiet s s'.
Proof.
  intros N P S. split; [ exact N | split ].
  - intros id p H. now rewrite P in H.
  - exists []. rewrite List.app_nil_r. split; [ exact S | intros ? ? [] ].
Qed.

Lemma quiet_reportError c s e : quiet s (reportError c s e).
Proof.
  destruct (NativeFacts.native_reportError_frame c s e) as (_ & B & C & _ & E & _).
  now apply quiet_same.
Qed.

Lemma quiet_failPending s id reason : quiet s (afterwards (failPending s id reason)).
Proof.
  unfold failPending.
  destruct (JsMap.get String.eqb id (pendingRequests s)) as [ p | ];
    [ | apply quiet_refl ].
  cbn [afterwards]. split; [ reflexivity | split ].
  - intros id' p' H. cbn in H.
    apply (JsMapFacts.In_delete String.eqb String.eqb_eq) in H. tauto.
  - eexists. split; [ reflexivity | ]. intros h v [ H | [] ]. discriminate H.
Qed.

Lemma quiet_postMessage c s m : quiet s (afterwards (postMessage c s m)).
Proof.
  unfold postMessage. destruct (negb (webView s)).
  - destruct (isEvent m); [ apply quiet_refl | apply quiet_failPending ].
  - destruct (serializer (config c) (toObject m)) as [ str | e ].
    + cbn [afterwards]. now apply quiet_same.
    + destruct (isRequest m).
      * eapply quiet_trans; [ apply quiet_reportError | apply quiet_failPending ].
      * apply quiet_reportError.
Qed.

Lemma quiet_finish c s m : quiet s (finish (postMessage c s m)).
Proof.
  pose proof (quiet_postMessage c s m) as Q.
  destruct (postMessage c s m) as [ s1 | s1 thrown ]; cbn [finish afterwards] in *;
    [ exact Q | ].
  eapply quiet_trans; [ exact Q | now apply quiet_same ].
Qed.

Lemma quiet_respondError c s now id error : quiet s (respondError c s now id error).
Proof.
  unfold respondError.
  match goal with
  | |- context [ postMessage c s ?m ] =>
      pose proof (quiet_postMessage c s m) as Q; destruct (postMessage c s m)
  end; cbn [afterwards] in Q.
  - eapply quiet_trans; [ exact Q | apply quiet_reportError ].
  - eapply quiet_trans; [ exact Q | now apply quiet_same ].
Qed.

Lemma quiet_resume c s now task : quiet s (resume c s now task).
Proof.
  unfold resume. destruct (outcome task) as [ r | e | ].
  - match goal with
    | |- context [ postMessage c s ?m ] =>
        pose proof (quiet_postMessage c s m) as Q; destruct (postMessage c s m)
    end; cbn [afterwards] in Q; [ exact Q | ].
    eapply quiet_trans; [ exact Q | apply quiet_respondError ].
  - apply quiet_respondError.
  - apply quiet_refl.
Qed.

Lemma quiet_handleEvent c s event data : quiet s (handleEvent c s event data).
Proof.
  pose proof (NativeFacts.native_handleEvent_effect c s event data) as F. cbv zeta in F.
  destruct F as (_ & _ & F3 & _ & _ & _ & _ & F8 & _ & F10 & _).
  now apply quiet_same.
Qed.

Lemma quiet_handleRequest c s now id procedure data :
  quiet s (fst (handleRequest c s now id procedure data)).
Proof.
  unfold handleRequest. destruct (registered s procedure); cbn [fst].
  - apply quiet_finish.
  - now apply quiet_same.
Qed.

Lemma native_cancel_settled entries : forall s,
  let s' := fold_left cancel entries s in
  settled s'
  = settled s ++
    map (fun e => (settles (snd e), Rejected (Error "Client cleanup called"))) entries /\
  next s' = next s.
Proof.
  induction entries as [ | e entries IH ]; intros s; cbn [fold_left map].
  - rewrite List.app_nil_r. auto.
  - destruct (IH (cancel s e)) as (A & B). cbv zeta. rewrite A, B.
    cbn [cancel settle settled next clearTimeout withTimers].
    rewrite <- List.app_assoc. auto.
Qed.

Lemma quiet_cleanup s : quiet s (cleanup s).
Proof.
  unfold cleanup. destruct (native_cancel_settled (pendingRequests s) s) as (A & B).
  cbv zeta in A, B. split; [ exact B | split ].
  - intros id p [].
  - eexists. split; [ exact A | ].
    intros h v H. apply in_map_iff in H as (x & H & _). discriminate H.
Qed.

Lemma quiet_fireTimeout c s t : quiet s (fireTimeout c s t).
Proof.
  unfold fireTimeout. destruct (JsMap.get Nat.eqb t (timers s)) as [ timer | ];
    [ | apply quiet_refl ].
  split; [ reflexivity | split ].
  - intros id p H. cbn in H.
    apply (JsMapFacts.In_delete String.eqb String.eqb_eq) in H. tauto.
  - eexists. split; [ reflexivity | ]. intros h v [ H | [] ]. discriminate H.
Qed.

Lemma quiet_unregister s u : quiet s (unregister s u).
Proof.
  unfold unregister. destruct (deref _ (handlers u)); now apply quiet_same.
Qed.

(** What a step does to the promises and to the entries. *)
Lemma native_step_effect c s a :
  Invariant s ->
  next s <= next (step c s a) /\
  (forall id p, In (id, p) (pendingRequests (step c s a)) ->
                In (id, p) (pendingRequests s) \/ settles p = next s) /\
  exists added,
    settled (step c s a) = settled s ++ added /\
    forall h v, In (h, Resolved v) added ->
      exists now raw w id ts p,
        a = HandleMessage now raw /\
        deserializer (config c) raw = Deserialized w /\
        asMessage w = IsMessage (ResponseMessage id v None ts) /\
        JsMap.get String.eqb id (pendingRequests s) = Some p /\
        settles p = h.
Proof.
  intros (TO & EO & _). pose proof (pending_keys _ _ EO) as ND.
  assert (Q : forall s', quiet s s' ->
            next s <= next s' /\
            (forall id p, In (id, p) (pendingRequests s') ->
                          In (id, p) (pendingRequests s) \/ settles p = next s) /\
            exists added,
              settled s' = settled s ++ added /\
              forall h v, In (h, Resolved v) added ->
                exists now raw w id ts p,
                  a = HandleMessage now raw /\
                  deserializer (config c) raw = Deserialized w /\
                  asMessage w = IsMessage (ResponseMessage id v None ts) /\
                  JsMap.get String.eqb id (pendingRequests s) = Some p /\
                  settles p = h).
  { intros s' (N & P & added & E & R). split; [ lia | split; [ auto | ] ].
    exists added. split; [ exact E | ]. intros h v H. destruct (R _ _ H). }
  destruct a as [ now id p d | now id e d | now id e d | n f | n f | u | now raw
                | now task | t | | attached ]; cbn [step].
  - unfold callWeb.
    match goal with
    | |- context [ postMessage c ?s2 ?m ] =>
        pose proof (quiet_postMessage c s2 m) as (N & P & added & E & R);
        destruct (NativeFacts.native_postMessage_request c s2 id p d (Some now)
                    {| settles := next s; timeoutId := next s |}) as [s3 E3];
        [ cbn; apply (JsMapFacts.get_set_eq String.eqb String.eqb_eq) | ];
        rewrite E3 in *
    end.
    cbn [fst afterwards] in *.
    cbn [next pendingRequests settled withPending withTimers withNext] in N, P, E.
    split; [ lia | split ].
    + intros id' p' H. specialize (P _ _ H).
      apply (JsMapFacts.In_set String.eqb String.eqb_eq) in P; [ | exact ND ].
      destruct P as [ (_ & ->) | (_ & P) ]; auto.
    + exists added. split; [ exact E | ]. intros h v H. destruct (R _ _ H).
  - apply Q. apply quiet_postMessage.
  - apply Q. apply quiet_postMessage.
  - unfold registerWebHandler.
    destruct (RegistryFacts.native_register_shape s n f) as (r & _ & _ & _ & _ & _).
    unfold registerNativeHandler.
    destruct (JsMap.get String.eqb n (nativeHandlers s)); cbn [fst].
    + apply Q. now apply quiet_same.
    + cbn. split; [ lia | split; [ auto | ] ].
      exists []. rewrite List.app_nil_r. split; [ reflexivity | intros ? ? [] ].
  - unfold registerNativeHandler.
    destruct (JsMap.get String.eqb n (nativeHandlers s)); cbn [fst].
    + apply Q. now apply quiet_same.
    + cbn. split; [ lia | split; [ auto | ] ].
      exists []. rewrite List.app_nil_r. split; [ reflexivity | intros ? ? [] ].
  - apply Q, quiet_unregister.
  - unfold handleMessage.
    destruct (deserializer (config c) raw) as [ w | e ] eqn:D.
    + destruct (asMessage w) as [ [ id p d ts | id d err ts | id e d ts ] | | ] eqn:A;
        cbn [fst].
      * apply Q, quiet_handleRequest.
      * destruct (JsMap.get String.eqb id (pendingRequests s)) as [ pe | ] eqn:G.
        -- split; [ | split ].
           ++ unfold handleResponse. rewrite G. destruct err; cbn; lia.
           ++ intros id' p' H. left. unfold handleResponse in H. rewrite G in H.
              destruct err; cbn in H;
                apply (JsMapFacts.In_delete String.eqb String.eqb_eq) in H; tauto.
           ++ rewrite (NativeFacts.native_handleResponse_settled s id pe d err G).
              eexists. split; [ reflexivity | ].
              intros h v [ H | [] ].
              destruct err as [ err | ]; [ discriminate H | ].
              injection H as <- <-.
              exists now, raw, w, id, ts, pe. auto.
        -- apply Q. rewrite (NativeFacts.native_handleResponse_unknown s id d err G).
           apply quiet_refl.
      * apply Q, quiet_handleEvent.
      * apply Q, quiet_reportError.
      * apply Q, quiet_refl.
    + cbn [fst]. apply Q, quiet_reportError.
  - apply Q, quiet_resume.
  - apply Q, quiet_fireTimeout.
  - apply Q, quiet_cleanup.
  - apply Q. now apply quiet_same.
Qed.

Lemma native_owned_run c h id v later : forall s,
  Invariant s -> h < next s ->
  (forall id' p, In (id', p) (pendingRequests s) -> settles p = h -> id' = id) ->
  In (h, Resolved v) (settled (run c s later)) ->
  In (h, Resolved v) (settled s) \/
  exists now raw w ts,
    In (HandleMessage now raw) later /\
    deserializer (config c) raw = Deserialized w /\
    asMessage w = IsMessage (ResponseMessage id v None ts).
Proof.
  induction later as [ | a later IH ]; intros s I N K H; [ now left | ].
  cbn [run fold_left] in H.
  destruct (native_step_effect c s a I) as (Mono & Old & added & E & O).
  assert (K' : forall id' p, In (id', p) (pendingRequests (step c s a)) ->
                             settles p = h -> id' = id).
  { intros id' p Hin Hs. destruct (Old id' p Hin) as [ X | X ]; [ eauto | lia ]. }
  destruct (IH (step c s a) (NativeFacts.native_invariant_step c s a I) ltac:(lia) K' H)
    as [ R | (now & raw & w & ts & Hin & D & A) ].
  - rewrite E in R. apply in_app_or in R as [ R | R ]; [ now left | ].
    destruct (O h v R) as (now & raw & w & id0 & ts & p & -> & D & A & G & Sp).
    right. exists now, raw, w, ts. split; [ now left | split; [ exact D | ] ].
    rewrite A. do 2 f_equal.
    apply (K id0 p); [ | exact Sp ].
    now apply (JsMapFacts.get_in String.eqb String.eqb_eq).
  - right. exists now, raw, w, ts. split; [ now right | auto ].
Qed.

Lemma native_callWeb_owns c s now id procedure data :
  Invariant s ->
  let s1 := fst (callWeb c s now id procedure data) in
  let h := snd (callWeb c s now id procedure data) in
  h = next s /\ h < next s1 /\
  (forall id' p, In (id', p) (pendingRequests s1) -> settles p = h -> id' = id) /\
  (forall v, ~ In (h, Resolved v) (settled s1)).
Proof.
  intros (TO & EO & SO).
  assert (Old : forall id' p, In (id', p) (pendingRequests s) -> settles p < next s).
  { intros id' p H. destruct (pending_armed _ _ EO _ _ H) as (E & A).
    destruct (timers_own _ _ _ TO _ _ A) as (_ & L & _). lia. }
  assert (Unsettled : forall how, ~ In (next s, how) (settled s)).
  { intros how H. pose proof (settled_old _ _ _ TO (next s)) as L.
    assert (In (next s) (map fst (settled s))) as M
        by (apply in_map_iff; exists (next s, how); auto).
    specialize (L M). lia. }
  unfold callWeb.
  match goal with
  | |- context [ postMessage c ?s2 ?m ] =>
      pose proof (quiet_postMessage c s2 m) as (N & P & added & E & R);
      destruct (NativeFacts.native_postMessage_request c s2 id procedure data (Some now)
                  {| settles := next s; timeoutId := next s |}) as [s3 E3];
      [ cbn; apply (JsMapFacts.get_set_eq String.eqb String.eqb_eq) | ];
      rewrite E3 in *
  end.
  cbn [fst snd afterwards] in *. cbv zeta.
  cbn [next pendingRequests settled withPending withTimers withNext] in N, P, E.
  split; [ reflexivity | split; [ lia | split ] ].
  - intros id' p H Sp. specialize (P _ _ H).
    apply (JsMapFacts.In_set String.eqb String.eqb_eq) in P;
      [ | exact (pending_keys _ _ EO) ].
    destruct P as [ (-> & _) | (_ & P) ]; [ reflexivity | ].
    specialize (Old _ _ P). lia.
  - intros v H. rewrite E in H. apply in_app_or in H as [ H | H ].
    + exact (Unsettled _ H).
    + exact (R _ _ H).
Qed.

End NativeSettleFacts.

Module NativeDetachedFacts.
Import Core Correlation Native.

Lemma native_reportError_posted c s e :
  posted (reportError c s e) = posted s /\ webView (reportError c s e) = webView s.
Proof. unfold reportError. destruct (onError (config c)); auto. Qed.

Lemma native_failPending_posted s id reason :
  posted (afterwards (failPending s id reason)) = posted s /\
  webView (afterwards (failPending s id reason)) = webView s.
Proof.
  unfold failPending. destruct (JsMap.get String.eqb id (pendingRequests s)); auto.
Qed.

Lemma native_postMessage_detached c s m :
  webView s = false ->
  posted (afterwards (postMessage c s m)) = posted s /\
  webView (afterwards (postMessage c s m)) = false.
Proof.
  intros V. unfold postMessage. rewrite V. cbn [negb].
  destruct (isEvent m); [ auto | ].
  destruct (native_failPending_posted s (messageId m)
              (WebViewRPCError "WebView ref is null" "WEBVIEW_NULL")) as (A & B).
  rewrite A, B. auto.
Qed.

Lemma native_finish_detached c s m :
  webView s = false -> posted (finish (postMessage c s m)) = posted s.
Proof.
  intros V. destruct (native_postMessage_detached c s m V) as (A & _).
  destruct (postMessage c s m); exact A.
Qed.

Lemma native_respondError_detached c s now id error :
  webView s = false -> posted (respondError c s now id error) = posted s.
Proof.
  intros V. unfold respondError.
  match goal with
  | |- context [ postMessage c s ?m ] =>
      destruct (native_postMessage_detached c s m V) as (A & _); destruct (postMessage c s m)
  end; cbn [afterwards] in A; [ | exact A ].
  now destruct (native_reportError_posted c s0 error) as (-> & _).
Qed.

Lemma native_resume_detached c s now task :
  webView s = false -> posted (resume c s now task) = posted s.
Proof.
  intros V. unfold resume. destruct (outcome task) as [ r | e | ]; [ | | reflexivity ].
  - match goal with
    | |- context [ postMessage c s ?m ] =>
        destruct (native_postMessage_detached c s m V) as (A & B); destruct (postMessage c s m)
    end; cbn [afterwards] in A, B; [ exact A | ].
    now rewrite (native_respondError_detached c s0 now (requestId task) thrown B).
  - now apply native_respondError_detached.
Qed.

Lemma native_cancel_posted entries : forall s,
  posted (fold_left cancel entries s) = posted s.
Proof.
  induction entries as [ | e entries IH ]; intros s; [ reflexivity | ].
  cbn [fold_left]. now rewrite IH.
Qed.

(** Nothing is handed to the transport while [webViewRef.current] is
    [null]. *)
Lemma native_step_detached c s a :
  webView s = false -> posted (step c s a) = posted s.
Proof.
  intros V.
  destruct a as [ now id p d | now id e d | now id e d | n f | n f | u | now raw
                | now task | t | | attached ]; cbn [step].
  - unfold callWeb.
    match goal with
    | |- context [ postMessage c ?s2 ?m ] =>
        destruct (native_postMessage_detached c s2 m V) as (A & _); destruct (postMessage c s2 m)
    end; cbn [afterwards fst] in *; exact A.
  - now destruct (native_postMessage_detached c s (EventMessage id e d (Some now)) V).
  - now destruct (native_postMessage_detached c s (EventMessage id e d (Some now)) V).
  - unfold registerWebHandler, registerNativeHandler.
    destruct (JsMap.get String.eqb n (nativeHandlers s)); reflexivity.
  - unfold registerNativeHandler.
    destruct (JsMap.get String.eqb n (nativeHandlers s)); reflexivity.
  - unfold unregister. destruct (deref _ (handlers u)); reflexivity.
  - unfold handleMessage.
    destruct (deserializer (config c) raw) as [ w | e ].
    + destruct (asMessage w) as [ [ id p d ts | id d err ts | id e d ts ] | | ];
        cbn [fst].
      * unfold handleRequest. destruct (registered s p); cbn [fst];
          [ now apply native_finish_detached | reflexivity ].
      * unfold handleResponse.
        destruct (JsMap.get String.eqb id (pendingRequests s)); [ | reflexivity ].
        destruct err; reflexivity.
      * pose proof (NativeFacts.native_handleEvent_effect c s e d) as F. cbv zeta in F.
        now destruct F as (_ & _ & _ & _ & _ & _ & _ & _ & F9 & _).
      * now destruct (native_reportError_posted c s
                        (TypeError "Cannot read properties of null (reading 'type')")).
      * reflexivity.
    + cbn [fst]. now destruct (native_reportError_posted c s e).
  - now apply native_resume_detached.
  - unfold fireTimeout. destruct (JsMap.get Nat.eqb t (timers s)); reflexivity.
  - unfold cleanup. cbn. apply native_cancel_posted.
  - reflexivity.
Qed.

End NativeDetachedFacts.


(** ** Timers as guards *)

Module WebGuardFacts.
Import Core Correlation Web.

Lemma web_settled_grows c s a x :
  In x (settled s) -> In x (settled (step c s a)).
Proof.
  intros H. destruct (WebSettleFacts.web_step_settled c s a) as (added & -> & _).
  apply in_or_app. now left.
Qed.

Lemma web_cancel_guard entries : forall s h timer,
  (forall e, In e entries -> settles (snd e) = timeoutId (snd e)) ->
  In (h, timer) (timers s) ->
  In (h, timer) (timers (fold_left cancel entries s)) \/
  In h (map fst (settled (fold_left cancel entries s))).
Proof.
  induction entries as [ | e entries IH ]; intros s h timer Own H; [ now left | ].
  cbn [fold_left].
  destruct (Nat.eq_dec h (timeoutId (snd e))) as [ -> | N ].
  - right. destruct (WebRunFacts.web_cancel_settled entries (cancel s e)) as (-> & _).
    rewrite map_app. apply in_or_app. left.
    cbn [cancel settle settled]. rewrite map_app. apply in_or_app. right.
    cbn. left. apply Own. now left.
  - apply IH.
    + intros e' He'. apply Own. now right.
    + cbn [cancel settle timers clearTimeout withTimers].
      apply (JsMapFacts.In_delete Nat.eqb Nat.eqb_eq). auto.
Qed.

(** A timer stays armed through a step unless the step settles the
    promise it guards. *)
Lemma web_step_guard c s a h timer :
  Invariant s ->
  In (h, timer) (timers s) ->
  In (h, timer) (timers (step c s a)) \/ In h (map fst (settled (step c s a))).
Proof.
  intros (TO & EO & _) H.
  pose proof (timers_keys _ _ _ TO) as ND.
  destruct (timers_own _ _ _ TO _ _ H) as (Rj & Lt & _).
  assert (PN : forall s0 m, timers (postToNative c s0 m) = timers s0).
  { intros s0 m. pose proof (WebFacts.web_postToNative_frame c s0 m) as F.
    cbv zeta in F. now destruct F as (F1 & _). }
  assert (RE : forall s0 e, timers (reportError c s0 e) = timers s0).
  { intros s0 e. now destruct (WebRunFacts.web_reportError_log c s0 e) as (_ & _ & _ & D & _). }
  destruct a as [ id p d | id e d | e f | p f | u | raw | task | t | ]; cbn [step].
  - left. rewrite WebFacts.web_call_timers. destruct (negb (isWebView c)); [ exact H | ].
    apply (JsMapFacts.In_set_other Nat.eqb Nat.eqb_eq); [ lia | exact H ].
  - left. unfold emit. destruct (negb (isWebView c)); [ exact H | ]. now rewrite PN.
  - left. destruct (WebRunFacts.web_handleNativeEvent_frame s e f) as (_ & _ & _ & D & _).
    cbv zeta in D. now rewrite D.
  - left. exact H.
  - left. destruct (WebRunFacts.web_unregister_frame s u) as (_ & _ & _ & D & _).
    cbv zeta in D. now rewrite D.
  - unfold receive. destruct (listening s); [ | now left ].
    unfold handleMessage.
    destruct (deserializer (config c) raw) as [ w | e ]; [ | left; cbn [fst]; now rewrite RE ].
    destruct (asMessage w) as [ [ id p d ts | id d err ts | id e d ts ] | | ]; cbn [fst].
    + left. unfold handleRequest.
      destruct (JsMap.get String.eqb p (procedureHandlers s)); cbn [fst];
        [ exact H | now rewrite PN ].
    + destruct (JsMap.get String.eqb id (pendingRequests s)) as [ pe | ] eqn:G.
      * destruct (pending_armed _ _ EO _ _
                    (JsMapFacts.get_in String.eqb String.eqb_eq _ _ _ G)) as (Own & _).
        destruct (Nat.eq_dec h (timeoutId pe)) as [ -> | N ].
        -- right. rewrite (WebFacts.web_handleResponse_settled s id pe d err G).
           rewrite map_app. apply in_or_app. right. cbn. now left.
        -- left. unfold handleResponse. rewrite G.
           destruct err; cbn; apply (JsMapFacts.In_delete Nat.eqb Nat.eqb_eq); auto.
      * left. now rewrite (WebFacts.web_handleResponse_unknown s id d err G).
    + left. pose proof (WebFacts.web_handleEvent_effect c s e d) as F. cbv zeta in F.
      destruct F as (_ & _ & _ & _ & _ & _ & F7 & _). now rewrite F7.
    + left. now rewrite RE.
    + now left.
  - left. unfold resume. destruct (outcome task) as [ r | e | ];
      rewrite ?PN, ?RE; exact H.
  - destruct (JsMap.get Nat.eqb t (timers s)) as [ timer0 | ] eqn:G.
    + destruct (Nat.eq_dec h t) as [ -> | N ].
      * right. rewrite (WebFacts.web_fireTimeout_settled c s t timer0 G).
        rewrite map_app. apply in_or_app. right. cbn. left.
        pose proof (JsMapFacts.get_in Nat.eqb Nat.eqb_eq _ _ _ G) as H0.
        now destruct (timers_own _ _ _ TO _ _ H0).
      * left. unfold fireTimeout. rewrite G. cbn.
        apply (JsMapFacts.In_delete Nat.eqb Nat.eqb_eq). auto.
    + left. now rewrite (WebFacts.web_fireTimeout_unarmed c s t G).
  - assert (Own : forall e, In e (pendingRequests s) ->
                            settles (snd e) = timeoutId (snd e)).
    { intros [id pe] He. now destruct (pending_armed _ _ EO _ _ He). }
    destruct (web_cancel_guard (pendingRequests s) s h timer Own H) as [ K | K ].
    + left. unfold cleanup. destruct (windowDefined c); exact K.
    + right. unfold cleanup. destruct (windowDefined c); exact K.
Qed.

Lemma web_run_guard c later : forall s h timer,
  Invariant s ->
  In (h, timer) (timers s) \/ In h (map fst (settled s)) ->
  In (h, timer) (timers (run c s later)) \/ In h (map fst (settled (run c s later))).
Proof.
  induction later as [ | a later IH ]; intros s h timer I H; [ exact H | ].
  cbn [run fold_left]. apply IH; [ now apply WebFacts.web_invariant_step | ].
  destruct H as [ H | H ].
  - now apply web_step_guard.
  - right. apply in_map_iff in H as (x & <- & H).
    apply in_map. now apply web_settled_grows.
Qed.

End WebGuardFacts.

Module NativeGuardFacts.
Import Core Correlation Native NativeGuards.

Lemma guarded_same s s' :
  timers s' = timers s -> settled s' = settled s -> guarded s s'.
Proof.
  intros T S. split.
  - intros h timer H. left. now rewrite T.
  - intros x H. now rewrite S.
Qed.

Lemma guarded_trans s1 s2 s3 : guarded s1 s2 -> guarded s2 s3 -> guarded s1 s3.
Proof.
  intros (A1 & B1) (A2 & B2). split; [ | auto ].
  intros h timer H. destruct (A1 _ _ H) as [ K | K ]; [ auto | ].
  right. apply in_map_iff in K as (x & <- & K). apply in_map. auto.
Qed.

Lemma guarded_reportError c s e : guarded s (reportError c s e).
Proof.
  destruct (NativeFacts.native_reportError_frame c s e) as (A & B & _).
  now apply guarded_same.
Qed.

Lemma guarded_failPending s id reason :
  Invariant s -> guarded s (afterwards (failPending s id reason)).
Proof.
  intros (_ & EO & _). unfold failPending.
  destruct (JsMap.get String.eqb id (pendingRequests s)) as [ p | ] eqn:G;
    [ | now apply guarded_same ].
  destruct (pending_armed _ _ EO _ _
              (JsMapFacts.get_in String.eqb String.eqb_eq _ _ _ G)) as (Own & _).
  cbn [afterwards]. split.
  - intros h timer H. destruct (Nat.eq_dec h (timeoutId p)) as [ -> | N ].
    + right. cbn. rewrite map_app. apply in_or_app. right. cbn. now left.
    + left. cbn. apply (JsMapFacts.In_delete Nat.eqb Nat.eqb_eq). auto.
  - intros x H. cbn. apply in_or_app. now left.
Qed.

Lemma guarded_postMessage c s m :
  Invariant s -> guarded s (afterwards (postMessage c s m)).
Proof.
  intros I. unfold postMessage. destruct (negb (webView s)).
  - destruct (isEvent m); [ now apply guarded_same | now apply guarded_failPending ].
  - destruct (serializer (config c) (toObject m)) as [ str | e ].
    + now apply guarded_same.
    + destruct (isRequest m).
      * eapply guarded_trans; [ apply guarded_reportError | ].
        apply guarded_failPending. now apply NativeFacts.native_invariant_reportError.
      * apply guarded_reportError.
Qed.

Lemma guarded_finish c s m : Invariant s -> guarded s (finish (postMessage c s m)).
Proof.
  intros I. pose proof (guarded_postMessage c s m I) as Q.
  destruct (postMessage c s m) as [ s1 | s1 thrown ]; cbn [finish afterwards] in *;
    [ exact Q | ].
  eapply guarded_trans; [ exact Q | now apply guarded_same ].
Qed.

Lemma guarded_respondError c s now id error :
  Invariant s -> guarded s (respondError c s now id error).
Proof.
  intros I. unfold respondError.
  match goal with
  | |- context [ postMessage c s ?m ] =>
      pose proof (guarded_postMessage c s m I) as Q; destruct (postMessage c s m)
  end; cbn [afterwards] in Q.
  - eapply guarded_trans; [ exact Q | apply guarded_reportError ].
  - eapply guarded_trans; [ exact Q | now apply guarded_same ].
Qed.

Lemma guarded_resume c s now task : Invariant s -> guarded s (resume c s now task).
Proof.
  intros I. unfold resume. destruct (outcome task) as [ r | e | ].
  - match goal with
    | |- context [ postMessage c s ?m ] =>
        pose proof (guarded_postMessage c s m I) as Q;
        pose proof (NativeFacts.native_invariant_postMessage c s m I) as I1;
        destruct (postMessage c s m)
    end; cbn [afterwards] in Q, I1; [ exact Q | ].
    eapply guarded_trans; [ exact Q | now apply guarded_respondError ].
  - now apply guarded_respondError.
  - now apply guarded_same.
Qed.

Lemma native_cancel_guard entries : forall s h timer,
  (forall e, In e entries -> settles (snd e) = timeoutId (snd e)) ->
  In (h, timer) (timers s) ->
  In (h, timer) (timers (fold_left cancel entries s)) \/
  In h (map fst (settled (fold_left cancel entries s))).
Proof.
  induction entries as [ | e entries IH ]; intros s h timer Own H; [ now left | ].
  cbn [fold_left].
  destruct (Nat.eq_dec h (timeoutId (snd e))) as [ -> | N ].
  - right. destruct (NativeSettleFacts.native_cancel_settled entries (cancel s e)) as (-> & _).
    rewrite map_app. apply in_or_app. left.
    cbn [cancel settle settled]. rewrite map_app. apply in_or_app. right.
    cbn. left. apply Own. now left.
  - apply IH.
    + intros e' He'. apply Own. now right.
    + cbn [cancel settle timers clearTimeout withTimers].
      apply (JsMapFacts.In_delete Nat.eqb Nat.eqb_eq). auto.
Qed.

Lemma native_step_guard c s a : Invariant s -> guarded s (step c s a).
Proof.
  intros I. pose proof I as (TO & EO & SO).
  destruct a as [ now id p d | now id e d | now id e d | n f | n f | u | now raw
                | now task | t | | attached ]; cbn [step].
  - unfold callWeb.
    destruct (CorrelationFacts.register_ok _ _ _ _ id TO EO) as (T' & P').
    match goal with
    | |- context [ postMessage c ?s2 ?m ] =>
        assert (I2 : Invariant s2) by (split; [ | split ]; simpl; auto);
        pose proof (guarded_postMessage c s2 m I2) as Q;
        assert (G2 : guarded s s2);
        [ | destruct (postMessage c s2 m) as [ s3 | s3 thrown ] ]
    end.
    + split.
      * intros h timer H. left. cbn.
        destruct (timers_own _ _ _ TO _ _ H) as (_ & Lt & _).
        apply (JsMapFacts.In_set_other Nat.eqb Nat.eqb_eq); [ lia | exact H ].
      * auto.
    + cbn [fst afterwards] in *. eapply guarded_trans; eauto.
    + cbn [fst afterwards] in *. eapply guarded_trans; [ exact G2 | ].
      eapply guarded_trans; [ exact Q | ].
      split.
      * intros h timer H. now left.
      * intros x H. cbn. apply in_or_app. now left.
  - now apply guarded_postMessage.
  - now apply guarded_postMessage.
  - unfold registerWebHandler, registerNativeHandler.
    destruct (JsMap.get String.eqb n (nativeHandlers s)); now apply guarded_same.
  - unfold registerNativeHandler.
    destruct (JsMap.get String.eqb n (nativeHandlers s)); now apply guarded_same.
  - unfold unregister. destruct (deref _ (handlers u)); now apply guarded_same.
  - unfold handleMessage.
    destruct (deserializer (config c) raw) as [ w | e ];
      [ | cbn [fst]; apply guarded_reportError ].
    destruct (asMessage w) as [ [ id p d ts | id d err ts | id e d ts ] | | ]; cbn [fst].
    + unfold handleRequest. destruct (registered s p); cbn [fst];
        [ now apply guarded_finish | now apply guarded_same ].
    + destruct (JsMap.get String.eqb id (pendingRequests s)) as [ pe | ] eqn:G.
      * destruct (pending_armed _ _ EO _ _
                    (JsMapFacts.get_in String.eqb String.eqb_eq _ _ _ G)) as (Own & _).
        split.
        -- intros h timer H. destruct (Nat.eq_dec h (timeoutId pe)) as [ -> | N ].
           ++ right. rewrite (NativeFacts.native_handleResponse_settled s id pe d err G).
              rewrite map_app. apply in_or_app. right. cbn. now left.
           ++ left. unfold handleResponse. rewrite G.
              destruct err; cbn; apply (JsMapFacts.In_delete Nat.eqb Nat.eqb_eq); auto.
        -- intros x H. rewrite (NativeFacts.native_handleResponse_settled s id pe d err G).
           apply in_or_app. now left.
      * rewrite (NativeFacts.native_handleResponse_unknown s id d err G).
        now apply guarded_same.
    + pose proof (NativeFacts.native_handleEvent_effect c s e d) as F. cbv zeta in F.
      destruct F as (_ & _ & _ & _ & _ & F6 & _ & _ & _ & F10 & _).
      now apply guarded_same.
    + apply guarded_reportError.
    + now apply guarded_same.
  - now apply guarded_resume.
  - destruct (JsMap.get Nat.eqb t (timers s)) as [ timer0 | ] eqn:G.
    + split.
      * intros h timer H. destruct (Nat.eq_dec h t) as [ -> | N ].
        -- right. rewrite (NativeFacts.native_fireTimeout_settled c s t timer0 G).
           rewrite map_app. apply in_or_app. right. cbn. left.
           pose proof (JsMapFacts.get_in Nat.eqb Nat.eqb_eq _ _ _ G) as H0.
           now destruct (timers_own _ _ _ TO _ _ H0).
        -- left. unfold fireTimeout. rewrite G. cbn.
           apply (JsMapFacts.In_delete Nat.eqb Nat.eqb_eq). auto.
      * intros x H. rewrite (NativeFacts.native_fireTimeout_settled c s t timer0 G).
        apply in_or_app. now left.
    + rewrite (NativeFacts.native_fireTimeout_unarmed c s t G). now apply guarded_same.
  - assert (Own : forall e, In e (pendingRequests s) ->
                            settles (snd e) = timeoutId (snd e)).
    { intros [id pe] He. now destruct (pending_armed _ _ EO _ _ He). }
    split.
    + intros h timer H.
      destruct (native_cancel_guard (pendingRequests s) s h timer Own H) as [ K | K ];
        [ left | right ]; exact K.
    + intros x H. unfold cleanup. cbn.
      destruct (NativeSettleFacts.native_cancel_settled (pendingRequests s) s) as (-> & _).
      apply in_or_app. now left.
  - now apply guarded_same.
Qed.

Lemma native_run_guard c later : forall s h timer,
  Invariant s ->
  In (h, timer) (timers s) \/ In h (map fst (settled s)) ->
  In (h, timer) (timers (run c s later)) \/ In h (map fst (settled (run c s later))).
Proof.
  induction later as [ | a later IH ]; intros s h timer I H; [ exact H | ].
  cbn [run fold_left]. apply IH; [ now apply NativeFacts.native_invariant_step | ].
  destruct (native_step_guard c s a I) as (A & B).
  destruct H as [ H | H ]; [ now apply A | ].
  right. apply in_map_iff in H as (x & <- & H). apply in_map. now apply B.
Qed.

Lemma native_callWeb_guard c s now id procedure data :
  Invariant s ->
  let h := snd (callWeb c s now id procedure data) in
  In (h, {| expires := id; rejects := h |})
     (timers (fst (callWeb c s now id procedure data))) \/
  In h (map fst (settled (fst (callWeb c s now id procedure data)))).
Proof.
  intros I. pose proof I as (TO & EO & SO). unfold callWeb.
  destruct (CorrelationFacts.register_ok _ _ _ _ id TO EO) as (T' & P').
  match goal with
  | |- context [ postMessage c ?s2 ?m ] =>
      assert (I2 : Invariant s2) by (split; [ | split ]; simpl; auto);
      destruct (guarded_postMessage c s2 m I2) as (Q & _);
      specialize (Q (next s) {| expires := id; rejects := next s |});
      destruct (postMessage c s2 m) as [ s3 | s3 thrown ]
  end; cbn [fst snd afterwards] in *; cbv zeta.
  - apply Q. cbn. apply JsMapFacts.In_set_same.
  - right. cbn. rewrite map_app. apply in_or_app. right. now left.
Qed.

End NativeGuardFacts.

(** ** Properties of the code beyond the claims *)

(** X1.  Whatever values in the interval from 0 (included) to 1 (excluded)
    [Math.random()] returns, [generateCorrelationId()] returns a string of
    36 characters that matches the template it is made from read as a
    pattern, which is the pattern of a UUID of version 4: hyphens at the
    positions 8, 13, 18 and 23, the digit [4] at position 14, one of [8],
    [9], [a], [b] at position 19 and a lower-case hexadecimal digit at
    every other position. *)
Theorem generated_id_has_uuid_v4_format (random : nat -> QArith_base.Q) :
  (forall k, CorrelationId.inUnitInterval (random k)) ->
  String.length (CorrelationId.generateCorrelationId random) = 36 /\
  CorrelationId.matchesTemplate CorrelationId.template
    (CorrelationId.generateCorrelationId random) = true.
Proof.
  intros H. split.
  - unfold CorrelationId.generateCorrelationId.
    now rewrite (CorrelationIdFacts.length_replaceXY random H).
  - apply CorrelationIdFacts.matches_replaceXY, H.
Qed.

Lemma generated_id_has_uuid_v4_format_witness :
  CorrelationId.generateCorrelationId (fun k => QArith_base.Qmake (Z.of_nat (k mod 16)) 16)
  = "01234567-89ab-4cde-b012-3456789abcde" /\
  CorrelationId.matchesTemplate CorrelationId.template
    (CorrelationId.generateCorrelationId
       (fun k => QArith_base.Qmake (Z.of_nat (k mod 16)) 16)) = true.
Proof.
  split; [ reflexivity | ].
  apply (generated_id_has_uuid_v4_format (fun k => QArith_base.Qmake (Z.of_nat (k mod 16)) 16)).
  intros k. pose proof (Nat.mod_upper_bound k 16 ltac:(lia)).
  unfold CorrelationId.inUnitInterval, QArith_base.Qle, QArith_base.Qlt.
  cbn [QArith_base.Qnum QArith_base.Qden QArith_base.inject_Z]. lia.
Defined.

(** X2.  Two calls of [generateCorrelationId()] return the same string
    exactly when their 31 draws of [Math.random()] agree one by one in
    [(draw * 16) | 0], and for the sixteenth draw, which fills the [y] of
    the template, in that integer modulo 4: this much of the draws is
    kept in the id, and nothing else. *)
Theorem generated_ids_equal_iff_draws_agree (r1 r2 : nat -> QArith_base.Q) :
  (forall k, CorrelationId.inUnitInterval (r1 k)) ->
  (forall k, CorrelationId.inUnitInterval (r2 k)) ->
  (CorrelationId.generateCorrelationId r1 = CorrelationId.generateCorrelationId r2 <->
   forall k, k < 31 ->
     if (k =? 15)%nat
     then (CorrelationId.nibble (r1 k) mod 4 = CorrelationId.nibble (r2 k) mod 4)%Z
     else CorrelationId.nibble (r1 k) = CorrelationId.nibble (r2 k)).
Proof.
  intros H1 H2. unfold CorrelationId.generateCorrelationId.
  rewrite (CorrelationIdFacts.replaceXY_eq r1 r2 H1 H2 CorrelationId.template 0).
  change (length (CorrelationId.marks CorrelationId.template)) with 31.
  split; intros E k Hk; specialize (E k Hk); cbn [Nat.add] in *.
  - do 31 (destruct k as [ | k ];
           [ cbn [Nat.eqb];
             first [ apply (CorrelationIdFacts.replacement_x_inj _ _ (H1 _) (H2 _)); exact E
                   | apply (CorrelationIdFacts.replacement_y_inj _ _ (H1 _) (H2 _)); exact E ]
           | ]).
    lia.
  - do 31 (destruct k as [ | k ];
           [ cbn [Nat.eqb] in E;
             first [ apply (CorrelationIdFacts.replacement_x_inj _ _ (H1 _) (H2 _)); exact E
                   | apply (CorrelationIdFacts.replacement_y_inj _ _ (H1 _) (H2 _)); exact E ]
           | ]).
    lia.
Qed.

(** Two sequences of draws that differ and agree in what is kept. *)
Lemma generated_ids_equal_iff_draws_agree_witness :
  CorrelationId.generateCorrelationId
    (fun k => QArith_base.Qmake (Z.of_nat (k mod 16)) 16)
  = CorrelationId.generateCorrelationId
      (fun k => QArith_base.Qmake (2 * Z.of_nat (k mod 16) + 1) 32).
Proof.
  assert (H1 : forall k,
             CorrelationId.inUnitInterval
               (QArith_base.Qmake (Z.of_nat (k mod 16)) 16)).
  { intros k. pose proof (Nat.mod_upper_bound k 16 ltac:(lia)).
    unfold CorrelationId.inUnitInterval, QArith_base.Qle, QArith_base.Qlt.
    cbn [QArith_base.Qnum QArith_base.Qden QArith_base.inject_Z]. lia. }
  assert (H2 : forall k,
             CorrelationId.inUnitInterval
               (QArith_base.Qmake (2 * Z.of_nat (k mod 16) + 1) 32)).
  { intros k. pose proof (Nat.mod_upper_bound k 16 ltac:(lia)).
    unfold CorrelationId.inUnitInterval, QArith_base.Qle, QArith_base.Qlt.
    cbn [QArith_base.Qnum QArith_base.Qden QArith_base.inject_Z]. lia. }
  apply (proj2 (generated_ids_equal_iff_draws_agree
                  (fun k => QArith_base.Qmake (Z.of_nat (k mod 16)) 16)
                  (fun k => QArith_base.Qmake (2 * Z.of_nat (k mod 16) + 1) 32)
                  H1 H2)).
  intros k Hk.
  do 31 (destruct k as [ | k ]; [ reflexivity | ]). lia.
Defined.

(** X3.  [procedure(schema)] returns the object [schema] itself, which
    [isProcedure] accepts from then on.  [schema.returns(r)] stores [r] as
    [_returnSchema] of that same object and returns the object again; a
    second call replaces the return schema of the first.  The other
    properties of the object and all other objects are left as they
    were, so that [isProcedure] answers for them as before. *)
Theorem procedure_marks_the_schema_itself :
  forall h schema r1 r2,
    let h1 := fst (Schema.procedure h schema) in
    snd (Schema.procedure h schema) = schema /\
    Schema.isProcedure h1 schema = true /\
    (exists h2 h3,
        Schema.callReturns h1 schema r1 = Some (h2, schema) /\
        Schema.callReturns h2 schema r2 = Some (h3, schema) /\
        Schema.getProperty h2 schema "_returnSchema" = Some (Schema.Object r1) /\
        Schema.getProperty h3 schema "_returnSchema" = Some (Schema.Object r2) /\
        Schema.isProcedure h3 schema = true /\
        (forall k, k <> "returns" -> k <> "_returnSchema" ->
                   Schema.getProperty h3 schema k = Schema.getProperty h schema k) /\
        (forall o, o <> schema ->
                   Schema.properties h3 o = Schema.properties h o /\
                   Schema.isProcedure h3 o = Schema.isProcedure h o)).
Proof.
  intros h schema r1 r2 h1. unfold h1, Schema.procedure. cbn [fst snd].
  split; [ reflexivity | split ].
  - unfold Schema.isProcedure. now rewrite SchemaFacts.schema_get_set_same.
  - unfold Schema.callReturns. rewrite SchemaFacts.schema_get_set_same.
    eexists. eexists. split; [ reflexivity | ].
    unfold Schema.returns.
    rewrite SchemaFacts.schema_get_set_other_key by discriminate.
    rewrite SchemaFacts.schema_get_set_same.
    split; [ reflexivity | ].
    rewrite !SchemaFacts.schema_get_set_same.
    split; [ reflexivity | split; [ reflexivity | split ] ].
    + unfold Schema.isProcedure.
      rewrite !SchemaFacts.schema_get_set_other_key by discriminate.
      now rewrite SchemaFacts.schema_get_set_same.
    + split.
      * intros k N1 N2. rewrite !SchemaFacts.schema_get_set_other_key; auto.
      * intros o N. unfold Schema.isProcedure, Schema.getProperty.
        rewrite !SchemaFacts.schema_properties_set_other; auto.
Qed.

(** A schema object without properties, at reference 0. *)
Lemma procedure_marks_the_schema_itself_witness :
  Schema.isProcedure [] 0 = false /\
  Schema.isProcedure (fst (Schema.procedure [] 0)) 0 = true.
Proof.
  split; [ reflexivity | ].
  exact (proj1 (proj2 (procedure_marks_the_schema_itself [] 0 1 2))).
Defined.

(** X4.  For every value [v] other than [undefined] whose integers are in
    the safe range (the keys of an object being pairwise distinct, as in
    every JavaScript object), [defaultDeserializer(defaultSerializer(v))]
    is [v]
    without the members of its objects that are [undefined], with [null]
    in the place of [undefined] inside its arrays and in the place of
    [NaN] wherever it stands; it is [v] itself exactly when [v] holds no
    [undefined] and no [NaN]. *)
Theorem default_transport_round_trip :
  forall v,
    Lossy.printable v = true -> v <> JUndefined ->
    exists raw,
      Core.defaultSerializer v = Core.Serialized (Some raw) /\
      Core.defaultDeserializer raw = Core.Deserialized (Lossy.normalize v) /\
      (Lossy.normalize v = v <-> Json.jsonSafe v = true).
Proof.
  intros v P N. exists (Json.elementText v). split; [ | split ].
  - unfold Core.defaultSerializer. now rewrite (LossyFacts.stringify_defined v N).
  - unfold Core.defaultDeserializer. now rewrite (LossyFacts.parse_stringify_normal v P).
  - split; [ apply LossyFacts.safe_of_fixed, P | apply LossyFacts.normalize_safe ].
Qed.

Lemma default_transport_round_trip_witness :
  exists raw,
    Core.defaultSerializer
      (JObj [("a", JArr [JNum 1; JUndefined; JNaN]); ("b", JUndefined); ("c", JStr "x")])
    = Core.Serialized (Some raw) /\
    Core.defaultDeserializer raw
    = Core.Deserialized (JObj [("a", JArr [JNum 1; JNull; JNull]); ("c", JStr "x")]).
Proof.
  destruct (default_transport_round_trip
              (JObj [("a", JArr [JNum 1; JUndefined; JNaN]); ("b", JUndefined);
                     ("c", JStr "x")])
              eq_refl ltac:(discriminate)) as (raw & A & B & _).
  exists raw. split; [ exact A | exact B ].
Defined.

(** X5.  A call of the web client answered by the native client, both
    using the default transport, the web client inside a WebView and
    listening, the native client with its WebView attached.
    [call(procedure, data)] hands the text of one request to the
    transport.  Receiving that text, the native client invokes the first
    handler registered for [procedure] with the payload as the transport
    leaves it.  When that handler returns [result], the native client
    hands the text of one response to the transport.  Receiving that
    text, the web client resolves the promise of the call with [result]
    as the transport leaves it, removes the entry of the call and clears
    its timer. *)
Theorem web_call_is_answered_by_native :
  forall cw sw cn sn now id procedure data handler others result,
    Web.isWebView cw = true -> Web.listening sw = true ->
    Web.serializer (Web.config cw) = Core.defaultSerializer ->
    Web.deserializer (Web.config cw) = Core.defaultDeserializer ->
    Native.webView sn = true ->
    Native.serializer (Native.config cn) = Core.defaultSerializer ->
    Native.deserializer (Native.config cn) = Core.defaultDeserializer ->
    Native.registered sn procedure = handler :: others ->
    Native.behaviour cn handler (Lossy.sent data) = Core.Returns result ->
    Lossy.printable data = true -> Lossy.printable result = true ->
    (Z.abs now <=? Json.maxSafeInteger)%Z = true ->
    exists request response task,
      let sw1 := fst (Web.call cw sw id procedure data) in
      let promise := snd (Web.call cw sw id procedure data) in
      let sn1 := Native.recordCall sn handler (Lossy.sent data) in
      let sw2 := fst (Web.receive cw sw1 response) in
      Web.posted sw1 = Web.posted sw ++ [Some request] /\
      Native.handleMessage cn sn now request = (sn1, Some task) /\
      Native.posted (Native.resume cn sn1 now task) = Native.posted sn ++ [Some response] /\
      Web.settled sw2
      = Web.settled sw ++ [(promise, Core.Resolved (Lossy.sent result))] /\
      JsMap.get String.eqb id (Web.pendingRequests sw2) = None /\
      JsMap.get Nat.eqb promise (Web.timers sw2) = None.
Proof.
  intros cw sw cn sn now id procedure data handler others result
         W L SerW DesW V SerN DesN H B Pd Pr Safe.
  assert (P1 : Lossy.printableMessage (Core.RequestMessage id procedure data None) = true).
  { unfold Lossy.printableMessage. cbn [Core.messageData Core.messageTimestamp].
    now rewrite Pd. }
  assert (P2 : Lossy.printableMessage
                 (Core.ResponseMessage id result None (Some now)) = true).
  { unfold Lossy.printableMessage. cbn [Core.messageData Core.messageTimestamp].
    now rewrite Pr, Safe. }
  destruct (LossyFacts.decode_encode_normal _ P1) as (request & v1 & E1 & D1 & A1).
  destruct (LossyFacts.decode_encode_normal _ P2) as (response & v2 & E2 & D2 & A2).
  cbn [Lossy.transported] in A1, A2.
  exists request, response,
    {| Native.requestId := id; Native.outcome := Core.Returns result |}.
  cbv zeta.
  assert (S1 : Web.serializer (Web.config cw)
                 (Core.toObject (Core.RequestMessage id procedure data None))
               = Core.Serialized (Some request)) by now rewrite SerW.
  destruct (BridgeFacts.web_call_posts cw sw id procedure data request W S1)
    as (Post & Lis & _).
  destruct (WebFacts.web_call_arms cw sw id procedure data W) as (_ & Pr1 & Set1 & G1).
  split; [ exact Post | ].
  split.
  { unfold Native.handleMessage. rewrite DesN, D1, A1.
    unfold Native.handleRequest. now rewrite H, B. }
  split.
  { unfold Native.resume. cbn [Native.outcome Native.requestId].
    rewrite (BridgeFacts.native_postMessage_posts cn _ _ response);
      [ reflexivity | exact V | now rewrite SerN ]. }
  assert (D2' : Web.deserializer (Web.config cw) response = Core.Deserialized v2)
    by now rewrite DesW.
  rewrite <- Lis in L.
  destruct (BridgeFacts.web_receive_response cw _ response v2 id (Lossy.sent result)
              None (Some now) _ L D2' A2 G1) as (R1 & R2 & R3).
  cbn [Correlation.settles Correlation.timeoutId] in R1, R3.
  rewrite Pr1. rewrite R1, Set1. auto.
Qed.

Lemma web_call_is_answered_by_native_witness :
  exists request response task,
    Native.handleMessage Sample.native
      (fst (Native.registerNativeHandler (Native.create true) "share" 2))
      7 request
    = (Native.recordCall
         (fst (Native.registerNativeHandler (Native.create true) "share" 2))
         2 (JObj [("url", JStr "https://example.com"); ("tags", JArr [JNull])]),
       Some task) /\
    Web.settled
      (fst (Web.receive Sample.web
              (fst (Web.call Sample.web (Web.create Sample.web) "id-1" "share"
                      (JObj [("url", JStr "https://example.com");
                             ("title", JUndefined); ("tags", JArr [JNaN])])))
              response))
    = [(0, Core.Resolved
             (JObj [("url", JStr "https://example.com"); ("tags", JArr [JNull])]))].
Proof.
  destruct (web_call_is_answered_by_native Sample.web (Web.create Sample.web)
              Sample.native
              (fst (Native.registerNativeHandler (Native.create true) "share" 2))
              7%Z "id-1" "share"
              (JObj [("url", JStr "https://example.com");
                     ("title", JUndefined); ("tags", JArr [JNaN])])
              2 []
              (JObj [("url", JStr "https://example.com"); ("tags", JArr [JNull])])
              eq_refl eq_refl eq_refl eq_refl eq_refl eq_refl eq_refl eq_refl
              eq_refl eq_refl eq_refl eq_refl)
    as (request & response & task & _ & A & _ & B & _).
  exists request, response, task. split; [ exact A | exact B ].
Defined.

(** X6.  A call of the native client answered by the web client, under
    the same conditions.  [callWeb(procedure, data)] hands the text of one
    request to the WebView.  Receiving it, the web client invokes the
    handler registered for [procedure] with the payload as the transport
    leaves it; when the handler returns [result], the web client hands the
    text of one response to the transport.  Receiving that text, the
    native client resolves the promise of the call with [result] as the
    transport leaves it, removes the entry of the call and clears its
    timer. *)
Theorem native_call_is_answered_by_web :
  forall cn sn cw sw now id procedure data handler result,
    Native.webView sn = true ->
    Native.serializer (Native.config cn) = Core.defaultSerializer ->
    Native.deserializer (Native.config cn) = Core.defaultDeserializer ->
    Web.isWebView cw = true -> Web.listening sw = true ->
    Web.serializer (Web.config cw) = Core.defaultSerializer ->
    Web.deserializer (Web.config cw) = Core.defaultDeserializer ->
    JsMap.get String.eqb procedure (Web.procedureHandlers sw) = Some handler ->
    Web.behaviour cw handler (Lossy.sent data) = Core.Returns result ->
    Lossy.printable data = true -> Lossy.printable result = true ->
    (Z.abs now <=? Json.maxSafeInteger)%Z = true ->
    exists request response task,
      let sn1 := fst (Native.callWeb cn sn now id procedure data) in
      let promise := snd (Native.callWeb cn sn now id procedure data) in
      let sw1 := Web.recordCall sw handler (Lossy.sent data) in
      let sn2 := fst (Native.handleMessage cn sn1 now response) in
      Native.posted sn1 = Native.posted sn ++ [Some request] /\
      Web.receive cw sw request = (sw1, Some task) /\
      Web.posted (Web.resume cw sw1 task) = Web.posted sw ++ [Some response] /\
      Native.settled sn2
      = Native.settled sn ++ [(promise, Core.Resolved (Lossy.sent result))] /\
      JsMap.get String.eqb id (Native.pendingRequests sn2) = None /\
      JsMap.get Nat.eqb promise (Native.timers sn2) = None.
Proof.
  intros cn sn cw sw now id procedure data handler result
         V SerN DesN W L SerW DesW H B Pd Pr Safe.
  assert (P1 : Lossy.printableMessage
                 (Core.RequestMessage id procedure data (Some now)) = true).
  { unfold Lossy.printableMessage. cbn [Core.messageData Core.messageTimestamp].
    now rewrite Pd, Safe. }
  assert (P2 : Lossy.printableMessage (Core.ResponseMessage id result None None) = true).
  { unfold Lossy.printableMessage. cbn [Core.messageData Core.messageTimestamp].
    now rewrite Pr. }
  destruct (LossyFacts.decode_encode_normal _ P1) as (request & v1 & E1 & D1 & A1).
  destruct (LossyFacts.decode_encode_normal _ P2) as (response & v2 & E2 & D2 & A2).
  cbn [Lossy.transported] in A1, A2.
  exists request, response,
    {| Web.requestId := id; Web.outcome := Core.Returns result |}.
  cbv zeta.
  assert (S1 : Native.serializer (Native.config cn)
                 (Core.toObject (Core.RequestMessage id procedure data (Some now)))
               = Core.Serialized (Some request)) by now rewrite SerN.
  destruct (BridgeFacts.native_callWeb_posts cn sn now id procedure data request V S1)
    as (Post & Set1 & Pr1 & G1).
  split; [ exact Post | ].
  split.
  { unfold Web.receive, Web.handleMessage. rewrite L, DesW, D1, A1.
    unfold Web.handleRequest. now rewrite H, B. }
  split.
  { unfold Web.resume, Web.postToNative. cbn [Web.outcome Web.requestId].
    rewrite W, SerW, E2. reflexivity. }
  assert (D2' : Native.deserializer (Native.config cn) response = Core.Deserialized v2)
    by now rewrite DesN.
  destruct (BridgeFacts.native_handleMessage_response cn _ now response v2 id
              (Lossy.sent result) None None _ D2' A2 G1) as (R1 & R2 & R3).
  cbn [Correlation.settles Correlation.timeoutId] in R1, R3.
  rewrite Pr1. rewrite R1, Set1. auto.
Qed.

Lemma native_call_is_answered_by_web_witness :
  exists request response task,
    Web.receive Sample.web
      (fst (Web.handleWebProcedure (Web.create Sample.web) "navigate" 2))
      request
    = (Web.recordCall
         (fst (Web.handleWebProcedure (Web.create Sample.web) "navigate" 2))
         2 (JObj [("path", JStr "/home")]),
       Some task) /\
    Native.settled
      (fst (Native.handleMessage Sample.native
              (fst (Native.callWeb Sample.native (Native.create true) 5 "id-1" "navigate"
                      (JObj [("path", JStr "/home")])))
              5 response))
    = [(0, Core.Resolved (JObj [("path", JStr "/home")]))].
Proof.
  destruct (native_call_is_answered_by_web Sample.native (Native.create true)
              Sample.web
              (fst (Web.handleWebProcedure (Web.create Sample.web) "navigate" 2))
              5%Z "id-1" "navigate" (JObj [("path", JStr "/home")]) 2
              (JObj [("path", JStr "/home")])
              eq_refl eq_refl eq_refl eq_refl eq_refl eq_refl eq_refl eq_refl
              eq_refl eq_refl eq_refl eq_refl)
    as (request & response & task & _ & A & _ & B & _).
  exists request, response, task. split; [ exact A | exact B ].
Defined.



(** X8.  An event emitted on one side and dispatched on the other, with
    the default transport.  [emit] of the web client, and [web.emit] and
    [native.emit] of the native client alike, do nothing but hand one
    text to the transport.  The client that receives that text calls the
    functions registered for the name of the event, in the order of
    their registration, with the payload as the transport leaves it; it
    hands nothing to the transport, settles no promise and leaves
    [pendingRequests] as it is. *)
Theorem emitted_event_reaches_peer_listeners :
  (forall cw sw cn sn now id event data,
      Web.isWebView cw = true ->
      Web.serializer (Web.config cw) = Core.defaultSerializer ->
      Native.deserializer (Native.config cn) = Core.defaultDeserializer ->
      Lossy.printable data = true ->
      exists raw,
        Web.emit cw sw id event data = Web.transportPost sw (Some raw) /\
        snd (Native.handleMessage cn sn now raw) = None /\
        let sn1 := fst (Native.handleMessage cn sn now raw) in
        Native.invoked sn1
        = Native.invoked sn ++
          map (fun h => (h, Lossy.sent data)) (Native.registered sn event) /\
        Native.posted sn1 = Native.posted sn /\
        Native.settled sn1 = Native.settled sn /\
        Native.pendingRequests sn1 = Native.pendingRequests sn) /\
  (forall cn sn cw sw now id event data,
      Native.webView sn = true ->
      Native.serializer (Native.config cn) = Core.defaultSerializer ->
      Web.listening sw = true ->
      Web.deserializer (Web.config cw) = Core.defaultDeserializer ->
      Lossy.printable data = true ->
      (Z.abs now <=? Json.maxSafeInteger)%Z = true ->
      exists raw,
        Native.emitWeb cn sn now id event data
        = Native.Normal (Native.transportPost sn (Some raw)) /\
        Native.emitNative cn sn now id event data
        = Native.Normal (Native.transportPost sn (Some raw)) /\
        snd (Web.receive cw sw raw) = None /\
        let sw1 := fst (Web.receive cw sw raw) in
        Web.invoked sw1
        = Web.invoked sw ++ map (fun h => (h, Lossy.sent data)) (Web.listeners sw event) /\
        Web.posted sw1 = Web.posted sw /\
        Web.settled sw1 = Web.settled sw /\
        Web.pendingRequests sw1 = Web.pendingRequests sw).
Proof.
  split.
  - intros cw sw cn sn now id event data W SerW DesN Pd.
    assert (P1 : Lossy.printableMessage (Core.EventMessage id event data None) = true).
    { unfold Lossy.printableMessage. cbn [Core.messageData Core.messageTimestamp].
      now rewrite Pd. }
    destruct (LossyFacts.decode_encode_normal _ P1) as (raw & v & E & D & A).
    cbn [Lossy.transported] in A.
    exists raw. split.
    { unfold Web.emit, Web.postToNative. now rewrite W, SerW, E. }
    unfold Native.handleMessage. rewrite DesN, D, A. cbn [fst snd].
    split; [ reflexivity | ]. cbv zeta.
    pose proof (NativeFacts.native_handleEvent_effect cn sn event (Lossy.sent data)) as F.
    cbv zeta in F. destruct F as (F1 & _ & F3 & _ & _ & _ & _ & _ & F9 & F10 & _).
    auto.
  - intros cn sn cw sw now id event data V SerN L DesW Pd Safe.
    assert (P1 : Lossy.printableMessage
                   (Core.EventMessage id event data (Some now)) = true).
    { unfold Lossy.printableMessage. cbn [Core.messageData Core.messageTimestamp].
      now rewrite Pd, Safe. }
    destruct (LossyFacts.decode_encode_normal _ P1) as (raw & v & E & D & A).
    cbn [Lossy.transported] in A.
    exists raw.
    assert (Post : Native.postMessage cn sn (Core.EventMessage id event data (Some now))
                   = Native.Normal (Native.transportPost sn (Some raw))).
    { apply BridgeFacts.native_postMessage_posts; [ exact V | now rewrite SerN ]. }
    split; [ exact Post | ]. split; [ exact Post | ].
    unfold Web.receive, Web.handleMessage. rewrite L, DesW, D, A. cbn [fst snd].
    split; [ reflexivity | ]. cbv zeta.
    pose proof (WebFacts.web_handleEvent_effect cw sw event (Lossy.sent data)) as F.
    cbv zeta in F.
    destruct F as (F1 & _ & F3 & _ & _ & _ & _ & _ & _ & F10 & F11).
    auto.
Qed.

Lemma emitted_event_reaches_peer_listeners_witness :
  exists raw,
    Web.emit Sample.web (Web.create Sample.web) "e-1" "pathChanged"
      (JObj [("path", JStr "/home")])
    = Web.transportPost (Web.create Sample.web) (Some raw) /\
    Native.invoked
      (fst (Native.handleMessage Sample.native
              (Native.run Sample.native (Native.create true)
                 [Native.RegisterWebHandler "pathChanged" 2;
                  Native.RegisterWebHandler "pathChanged" 3])
              4 raw))
    = [(2, JObj [("path", JStr "/home")]); (3, JObj [("path", JStr "/home")])].
Proof.
  destruct emitted_event_reaches_peer_listeners as (A & _).
  destruct (A Sample.web (Web.create Sample.web) Sample.native
              (Native.run Sample.native (Native.create true)
                 [Native.RegisterWebHandler "pathChanged" 2;
                  Native.RegisterWebHandler "pathChanged" 3])
              4%Z "e-1" "pathChanged" (JObj [("path", JStr "/home")])
              eq_refl eq_refl eq_refl eq_refl)
    as (raw & E & _ & I & _).
  exists raw. split; [ exact E | exact I ].
Defined.

(** X9.  In every execution of the web client, when the promise that a
    call with the id [id] returned is resolved with a value [v], the
    client has received, after that call, a text that its deserializer
    decodes to a response with the id [id], the data [v] and no error. *)
Theorem web_promise_resolved_only_by_its_response :
  forall c history id procedure data later v,
    let s := Web.run c (Web.create c) history in
    In (snd (Web.call c s id procedure data), Core.Resolved v)
       (Web.settled (Web.run c (fst (Web.call c s id procedure data)) later)) ->
    exists raw w ts,
      In (Web.Received raw) later /\
      Web.deserializer (Web.config c) raw = Core.Deserialized w /\
      Core.asMessage w = Core.IsMessage (Core.ResponseMessage id v None ts).
Proof.
  intros c history id procedure data later v s H.
  pose proof (WebFacts.web_invariant_run c history _ (WebFacts.web_invariant_create c))
    as I. fold s in I.
  destruct (WebCorrelationFacts.web_call_owns c s id procedure data I) as (_ & N & K & U).
  destruct (WebCorrelationFacts.web_owned_run c _ id v later _
              (WebFacts.web_invariant_call c s id procedure data I) N K H)
    as [ R | R ]; [ | exact R ].
  now destruct (U v).
Qed.

(** A call, an event that is emitted, then the response. *)
Lemma web_promise_resolved_only_by_its_response_witness :
  exists raw w ts,
    In (Web.Received raw)
       [Web.Emit "e-1" "pathChanged" JNull;
        Web.Received
          (Sample.encode (Core.ResponseMessage "id-1" (JStr "ok") None (Some 7%Z)))] /\
    Web.deserializer (Web.config Sample.web) raw = Core.Deserialized w /\
    Core.asMessage w = Core.IsMessage (Core.ResponseMessage "id-1" (JStr "ok") None ts).
Proof.
  apply (web_promise_resolved_only_by_its_response Sample.web [] "id-1" "share" JNull
           [Web.Emit "e-1" "pathChanged" JNull;
            Web.Received
              (Sample.encode (Core.ResponseMessage "id-1" (JStr "ok") None (Some 7%Z)))]
           (JStr "ok")).
  vm_compute. left. reflexivity.
Defined.

(** X10.  In every execution of the native client, when the promise that
    [callWeb] with the id [id] returned is resolved with a value [v],
    [handleMessage] was called, after that call, with a text that the
    deserializer decodes to a response with the id [id], the data [v] and
    no error. *)
Theorem native_promise_resolved_only_by_its_response :
  forall c attached history now id procedure data later v,
    let s := Native.run c (Native.create attached) history in
    In (snd (Native.callWeb c s now id procedure data), Core.Resolved v)
       (Native.settled
          (Native.run c (fst (Native.callWeb c s now id procedure data)) later)) ->
    exists arrival raw w ts,
      In (Native.HandleMessage arrival raw) later /\
      Native.deserializer (Native.config c) raw = Core.Deserialized w /\
      Core.asMessage w = Core.IsMessage (Core.ResponseMessage id v None ts).
Proof.
  intros c attached history now id procedure data later v s H.
  pose proof (NativeFacts.native_invariant_run c history _
                (NativeFacts.native_invariant_create attached)) as I. fold s in I.
  destruct (NativeSettleFacts.native_callWeb_owns c s now id procedure data I)
    as (_ & N & K & U).
  destruct (NativeSettleFacts.native_owned_run c _ id v later _
              (NativeFacts.native_invariant_callWeb c s now id procedure data I) N K H)
    as [ R | R ]; [ | exact R ].
  now destruct (U v).
Qed.

Lemma native_promise_resolved_only_by_its_response_witness :
  exists arrival raw w ts,
    In (Native.HandleMessage arrival raw)
       [Native.HandleMessage 9
          (Sample.encode (Core.ResponseMessage "id-1" (JStr "ok") None None))] /\
    Native.deserializer (Native.config Sample.native) raw = Core.Deserialized w /\
    Core.asMessage w = Core.IsMessage (Core.ResponseMessage "id-1" (JStr "ok") None ts).
Proof.
  apply (native_promise_resolved_only_by_its_response Sample.native true [] 5%Z "id-1"
           "navigate" JNull
           [Native.HandleMessage 9
              (Sample.encode (Core.ResponseMessage "id-1" (JStr "ok") None None))]
           (JStr "ok")).
  vm_compute. left. reflexivity.
Defined.

(** X11.  In both clients, the registration of a function [h] for a name
    followed by the call of the function that the registration returned
    leaves, for that name, the functions registered before without [h]:
    the registration is undone, and so is an earlier registration of the
    same function, since a [Set] holds a function once.  The other
    functions stay, in their order. *)
Theorem unregister_removes_the_listener_entirely :
  (forall s event h,
      let r := Web.handleNativeEvent s event h in
      Web.listeners (Web.unregister (fst r) (snd r)) event
      = JsSet.delete Nat.eqb h (Web.listeners s event)) /\
  (forall s name h,
      let r := Native.registerNativeHandler s name h in
      Native.registered (Native.unregister (fst r) (snd r)) name
      = JsSet.delete Nat.eqb h (Native.registered s name)) /\
  (forall h hs, ~ In h (JsSet.delete Nat.eqb h hs)) /\
  (forall h hs, ~ In h hs -> JsSet.delete Nat.eqb h hs = hs).
Proof.
  split; [ | split; [ | split ] ].
  - intros s event h. apply RegistryFacts.web_register_unregister.
  - intros s name h. apply RegistryFacts.native_register_unregister.
  - intros h hs H. apply (JsSetFacts.member_delete Nat.eqb Nat.eqb_eq) in H.
    now destruct H.
  - intros h hs. induction hs as [ | x hs IH ]; [ reflexivity | ].
    intros N. simpl. destruct (Nat.eqb_spec h x) as [ -> | _ ].
    + destruct N. now left.
    + f_equal. apply IH. intros H. apply N. now right.
Qed.

(** Handlers 2 and 3 are registered; handler 2 is registered again and
    that registration is undone. *)
Lemma unregister_removes_the_listener_entirely_witness :
  Web.listeners
    (Web.unregister
       (fst (Web.handleNativeEvent
               (Web.run Sample.web (Web.create Sample.web)
                  [Web.HandleNativeEvent "appStateChange" 2;
                   Web.HandleNativeEvent "appStateChange" 3])
               "appStateChange" 2))
       (snd (Web.handleNativeEvent
               (Web.run Sample.web (Web.create Sample.web)
                  [Web.HandleNativeEvent "appStateChange" 2;
                   Web.HandleNativeEvent "appStateChange" 3])
               "appStateChange" 2)))
    "appStateChange"
  = [3] /\
  JsSet.delete Nat.eqb 5 [2; 3] = [2; 3].
Proof.
  destruct unregister_removes_the_listener_entirely as (A & _ & _ & D).
  split.
  - exact (A (Web.run Sample.web (Web.create Sample.web)
                [Web.HandleNativeEvent "appStateChange" 2;
                 Web.HandleNativeEvent "appStateChange" 3])
             "appStateChange" 2).
  - apply D. simpl. intros [ H | [ H | [] ] ]; discriminate H.
Defined.

(** X12.  In both clients, let [f] be registered for a name that has no
    function registered, and let the function this registration returned
    be called; let then [g] be registered for the same name.  [g] is now
    the one function registered for the name.  A second call of the
    function the registration of [f] returned deletes the name from the
    map of the handlers: no function is registered for the name any
    more, and an event with that name changes nothing. *)
Theorem second_unregister_drops_later_listeners :
  (forall s event f g,
      JsMap.get String.eqb event (Web.eventHandlers s) = None ->
      let r1 := Web.handleNativeEvent s event f in
      let s2 := Web.unregister (fst r1) (snd r1) in
      let s3 := fst (Web.handleNativeEvent s2 event g) in
      let s4 := Web.unregister s3 (snd r1) in
      Web.listeners s3 event = [g] /\
      Web.listeners s4 event = [] /\
      forall c data, Web.handleEvent c s4 event data = s4) /\
  (forall s name f g,
      JsMap.get String.eqb name (Native.nativeHandlers s) = None ->
      let r1 := Native.registerNativeHandler s name f in
      let s2 := Native.unregister (fst r1) (snd r1) in
      let s3 := fst (Native.registerNativeHandler s2 name g) in
      let s4 := Native.unregister s3 (snd r1) in
      Native.registered s3 name = [g] /\
      Native.registered s4 name = [] /\
      forall c data, Native.handleEvent c s4 name data = s4).
Proof.
  split.
  - intros s event f g G r1 s2 s3 s4.
    destruct (RegistryFacts.web_register_shape s event f)
      as (r & U & G1 & D1 & Fresh & _).
    destruct (Fresh G) as (-> & N1). clear Fresh.
    assert (L0 : Web.listeners s event = []) by (unfold Web.listeners; now rewrite G).
    rewrite L0 in D1. cbn in D1.
    assert (E1 : JsSet.delete Nat.eqb f (Web.deref (fst r1) (Web.next s)) = []).
    { unfold r1. rewrite D1. simpl. now rewrite Nat.eqb_refl. }
    fold r1 in U. 
    destruct (RegistryFacts.web_unregister_emptying (fst r1) (Web.next s) f event E1)
      as (H2 & N2 & D2 & _).
    rewrite <- U in H2, N2, D2. fold s2 in H2, N2, D2.
    assert (G2 : JsMap.get String.eqb event (Web.eventHandlers s2) = None)
      by (rewrite H2; apply JsMapFacts.get_delete_eq).
    destruct (RegistryFacts.web_register_shape s2 event g)
      as (r' & _ & G3 & D3 & Fresh & Other).
    destruct (Fresh G2) as (-> & _). clear Fresh. fold s3 in G3, D3, Other.
    assert (L2 : Web.listeners s2 event = []) by (unfold Web.listeners; now rewrite G2).
    rewrite L2 in D3. cbn in D3.
    assert (L3 : Web.listeners s3 event = [g])
      by (unfold Web.listeners; now rewrite G3).
    assert (D3' : Web.deref s3 (Web.next s) = []).
    { rewrite Other; [ exact D2 | ]. rewrite N2. fold r1 in N1. rewrite N1. lia. }
    assert (E3 : JsSet.delete Nat.eqb f (Web.deref s3 (Web.next s)) = [])
      by now rewrite D3'.
    destruct (RegistryFacts.web_unregister_emptying s3 (Web.next s) f event E3)
      as (H4 & _ & _ & L4).
    rewrite <- U in H4, L4. fold s4 in H4, L4.
    split; [ exact L3 | split; [ exact L4 | ] ].
    intros c data. unfold Web.handleEvent. rewrite H4.
    now rewrite JsMapFacts.get_delete_eq.
  - intros s name f g G r1 s2 s3 s4.
    destruct (RegistryFacts.native_register_shape s name f)
      as (r & U & G1 & D1 & Fresh & _).
    destruct (Fresh G) as (-> & N1). clear Fresh.
    assert (L0 : Native.registered s name = [])
      by (unfold Native.registered; now rewrite G).
    rewrite L0 in D1. cbn in D1.
    assert (E1 : JsSet.delete Nat.eqb f (Native.deref (fst r1) (Native.next s)) = []).
    { unfold r1. rewrite D1. simpl. now rewrite Nat.eqb_refl. }
    fold r1 in U.
    destruct (RegistryFacts.native_unregister_emptying (fst r1) (Native.next s) f name E1)
      as (H2 & N2 & D2 & _).
    rewrite <- U in H2, N2, D2. fold s2 in H2, N2, D2.
    assert (G2 : JsMap.get String.eqb name (Native.nativeHandlers s2) = None)
      by (rewrite H2; apply JsMapFacts.get_delete_eq).
    destruct (RegistryFacts.native_register_shape s2 name g)
      as (r' & _ & G3 & D3 & Fresh & Other).
    destruct (Fresh G2) as (-> & _). clear Fresh. fold s3 in G3, D3, Other.
    assert (L2 : Native.registered s2 name = [])
      by (unfold Native.registered; now rewrite G2).
    rewrite L2 in D3. cbn in D3.
    assert (L3 : Native.registered s3 name = [g])
      by (unfold Native.registered; now rewrite G3).
    assert (D3' : Native.deref s3 (Native.next s) = []).
    { rewrite Other; [ exact D2 | ]. rewrite N2. fold r1 in N1. rewrite N1. lia. }
    assert (E3 : JsSet.delete Nat.eqb f (Native.deref s3 (Native.next s)) = [])
      by now rewrite D3'.
    destruct (RegistryFacts.native_unregister_emptying s3 (Native.next s) f name E3)
      as (H4 & _ & _ & L4).
    rewrite <- U in H4, L4. fold s4 in H4, L4.
    split; [ exact L3 | split; [ exact L4 | ] ].
    intros c data. unfold Native.handleEvent. rewrite H4.
    now rewrite JsMapFacts.get_delete_eq.
Qed.

Lemma second_unregister_drops_later_listeners_witness :
  Web.listeners
    (Web.unregister
       (fst (Web.handleNativeEvent
               (Web.unregister
                  (fst (Web.handleNativeEvent (Web.create Sample.web) "appStateChange" 2))
                  (snd (Web.handleNativeEvent (Web.create Sample.web) "appStateChange" 2)))
               "appStateChange" 3))
       (snd (Web.handleNativeEvent (Web.create Sample.web) "appStateChange" 2)))
    "appStateChange"
  = [].
Proof.
  destruct second_unregister_drops_later_listeners as (A & _).
  exact (proj1 (proj2 (A (Web.create Sample.web) "appStateChange" 2 3 eq_refl))).
Defined.

(** X13.  The native client while [webViewRef.current] is [null].
    [callWeb] returns a promise that is rejected within the call with a
    [WebViewRPCError] of code [WEBVIEW_NULL]; no entry and no timer are
    left for it, and [onError] is not called.  [web.emit] and
    [native.emit] return without any effect.  Whatever is done to the
    client in that state, nothing is handed to the transport. *)
Theorem native_without_webview_fails_at_once :
  forall c s now id procedure event data,
    Native.webView s = false ->
    let s1 := fst (Native.callWeb c s now id procedure data) in
    snd (Native.callWeb c s now id procedure data) = Native.next s /\
    Native.settled s1
    = Native.settled s ++
      [(Native.next s,
        Core.Rejected (Core.WebViewRPCError "WebView ref is null" "WEBVIEW_NULL"))] /\
    JsMap.get String.eqb id (Native.pendingRequests s1) = None /\
    JsMap.get Nat.eqb (Native.next s) (Native.timers s1) = None /\
    Native.posted s1 = Native.posted s /\
    Native.errors s1 = Native.errors s /\
    Native.emitWeb c s now id event data = Native.Normal s /\
    Native.emitNative c s now id event data = Native.Normal s /\
    (forall a, Native.posted (Native.step c s a) = Native.posted s).
Proof.
  intros c s now id procedure event data V.
  unfold Native.callWeb, Native.postMessage, Native.emitWeb, Native.emitNative,
    Native.postMessage.
  cbn [Native.webView Native.withPending Native.withTimers Native.withNext
         Native.isEvent Core.messageId].
  rewrite V. cbn [negb]. unfold Native.failPending.
  cbn [Native.pendingRequests Native.withPending].
  rewrite (JsMapFacts.get_set_eq String.eqb String.eqb_eq).
  cbn [fst snd Correlation.timeoutId Correlation.settles].
  cbv zeta.
  cbn [Native.settled Native.settle Native.pendingRequests Native.withPending
         Native.timers Native.clearTimeout Native.withTimers Native.posted
         Native.errors Native.withNext].
  split; [ reflexivity | split; [ reflexivity | ] ].
  split; [ apply JsMapFacts.get_delete_eq | ].
  split; [ apply JsMapFacts.get_delete_eq | ].
  do 4 (split; [ reflexivity | ]).
  intros a. now apply NativeDetachedFacts.native_step_detached.
Qed.

Lemma native_without_webview_fails_at_once_witness :
  Native.settled
    (fst (Native.callWeb Sample.native (Native.create false) 5 "id-1" "navigate" JNull))
  = [(0, Core.Rejected (Core.WebViewRPCError "WebView ref is null" "WEBVIEW_NULL"))].
Proof.
  exact (proj1 (proj2 (native_without_webview_fails_at_once Sample.native
                         (Native.create false) 5%Z "id-1" "navigate" "evt" JNull
                         eq_refl))).
Defined.

(** X14.  The native client answering a request while
    [webViewRef.current] is [null], when no call of its own with the id of
    the request is pending.  Whether the handler returned or threw, and
    also when no handler was registered, [postMessage] throws a
    [TypeError] inside [handleRequest]: the promise of [handleRequest] is
    rejected with it, nothing is handed to the transport and [onError] is
    not called, not even with the error the handler threw.  When a call
    of the client with that id is pending, the answer of a handler that
    returned rejects that call with [WEBVIEW_NULL] instead. *)
Theorem native_answer_without_webview_is_lost :
  forall c s now,
    Native.webView s = false ->
    (forall task,
        JsMap.get String.eqb (Native.requestId task) (Native.pendingRequests s) = None ->
        Native.outcome task <> Core.NeverSettles ->
        Native.resume c s now task
        = Native.recordUnhandled s
            (Core.TypeError "Cannot read properties of undefined (reading 'timeoutId')")) /\
    (forall id procedure data,
        JsMap.get String.eqb id (Native.pendingRequests s) = None ->
        Native.registered s procedure = [] ->
        Native.handleRequest c s now id procedure data
        = (Native.recordUnhandled s
             (Core.TypeError "Cannot read properties of undefined (reading 'timeoutId')"),
           None)) /\
    (forall task p result,
        JsMap.get String.eqb (Native.requestId task) (Native.pendingRequests s) = Some p ->
        Native.outcome task = Core.Returns result ->
        let s' := Native.resume c s now task in
        Native.settled s'
        = Native.settled s ++
          [(Correlation.settles p,
            Core.Rejected (Core.WebViewRPCError "WebView ref is null" "WEBVIEW_NULL"))] /\
        Native.posted s' = Native.posted s).
Proof.
  intros c s now V. split; [ | split ].
  - intros task G N. unfold Native.resume, Native.respondError, Native.postMessage.
    cbn [Native.isEvent Core.messageId]. rewrite V. cbn [negb].
    unfold Native.failPending. rewrite G.
    destruct (Native.outcome task) as [ result | error | ]; [ | | now destruct N ].
    + cbn [Native.isEvent Core.messageId Native.webView]. rewrite V. cbn [negb].
      now rewrite G.
    + reflexivity.
  - intros id procedure data G H. unfold Native.handleRequest. rewrite H.
    unfold Native.postMessage. cbn [Native.isEvent Core.messageId]. rewrite V.
    cbn [negb]. unfold Native.failPending. now rewrite G.
  - intros task p result G O. unfold Native.resume, Native.postMessage. rewrite O.
    cbn [Native.isEvent Core.messageId]. rewrite V. cbn [negb].
    unfold Native.failPending. rewrite G. split; reflexivity.
Qed.

Lemma native_answer_without_webview_is_lost_witness :
  Native.errors
    (Native.resume Sample.native (Native.create false) 5
       {| Native.requestId := "r-1"; Native.outcome := Core.Throws (Core.Error "boom") |})
  = [] /\
  Native.unhandled
    (Native.resume Sample.native (Native.create false) 5
       {| Native.requestId := "r-1"; Native.outcome := Core.Throws (Core.Error "boom") |})
  = [Core.TypeError "Cannot read properties of undefined (reading 'timeoutId')"].
Proof.
  destruct (native_answer_without_webview_is_lost Sample.native (Native.create false)
              5%Z eq_refl) as (A & _).
  rewrite (A {| Native.requestId := "r-1";
                Native.outcome := Core.Throws (Core.Error "boom") |}
             eq_refl ltac:(discriminate)).
  split; reflexivity.
Defined.

(** X15.  In every execution of a web client that is not inside a
    WebView, nothing is handed to the transport, [pendingRequests] stays
    empty and no timer is armed; every promise that is settled is
    rejected with the [WebViewRPCError] of code [NOT_IN_WEBVIEW], and every
    call returns a promise that is rejected with it within the call. *)
Theorem web_client_outside_webview_is_inert :
  forall c history,
    Web.isWebView c = false ->
    let s := Web.run c (Web.create c) history in
    Web.posted s = [] /\ Web.pendingRequests s = [] /\ Web.timers s = [] /\
    (forall h how, In (h, how) (Web.settled s) ->
       how = Core.Rejected (Core.WebViewRPCError "Not running in WebView" "NOT_IN_WEBVIEW")) /\
    (forall id procedure data,
       Web.settled (fst (Web.call c s id procedure data))
       = Web.settled s ++
         [(snd (Web.call c s id procedure data),
           Core.Rejected (Core.WebViewRPCError "Not running in WebView" "NOT_IN_WEBVIEW"))]).
Proof.
  intros c history W s.
  destruct (WebRunFacts.web_inert_run c history (Web.create c) W eq_refl eq_refl eq_refl
              (Forall_nil _)) as (P & Q & T & S).
  fold s in P, Q, T, S. repeat split; auto.
  - intros h how H. rewrite Forall_forall in S. exact (S _ H).
  - intros id procedure data. unfold Web.call. now rewrite W.
Qed.

Lemma web_client_outside_webview_is_inert_witness :
  Web.posted
    (Web.run
       {| Web.config := Sample.reporting; Web.windowDefined := true;
          Web.isWebView := false; Web.behaviour := Sample.behaviour |}
       (Web.create
          {| Web.config := Sample.reporting; Web.windowDefined := true;
             Web.isWebView := false; Web.behaviour := Sample.behaviour |})
       [Web.HandleWebProcedure "navigate" 2; Web.Call "id-1" "share" JNull;
        Web.Emit "e-1" "pathChanged" JNull;
        Web.Received
          (Sample.encode (Core.RequestMessage "r-1" "navigate" JNull None))])
  = [].
Proof.
  exact (proj1 (web_client_outside_webview_is_inert
                  {| Web.config := Sample.reporting; Web.windowDefined := true;
                     Web.isWebView := false; Web.behaviour := Sample.behaviour |}
                  [Web.HandleWebProcedure "navigate" 2; Web.Call "id-1" "share" JNull;
                   Web.Emit "e-1" "pathChanged" JNull;
                   Web.Received
                     (Sample.encode (Core.RequestMessage "r-1" "navigate" JNull None))]
                  eq_refl)).
Defined.

(** X16.  [cleanup] is final for the web client: whatever is done to the
    client afterwards, its message listener stays detached, a message
    event of the window changes nothing, and no promise is resolved that
    was not resolved before [cleanup].  A call made after [cleanup] can
    only be rejected. *)
Theorem web_client_is_deaf_after_cleanup :
  forall c history later,
    let s := Web.cleanup c (Web.run c (Web.create c) history) in
    let s' := Web.run c s later in
    Web.listening s' = false /\
    (forall raw, Web.receive c s' raw = (s', None)) /\
    (forall h v, In (h, Core.Resolved v) (Web.settled s') ->
                 In (h, Core.Resolved v) (Web.settled s)).
Proof.
  intros c history later s s'.
  assert (L : Web.listening s = false).
  { unfold s, Web.cleanup.
    destruct (Web.windowDefined c) eqn:W; [ reflexivity | ].
    destruct (WebRunFacts.web_cancel_settled
                (Web.pendingRequests (Web.run c (Web.create c) history))
                (Web.run c (Web.create c) history)) as (_ & _ & C).
    cbv zeta in C.
    cbn [Web.listening Web.withProcedureHandlers Web.withEventHandlers Web.withPending].
    rewrite C. now apply WebSettleFacts.web_run_not_listening. }
  destruct (WebSettleFacts.web_deaf_run c later s L) as (L' & R). fold s' in L', R.
  split; [ exact L' | split; [ | exact R ] ].
  intros raw. unfold Web.receive. now rewrite L'.
Qed.

(** A call made after [cleanup], and its response. *)
Lemma web_client_is_deaf_after_cleanup_witness :
  Web.settled
    (fst (Web.receive Sample.web
            (Web.run Sample.web (Web.cleanup Sample.web (Web.create Sample.web))
               [Web.Call "id-1" "share" JNull])
            (Sample.encode (Core.ResponseMessage "id-1" (JStr "ok") None None))))
  = [].
Proof.
  exact (f_equal (fun r => Web.settled (fst r))
           (proj1 (proj2 (web_client_is_deaf_after_cleanup Sample.web []
                            [Web.Call "id-1" "share" JNull]))
              (Sample.encode (Core.ResponseMessage "id-1" (JStr "ok") None None)))).
Defined.

(** X17.  A serializer that throws on an event or on a response.  In both
    clients the error is passed to [onError] (when there is one) and the
    message is dropped: nothing is handed to the transport, no promise is
    settled and no entry is touched.  When the response is the one for a
    handler that threw, [onError] is called with both errors: in the web
    client with the error of the handler first, in the native client with
    the error of the serializer first. *)
Theorem serializer_throw_on_event_or_response_is_only_reported :
  (forall c s e,
      Web.isWebView c = true ->
      (forall id event data,
          Web.serializer (Web.config c)
            (Core.toObject (Core.EventMessage id event data None)) = Core.SerThrows e ->
          Web.emit c s id event data = Web.reportError c s e) /\
      (forall task result,
          Web.outcome task = Core.Returns result ->
          Web.serializer (Web.config c)
            (Core.toObject (Core.ResponseMessage (Web.requestId task) result None None))
          = Core.SerThrows e ->
          Web.resume c s task = Web.reportError c s e) /\
      (forall task thrown,
          Web.outcome task = Core.Throws thrown ->
          Web.serializer (Web.config c)
            (Core.toObject
               (Core.ResponseMessage (Web.requestId task) JUndefined
                  (Some (ErrorInfo.make (JSError.message thrown) "HANDLER_ERROR")) None))
          = Core.SerThrows e ->
          Web.resume c s task = Web.reportError c (Web.reportError c s thrown) e)) /\
  (forall c s now e,
      Native.webView s = true ->
      (forall id event data,
          Native.serializer (Native.config c)
            (Core.toObject (Core.EventMessage id event data (Some now)))
          = Core.SerThrows e ->
          Native.emitWeb c s now id event data = Native.Normal (Native.reportError c s e) /\
          Native.emitNative c s now id event data
          = Native.Normal (Native.reportError c s e)) /\
      (forall task result,
          Native.outcome task = Core.Returns result ->
          Native.serializer (Native.config c)
            (Core.toObject
               (Core.ResponseMessage (Native.requestId task) result None (Some now)))
          = Core.SerThrows e ->
          Native.resume c s now task = Native.reportError c s e) /\
      (forall task thrown,
          Native.outcome task = Core.Throws thrown ->
          Native.serializer (Native.config c)
            (Core.toObject
               (Core.ResponseMessage (Native.requestId task) JUndefined
                  (Some (ErrorInfo.make (JSError.message thrown) "HANDLER_ERROR"))
                  (Some now)))
          = Core.SerThrows e ->
          Native.resume c s now task
          = Native.reportError c (Native.reportError c s e) thrown)) /\
  (forall c s e,
      Web.posted (Web.reportError c s e) = Web.posted s /\
      Web.settled (Web.reportError c s e) = Web.settled s /\
      Web.pendingRequests (Web.reportError c s e) = Web.pendingRequests s /\
      Web.errors (Web.reportError c s e)
      = Web.errors s ++ (if Web.onError (Web.config c) then [e] else [])) /\
  (forall c s e,
      Native.posted (Native.reportError c s e) = Native.posted s /\
      Native.settled (Native.reportError c s e) = Native.settled s /\
      Native.pendingRequests (Native.reportError c s e) = Native.pendingRequests s /\
      Native.errors (Native.reportError c s e)
      = Native.errors s ++ (if Native.onError (Native.config c) then [e] else [])).
Proof.
  split; [ | split; [ | split ] ].
  - intros c s e W. split; [ | split ].
    + intros id event data E. unfold Web.emit, Web.postToNative. now rewrite W, E.
    + intros task result O E. unfold Web.resume, Web.postToNative. now rewrite O, W, E.
    + intros task thrown O E. unfold Web.resume, Web.postToNative. now rewrite O, W, E.
  - intros c s now e V. split; [ | split ].
    + intros id event data E. unfold Native.emitWeb, Native.emitNative, Native.postMessage.
      rewrite V, E. cbn [negb Native.isRequest]. auto.
    + intros task result O E. unfold Native.resume, Native.postMessage.
      rewrite O, V, E. reflexivity.
    + intros task thrown O E. unfold Native.resume, Native.respondError, Native.postMessage.
      rewrite O, V, E. reflexivity.
  - intros c s e. unfold Web.reportError. destruct (Web.onError (Web.config c));
      cbn; rewrite ?List.app_nil_r; auto.
  - intros c s e. unfold Native.reportError. destruct (Native.onError (Native.config c));
      cbn; rewrite ?List.app_nil_r; auto.
Qed.

(** Clients whose serializer throws, answering for a handler that threw
    [Error("boom")]. *)
Lemma serializer_throw_on_event_or_response_is_only_reported_witness :
  Web.errors
    (Web.resume Sample.webBadSerializer (Web.create Sample.webBadSerializer)
       {| Web.requestId := "r-1"; Web.outcome := Core.Throws (Core.Error "boom") |})
  = [Core.Error "boom"; Core.Error "Serialization failed"] /\
  Native.errors
    (Native.resume Sample.nativeBadSerializer (Native.create true) 5
       {| Native.requestId := "r-1"; Native.outcome := Core.Throws (Core.Error "boom") |})
  = [Core.Error "Serialization error"; Core.Error "boom"].
Proof.
  destruct serializer_throw_on_event_or_response_is_only_reported as (A & B & _).
  split.
  - destruct (A Sample.webBadSerializer (Web.create Sample.webBadSerializer)
                (Core.Error "Serialization failed") eq_refl) as (_ & _ & R).
    now rewrite (R {| Web.requestId := "r-1";
                      Web.outcome := Core.Throws (Core.Error "boom") |}
                   (Core.Error "boom") eq_refl eq_refl).
  - destruct (B Sample.nativeBadSerializer (Native.create true) 5%Z
                (Core.Error "Serialization error") eq_refl) as (_ & _ & R).
    now rewrite (R {| Native.requestId := "r-1";
                      Native.outcome := Core.Throws (Core.Error "boom") |}
                   (Core.Error "boom") eq_refl eq_refl).
Defined.

(** X18.  In every execution of the web client, the promise that a call
    returned is settled or the timer that the call armed for it is still
    armed, and the expiry of that timer then rejects the promise with the
    timeout error: whatever happens to the client, no call is left
    without an end. *)
Theorem web_call_is_settled_or_guarded_by_its_timer :
  forall c history id procedure data later,
    let s := Web.run c (Web.create c) history in
    let h := snd (Web.call c s id procedure data) in
    let s' := Web.run c (fst (Web.call c s id procedure data)) later in
    In h (map fst (Web.settled s')) \/
    (JsMap.get Nat.eqb h (Web.timers s')
     = Some {| Correlation.expires := id; Correlation.rejects := h |} /\
     Web.settled (Web.fireTimeout c s' h)
     = Web.settled s' ++
       [(h, Core.Rejected
              (Core.WebViewRPCTimeoutError
                 (Web.timeoutMessage (Web.timeout (Web.config c)))
                 (Web.timeout (Web.config c))))]).
Proof.
  intros c history id procedure data later s h s'.
  pose proof (WebFacts.web_invariant_run c history _ (WebFacts.web_invariant_create c))
    as I. fold s in I.
  pose proof (WebFacts.web_invariant_call c s id procedure data I) as I1.
  assert (G : In (h, {| Correlation.expires := id; Correlation.rejects := h |})
                 (Web.timers (fst (Web.call c s id procedure data))) \/
              In h (map fst (Web.settled (fst (Web.call c s id procedure data))))).
  { destruct (Web.isWebView c) eqn:W.
    - left. destruct (WebFacts.web_call_arms c s id procedure data W) as (A & E & _).
      unfold h. now rewrite E.
    - right. unfold h, Web.call. rewrite W. cbn. rewrite map_app.
      apply in_or_app. right. now left. }
  destruct (WebGuardFacts.web_run_guard c later _ h _ I1 G) as [ K | K ]; [ | now left ].
  fold s' in K.
  pose proof (WebFacts.web_invariant_run c later _ I1) as I2. fold s' in I2.
  destruct I2 as (TO & _).
  right.
  assert (E : JsMap.get Nat.eqb h (Web.timers s')
              = Some {| Correlation.expires := id; Correlation.rejects := h |}).
  { apply (JsMapFacts.In_get Nat.eqb Nat.eqb_eq); [ | exact K ].
    exact (Correlation.timers_keys _ _ _ TO). }
  split; [ exact E | ].
  now rewrite (WebFacts.web_fireTimeout_settled c s' h _ E).
Qed.

(** A call whose request the serializer refuses, and a cleanup. *)
Lemma web_call_is_settled_or_guarded_by_its_timer_witness :
  JsMap.get Nat.eqb 0
    (Web.timers
       (Web.run Sample.webBadSerializer
          (fst (Web.call Sample.webBadSerializer (Web.create Sample.webBadSerializer)
                  "id-1" "share" JNull))
          [Web.Received "{"]))
  = Some {| Correlation.expires := "id-1"; Correlation.rejects := 0 |} /\
  In 0 (map fst
          (Web.settled
             (Web.run Sample.webBadSerializer
                (fst (Web.call Sample.webBadSerializer
                        (Web.create Sample.webBadSerializer) "id-1" "share" JNull))
                [Web.Received "{"; Web.CleanedUp]))).
Proof.
  split.
  - destruct (web_call_is_settled_or_guarded_by_its_timer Sample.webBadSerializer []
                "id-1" "share" JNull [Web.Received "{"]) as [ H | (H & _) ].
    + vm_compute in H. destruct H.
    + exact H.
  - destruct (web_call_is_settled_or_guarded_by_its_timer Sample.webBadSerializer []
                "id-1" "share" JNull [Web.Received "{"; Web.CleanedUp])
      as [ H | (H & _) ].
    + exact H.
    + vm_compute in H. discriminate H.
Defined.

(** X19.  In every execution of the native client, the promise that
    [callWeb] returned is settled or the timer that the call armed for it
    is still armed, and the expiry of that timer then rejects the promise
    with the timeout error. *)
Theorem native_call_is_settled_or_guarded_by_its_timer :
  forall c attached history now id procedure data later,
    let s := Native.run c (Native.create attached) history in
    let h := snd (Native.callWeb c s now id procedure data) in
    let s' := Native.run c (fst (Native.callWeb c s now id procedure data)) later in
    In h (map fst (Native.settled s')) \/
    (JsMap.get Nat.eqb h (Native.timers s')
     = Some {| Correlation.expires := id; Correlation.rejects := h |} /\
     Native.settled (Native.fireTimeout c s' h)
     = Native.settled s' ++
       [(h, Core.Rejected
              (Core.WebViewRPCTimeoutError
                 (Native.timeoutMessage (Native.timeout (Native.config c)))
                 (Native.timeout (Native.config c))))]).
Proof.
  intros c attached history now id procedure data later s h s'.
  pose proof (NativeFacts.native_invariant_run c history _
                (NativeFacts.native_invariant_create attached)) as I. fold s in I.
  pose proof (NativeFacts.native_invariant_callWeb c s now id procedure data I) as I1.
  pose proof (NativeGuardFacts.native_callWeb_guard c s now id procedure data I) as G.
  cbv zeta in G. fold h in G.
  destruct (NativeGuardFacts.native_run_guard c later _ h _ I1 G) as [ K | K ];
    [ | now left ].
  fold s' in K.
  pose proof (NativeFacts.native_invariant_run c later _ I1) as I2. fold s' in I2.
  destruct I2 as (TO & _).
  right.
  assert (E : JsMap.get Nat.eqb h (Native.timers s')
              = Some {| Correlation.expires := id; Correlation.rejects := h |}).
  { apply (JsMapFacts.In_get Nat.eqb Nat.eqb_eq); [ | exact K ].
    exact (Correlation.timers_keys _ _ _ TO). }
  split; [ exact E | ].
  now rewrite (NativeFacts.native_fireTimeout_settled c s' h _ E).
Qed.

(** A call made while the WebView is detached is settled at once; a call
    made while it is attached stays guarded. *)
Lemma native_call_is_settled_or_guarded_by_its_timer_witness :
  In 0 (map fst
          (Native.settled
             (fst (Native.callWeb Sample.native (Native.create false) 5 "id-1"
                     "navigate" JNull)))) /\
  JsMap.get Nat.eqb 0
    (Native.timers
       (Native.run Sample.native
          (fst (Native.callWeb Sample.native (Native.create true) 5 "id-1"
                  "navigate" JNull))
          [Native.WebViewRef false; Native.EmitWeb 6 "e-1" "pathChanged" JNull]))
  = Some {| Correlation.expires := "id-1"; Correlation.rejects := 0 |}.
Proof.
  split.
  - destruct (native_call_is_settled_or_guarded_by_its_timer Sample.native false []
                5%Z "id-1" "navigate" JNull []) as [ H | (H & _) ].
    + exact H.
    + vm_compute in H. discriminate H.
  - destruct (native_call_is_settled_or_guarded_by_its_timer Sample.native true []
                5%Z "id-1" "navigate" JNull
                [Native.WebViewRef false; Native.EmitWeb 6 "e-1" "pathChanged" JNull])
      as [ H | (H & _) ].
    + vm_compute in H. destruct H.
    + exact H.
Defined.

(** X20.  In both clients a second [cleanup] does nothing: [cleanup]
    leaves the state that [cleanup] produced as it is, so that no promise
    is rejected a second time and no timer is cleared twice. *)
Theorem cleanup_twice_is_cleanup_once :
  (forall c s, Web.cleanup c (Web.cleanup c s) = Web.cleanup c s) /\
  (forall s, Native.cleanup (Native.cleanup s) = Native.cleanup s).
Proof.
  split.
  - intros c s. unfold Web.cleanup at 1.
    assert (P : Web.pendingRequests (Web.cleanup c s) = []).
    { unfold Web.cleanup. destruct (Web.windowDefined c); reflexivity. }
    rewrite P. cbn [fold_left]. unfold Web.cleanup.
    destruct (Web.windowDefined c); reflexivity.
  - intros s. unfold Native.cleanup at 1.
    assert (P : Native.pendingRequests (Native.cleanup s) = []) by reflexivity.
    rewrite P. reflexivity.
Qed.

(** Two calls are pending when the web client is cleaned up twice. *)
Lemma cleanup_twice_is_cleanup_once_witness :
  Web.settled
    (Web.run Sample.web (Web.create Sample.web)
       [Web.Call "id-1" "share" JNull; Web.Call "id-2" "share" JNull;
        Web.CleanedUp; Web.CleanedUp])
  = [(0, Core.Rejected (Core.WebViewRPCError "Client cleanup" "CLEANUP"));
     (1, Core.Rejected (Core.WebViewRPCError "Client cleanup" "CLEANUP"))].
Proof.
  change (Web.run Sample.web (Web.create Sample.web)
            [Web.Call "id-1" "share" JNull; Web.Call "id-2" "share" JNull;
             Web.CleanedUp; Web.CleanedUp])
    with (Web.cleanup Sample.web
            (Web.cleanup Sample.web
               (Web.run Sample.web (Web.create Sample.web)
                  [Web.Call "id-1" "share" JNull; Web.Call "id-2" "share" JNull]))).
  rewrite (proj1 cleanup_twice_is_cleanup_once). reflexivity.
Defined.
